(** * Pendulum-Animations: a shallow embedding of the pendulum scripts

    The repository consists of five stand-alone Python scripts.  Each one
    defines the right-hand side of an ordinary differential equation, hands it
    to [scipy.integrate.solve_ivp], maps the angles of the solution to
    Cartesian coordinates and draws them.  Two of the scripts
    (InteractiveDoublePendulum.py and InteractiveSimplePendulum.py) add a
    pygame event loop with sliders that edit the physical parameters.

    Modelling conventions.
    - Python floats and numpy float64 values are idealised as real numbers
      ([R]); rounding, overflow and NaN are outside the model.
    - Module-level variables of a script that a function reads are collected in
      a record that the embedded function takes as its first argument.
    - [solve_ivp] belongs to SciPy, not to the repository: it is an interface
      ([OdeSolver]) of which the scripts are clients.
    - numpy arrays are lists; [a[i]] out of range raises [IndexError]. *)

From Stdlib Require Import String.
From Stdlib Require Import Reals Lra Lia Psatz ZArith List Bool.
Import ListNotations.
Open Scope R_scope.

(** ** The parts of numpy the scripts use *)

Module Numpy.

(** [np.power(x, n)] for a literal natural exponent. *)
Definition power (x : R) (n : nat) : R := x ^ n.

(** [np.clip(a, a_min, a_max)] is [minimum(a_max, maximum(a, a_min))]. *)
Definition clip (a a_min a_max : R) : R := Rmin (Rmax a a_min) a_max.

(** [np.linspace(start, stop, num)], end point included. *)
Definition linspace (start stop : R) (num : nat) : list R :=
  map (fun i => start + INR i * ((stop - start) / INR (num - 1))) (seq 0 num).

(** Element-wise binary operation on two arrays of one shape. *)
Definition map2 {A B C} (f : A -> B -> C) (xs : list A) (ys : list B) : list C :=
  map (fun ab => f (fst ab) (snd ab)) (combine xs ys).

(** [math.atan2(y, x)] on reals: the angle in (-PI, PI] of the point (x, y). *)
Definition atan2 (y x : R) : R :=
  if Rlt_dec 0 x then atan (y / x)
  else if Rlt_dec x 0 then
    (if Rle_dec 0 y then atan (y / x) + PI else atan (y / x) - PI)
  else if Rlt_dec 0 y then PI / 2
  else if Rlt_dec y 0 then - (PI / 2)
  else 0.

End Numpy.

(** ** The parts of Python's built-ins the scripts use *)

Module Python.

(** [int(x)] on a float: the integer part, rounding toward zero. *)
Definition int (x : R) : Z :=
  if Rle_dec 0 x then Int_part x else (- Int_part (- x))%Z.

End Python.

(** ** What a script can observe of running Python code *)

Inductive result (A : Type) : Type :=
| Ok (a : A)
| IndexError.
Arguments Ok {A} a.
Arguments IndexError {A}.

(** [a[i]] on a numpy array. *)
Definition getitem {A} (a : list A) (i : nat) : result A :=
  match nth_error a i with
  | Some v => Ok v
  | None => IndexError
  end.

Definition bind {A B} (r : result A) (k : A -> result B) : result B :=
  match r with
  | Ok a => k a
  | IndexError => IndexError
  end.

Notation "x <- r ;; k" := (bind r (fun x => k))
  (at level 61, r at next level, right associativity).

(** ** [scipy.integrate.solve_ivp]

    [solve_ivp fun t_span y0 t_eval] returns the state at every time of
    [t_eval].  [sol.y[k]] of the scripts is the list of [k]-th components. *)

Class OdeSolver (Y : Type) : Type :=
  solve_ivp : (R -> Y -> Y) -> R * R -> Y -> list R -> list Y.

(** ** The parts of pygame the interactive scripts use *)

Module Pygame.

Record Rect : Type := { x : Z; y : Z; width : Z; height : Z }.

(** [Rect.collidepoint]: left and top edges inside, right and bottom outside. *)
Definition collidepoint (r : Rect) (pos : Z * Z) : bool :=
  ((x r <=? fst pos) && (fst pos <? x r + width r) &&
   (y r <=? snd pos) && (snd pos <? y r + height r))%Z.

Inductive Event : Type :=
| QUIT
| MOUSEBUTTONDOWN (pos : Z * Z)
| MOUSEBUTTONUP (pos : Z * Z)
| MOUSEMOTION (pos : Z * Z)
| OTHER.

(** What [pygame.draw.rect], [pygame.draw.line] and [pygame.draw.circle] are
    asked to draw; colours are left out. *)
Inductive Shape : Type :=
| Line (start_pos end_pos : Z * Z) (line_width : Z)
| Circle (center : Z * Z) (radius : Z).

Definition is_MOUSEBUTTONUP (e : Event) : bool :=
  match e with
  | MOUSEBUTTONUP _ => true
  | _ => false
  end.

End Pygame.

(** Gravity, [g = 9.81] in every script. *)
Definition g : R := 981 / 100.

(** ** SimplePendulum.py *)

Module SimplePendulum.

(** Module-level constant [l = 5]. *)
Definition l_default : R := 5.

Definition SimplePendulum (l : R) (t : R) (y : R * R) : R * R :=
  let '(theta, z) := y in
  let dtheta_dt := z in
  let dz_dt := - (g / l) * sin theta in
  (dtheta_dt, dz_dt).

(** [x1 = l * np.sin(theta)], [y1 = -l * np.cos(theta)]. *)
Definition x1 (l : R) (theta : list R) : list R := map (fun th => l * sin th) theta.
Definition y1 (l : R) (theta : list R) : list R := map (fun th => - l * cos th) theta.

(** Lines 41-42: [ax.set_xlim(-l-1, l+1)], [ax.set_ylim(-l-1, l+1)]. *)
Definition xlim (l : R) : R * R := (- l - 1, l + 1).
Definition ylim (l : R) : R * R := (- l - 1, l + 1).

(** [init] (lines 50-53): the data of [line] and of [trace]. *)
Definition init : (list R * list R) * (list R * list R) := (([], []), ([], [])).

(** [update] (lines 55-58) on the module-level arrays [x1], [y1]: the data
    it sets on [line] and on [trace]. *)
Definition update (x1 y1 : list R) (frame : nat)
  : result ((list R * list R) * (list R * list R)) :=
  a <- getitem x1 frame ;;
  b <- getitem y1 frame ;;
  Ok (([0; a], [0; b]), (firstn frame x1, firstn frame y1)).

End SimplePendulum.

(** ** DampedPendulum/DampedPendulum.py *)

Module DampedPendulum.

Record Params : Type := { l : R; m : R; b : R }.

(** [l = 5], [m = 5], [b = 0.8]. *)
Definition defaults : Params := {| l := 5; m := 5; b := 8 / 10 |}.

Definition DampedPemdulum (p : Params) (t : R) (y : R * R) : R * R :=
  let '(theta, z) := y in
  let dtheta_dt := z in
  let dz_dt := - (b p / (m p * Numpy.power (l p) 2)) * z - (g / l p) * sin theta in
  (dtheta_dt, dz_dt).

Definition x1 (p : Params) (theta : list R) : list R := map (fun th => l p * sin th) theta.
Definition y1 (p : Params) (theta : list R) : list R := map (fun th => - l p * cos th) theta.

(** Lines 40-41: [ax.set_xlim(-l - 1, l + 1)], [ax.set_ylim(-l - 1, l + 1)]. *)
Definition xlim (p : Params) : R * R := (- l p - 1, l p + 1).
Definition ylim (p : Params) : R * R := (- l p - 1, l p + 1).

(** [init] (lines 48-51). *)
Definition init : (list R * list R) * (list R * list R) := (([], []), ([], [])).

(** [update] (lines 53-56) on the module-level arrays [x1], [y1]. *)
Definition update (x1 y1 : list R) (frame : nat)
  : result ((list R * list R) * (list R * list R)) :=
  a <- getitem x1 frame ;;
  b <- getitem y1 frame ;;
  Ok (([0; a], [0; b]), (firstn frame x1, firstn frame y1)).

End DampedPendulum.

(** ** DoublePendulum/DoublePendulum.py *)

Module DoublePendulum.

Record Params : Type :=
  { m1 : R; l1 : R; c1 : R; m2 : R; l2 : R; c2 : R }.

(** [m1 = 1], [l1 = 1], [c1 = 0], [m2 = 1], [l2 = 1], [c2 = 0]. *)
Definition defaults : Params :=
  {| m1 := 1; l1 := 1; c1 := 0; m2 := 1; l2 := 1; c2 := 0 |}.

(** The local [denominator] of [DoubleDampedPendulum] (line 37). *)
Definition denominator (p : Params) (deltatheta : R) : R :=
  ((m1 p + m2 p) * Numpy.power (l1 p) 2 * m2 p * sqrt (l2 p))
  - Numpy.power (m2 p * l1 p * l2 p * cos deltatheta) 2.

Definition DoubleDampedPendulum (p : Params) (t : R) (y : R * R * R * R)
  : R * R * R * R :=
  let '(theta1, z1, theta2, z2) := y in
  let deltatheta := theta1 - theta2 in
  let dtheta1_dt := z1 in
  let dtheta2_dt := z2 in
  let denominator := denominator p deltatheta in
  let dz1_dt :=
    (m2 p * Numpy.power (l2 p) 2
       * (- m2 p * l1 p * l2 p * Numpy.power z2 2 * sin deltatheta
          - (m1 p + m2 p) * g * l1 p * sin theta1 - c1 p * z1)
     - (m2 p * l1 p * l2 p * cos deltatheta
          * (m2 p * l1 p * l2 p * Numpy.power z1 2 * sin deltatheta
             - m2 p * g * l2 p * sin theta2 - c2 p * z2)))
    / denominator in
  let dz2_dt :=
    (- m2 p * l1 p * l2 p * cos deltatheta
       * (- m2 p * l1 p * l2 p * Numpy.power z2 2 * sin deltatheta
          - (m1 p + m2 p) * g * l1 p * sin theta1 - c1 p * z1)
     + ((m1 p + m2 p) * Numpy.power (l1 p) 2)
       * (m2 p * l1 p * l2 p * Numpy.power z1 2 * sin deltatheta
          - m2 p * g * l2 p * sin theta2 - c2 p * z2))
    / denominator in
  (dtheta1_dt, dz1_dt, dtheta2_dt, dz2_dt).

(** Lines 59-62: [x1 = l1 * np.sin(theta1)], [y1 = -l1 * np.cos(theta1)],
    [x2 = x1 + l2 * np.sin(theta2)], [y2 = y1 - l2 * np.cos(theta2)]. *)
Definition x1 (p : Params) (theta1 : list R) : list R :=
  map (fun th => l1 p * sin th) theta1.
Definition y1 (p : Params) (theta1 : list R) : list R :=
  map (fun th => - l1 p * cos th) theta1.
Definition x2 (p : Params) (theta1 theta2 : list R) : list R :=
  Numpy.map2 (fun a th => a + l2 p * sin th) (x1 p theta1) theta2.
Definition y2 (p : Params) (theta1 theta2 : list R) : list R :=
  Numpy.map2 (fun a th => a - l2 p * cos th) (y1 p theta1) theta2.

(** [theta1 = sol.y[0]], [theta2 = sol.y[2]]. *)
Definition theta1_of (sol : list (R * R * R * R)) : list R :=
  map (fun s => let '(th1, _, _, _) := s in th1) sol.
Definition theta2_of (sol : list (R * R * R * R)) : list R :=
  map (fun s => let '(_, _, th2, _) := s in th2) sol.

(** Lines 65-66: [ax.set_xlim(-(l1+l2) - 1, (l1+l2) + 1)] and the same for
    [ax.set_ylim]. *)
Definition xlim (p : Params) : R * R :=
  (- (l1 p + l2 p) - 1, (l1 p + l2 p) + 1).
Definition ylim (p : Params) : R * R :=
  (- (l1 p + l2 p) - 1, (l1 p + l2 p) + 1).

(** [init] (lines 73-76). *)
Definition init : (list R * list R) * (list R * list R) := (([], []), ([], [])).

(** [update] (lines 78-81) on the module-level arrays [x1], [y1], [x2], [y2]:
    the data it sets on [line] (pivot, bob 1, bob 2) and on [trace]. *)
Definition update (x1 y1 x2 y2 : list R) (frame : nat)
  : result ((list R * list R) * (list R * list R)) :=
  a <- getitem x1 frame ;;
  c <- getitem x2 frame ;;
  b <- getitem y1 frame ;;
  d <- getitem y2 frame ;;
  Ok (([0; a; c], [0; b; d]), (firstn frame x2, firstn frame y2)).

End DoublePendulum.

(** ** DoublePendulum/InteractiveDoublePendulum.py *)

Module InteractiveDoublePendulum.
Import Pygame.

(** The module-level parameters [m1], [m2], [l1], [l2], [c1], [c2]. *)
Record Params : Type :=
  { m1 : R; m2 : R; l1 : R; l2 : R; c1 : R; c2 : R }.

Definition initial_params : Params :=
  {| m1 := 1; m2 := 1; l1 := 1; l2 := 1; c1 := 0; c2 := 0 |}.

Definition Y : Type := R * R * R * R.

(** The local [denominator] of [DoubleDampedPendulum] (line 39). *)
Definition denominator (p : Params) (deltatheta : R) : R :=
  ((m1 p + m2 p) * Numpy.power (l1 p) 2 * m2 p * Numpy.power (l2 p) 2)
  - Numpy.power (m2 p * l1 p * l2 p * cos deltatheta) 2.

Definition DoubleDampedPendulum (p : Params) (t : R) (y : Y) : Y :=
  let '(theta1, z1, theta2, z2) := y in
  let deltatheta := theta1 - theta2 in
  let dtheta1_dt := z1 in
  let dtheta2_dt := z2 in
  let denominator := denominator p deltatheta in
  let dz1_dt :=
    (m2 p * Numpy.power (l2 p) 2
       * (- m2 p * l1 p * l2 p * Numpy.power z2 2 * sin deltatheta
          - (m1 p + m2 p) * g * l1 p * sin theta1 - c1 p * z1)
     - (m2 p * l1 p * l2 p * cos deltatheta
          * (m2 p * l1 p * l2 p * Numpy.power z1 2 * sin deltatheta
             - m2 p * g * l2 p * sin theta2 - c2 p * z2)))
    / denominator in
  let dz2_dt :=
    (- m2 p * l1 p * l2 p * cos deltatheta
       * (- m2 p * l1 p * l2 p * Numpy.power z2 2 * sin deltatheta
          - (m1 p + m2 p) * g * l1 p * sin theta1 - c1 p * z1)
     + ((m1 p + m2 p) * Numpy.power (l1 p) 2)
       * (m2 p * l1 p * l2 p * Numpy.power z1 2 * sin deltatheta
          - m2 p * g * l2 p * sin theta2 - c2 p * z2))
    / denominator in
  (dtheta1_dt, dz1_dt, dtheta2_dt, dz2_dt).

Definition y0 : Y := (PI / 2, 0, PI / 2, 0).
Definition t_span : R * R := (0, 100).
Definition t_eval : list R := Numpy.linspace 0 100 1000.

Definition slider_width : Z := 300.
Definition slider_height : Z := 20.
Definition slider_x1 : Z := 50.
Definition slider_x2 : Z := 450.
Definition slider_y_start : Z := 650.
Definition slider_spacing : Z := 50.

Definition slider_m1 : Rect :=
  {| x := slider_x1; y := slider_y_start;
     width := slider_width; height := slider_height |}.
Definition slider_l1 : Rect :=
  {| x := slider_x1; y := slider_y_start + slider_spacing;
     width := slider_width; height := slider_height |}.
Definition slider_c1 : Rect :=
  {| x := slider_x1; y := slider_y_start + 2 * slider_spacing;
     width := slider_width; height := slider_height |}.
Definition slider_m2 : Rect :=
  {| x := slider_x2; y := slider_y_start;
     width := slider_width; height := slider_height |}.
Definition slider_l2 : Rect :=
  {| x := slider_x2; y := slider_y_start + slider_spacing;
     width := slider_width; height := slider_height |}.
Definition slider_c2 : Rect :=
  {| x := slider_x2; y := slider_y_start + 2 * slider_spacing;
     width := slider_width; height := slider_height |}.

(** The module-level variables the event loop reads and writes.
    [solve_calls] is not a variable of the script: it records, for every
    call of [solve_ivp], the parameter values that [DoubleDampedPendulum]
    reads during that call. *)
Record Session : Type :=
  { params : Params;
    sol : list Y;
    theta1 : list R; theta2 : list R;
    x1 : list R; y1 : list R; x2 : list R; y2 : list R;
    dragging : option string;
    running : bool;
    frame : nat;
    solve_calls : list Params }.

Definition set_params (p : Params) (s : Session) : Session :=
  {| params := p; sol := sol s; theta1 := theta1 s; theta2 := theta2 s;
     x1 := x1 s; y1 := y1 s; x2 := x2 s; y2 := y2 s;
     dragging := dragging s; running := running s; frame := frame s;
     solve_calls := solve_calls s |}.

Definition set_dragging (d : option string) (s : Session) : Session :=
  {| params := params s; sol := sol s; theta1 := theta1 s; theta2 := theta2 s;
     x1 := x1 s; y1 := y1 s; x2 := x2 s; y2 := y2 s;
     dragging := d; running := running s; frame := frame s;
     solve_calls := solve_calls s |}.

Definition set_running (b : bool) (s : Session) : Session :=
  {| params := params s; sol := sol s; theta1 := theta1 s; theta2 := theta2 s;
     x1 := x1 s; y1 := y1 s; x2 := x2 s; y2 := y2 s;
     dragging := dragging s; running := b; frame := frame s;
     solve_calls := solve_calls s |}.

Definition set_frame (n : nat) (s : Session) : Session :=
  {| params := params s; sol := sol s; theta1 := theta1 s; theta2 := theta2 s;
     x1 := x1 s; y1 := y1 s; x2 := x2 s; y2 := y2 s;
     dragging := dragging s; running := running s; frame := n;
     solve_calls := solve_calls s |}.

Definition set_m1 (v : R) (p : Params) : Params :=
  {| m1 := v; m2 := m2 p; l1 := l1 p; l2 := l2 p; c1 := c1 p; c2 := c2 p |}.
Definition set_m2 (v : R) (p : Params) : Params :=
  {| m1 := m1 p; m2 := v; l1 := l1 p; l2 := l2 p; c1 := c1 p; c2 := c2 p |}.
Definition set_l1 (v : R) (p : Params) : Params :=
  {| m1 := m1 p; m2 := m2 p; l1 := v; l2 := l2 p; c1 := c1 p; c2 := c2 p |}.
Definition set_l2 (v : R) (p : Params) : Params :=
  {| m1 := m1 p; m2 := m2 p; l1 := l1 p; l2 := v; c1 := c1 p; c2 := c2 p |}.
Definition set_c1 (v : R) (p : Params) : Params :=
  {| m1 := m1 p; m2 := m2 p; l1 := l1 p; l2 := l2 p; c1 := v; c2 := c2 p |}.
Definition set_c2 (v : R) (p : Params) : Params :=
  {| m1 := m1 p; m2 := m2 p; l1 := l1 p; l2 := l2 p; c1 := c1 p; c2 := v |}.

Section WithSolver.
Context {solver : OdeSolver Y}.

(** Lines 56-65 and 85-90: the state when the main loop is entered. *)
Definition initial : Session :=
  let p := initial_params in
  let sol := solve_ivp (DoubleDampedPendulum p) t_span y0 t_eval in
  let theta1 := map (fun s : Y => let '(th1, _, _, _) := s in th1) sol in
  let theta2 := map (fun s : Y => let '(_, _, th2, _) := s in th2) sol in
  let x1 := map (fun th => l1 p * sin th) theta1 in
  let y1 := map (fun th => l1 p * cos th) theta1 in
  let x2 := Numpy.map2 (fun a th => a + l2 p * sin th) x1 theta2 in
  let y2 := Numpy.map2 (fun a th => a + l2 p * cos th) y1 theta2 in
  {| params := p; sol := sol; theta1 := theta1; theta2 := theta2;
     x1 := x1; y1 := y1; x2 := x2; y2 := y2;
     dragging := None; running := true; frame := 0%nat;
     solve_calls := [p] |}.

Definition update_simulation (s : Session) : Session :=
  let p := params s in
  let sol := solve_ivp (DoubleDampedPendulum p) t_span y0 t_eval in
  let theta1 := map (fun s : Y => let '(th1, _, _, _) := s in th1) sol in
  let theta2 := map (fun s : Y => let '(_, _, th2, _) := s in th2) sol in
  let x1 := map (fun th => l1 p * sin th) theta1 in
  let y1 := map (fun th => l1 p * cos th) theta1 in
  let x2 := Numpy.map2 (fun a th => a + l2 p * sin th) x1 theta2 in
  let y2 := Numpy.map2 (fun a th => a + l2 p * cos th) y1 theta2 in
  {| params := p; sol := sol; theta1 := theta1; theta2 := theta2;
     x1 := x1; y1 := y1; x2 := x2; y2 := y2;
     dragging := dragging s; running := running s; frame := 0%nat;
     solve_calls := solve_calls s ++ [p] |}.

(** The body of [for event in pygame.event.get()].  An event has one
    type, so at most one of the four [if]s applies.  [dragging] only ever
    holds [None] or a non-empty string, so its truth value is that of
    [dragging is not None]. *)
Definition handle_event (event : Event) (s : Session) : Session :=
  match event with
  | QUIT => set_running false s
  | MOUSEBUTTONDOWN pos =>
      if collidepoint slider_m1 pos then set_dragging (Some "m1"%string) s
      else if collidepoint slider_l1 pos then set_dragging (Some "l1"%string) s
      else if collidepoint slider_c1 pos then set_dragging (Some "c1"%string) s
      else if collidepoint slider_m2 pos then set_dragging (Some "m2"%string) s
      else if collidepoint slider_l2 pos then set_dragging (Some "l2"%string) s
      else if collidepoint slider_c2 pos then set_dragging (Some "c2"%string) s
      else s
  | MOUSEBUTTONUP _ => update_simulation (set_dragging None s)
  | MOUSEMOTION pos =>
      match dragging s with
      | None => s
      | Some d =>
          let mouse_x := fst pos in
          let p := params s in
          if (d =? "m1")%string then
            set_params (set_m1 (Numpy.clip
              (IZR (mouse_x - x slider_m1) / IZR (width slider_m1) * 5) (1 / 100) 10) p) s
          else if (d =? "l1")%string then
            set_params (set_l1 (Numpy.clip
              (IZR (mouse_x - x slider_l1) / IZR (width slider_l1) * 5) (1 / 100) 10) p) s
          else if (d =? "c1")%string then
            set_params (set_c1 (Numpy.clip
              (IZR (mouse_x - x slider_c1) / IZR (width slider_c1) * 1) 0 1) p) s
          else if (d =? "m2")%string then
            set_params (set_m2 (Numpy.clip
              (IZR (mouse_x - x slider_m2) / IZR (width slider_m2) * 5) (1 / 100) 10) p) s
          else if (d =? "l2")%string then
            set_params (set_l2 (Numpy.clip
              (IZR (mouse_x - x slider_l2) / IZR (width slider_l2) * 5) (1 / 100) 10) p) s
          else if (d =? "c2")%string then
            set_params (set_c2 (Numpy.clip
              (IZR (mouse_x - x slider_c2) / IZR (width slider_c2) * 1) 0 1) p) s
          else s
      end
  | OTHER => s
  end.

(** Lines 156-163.  The result carries the position frame that was drawn,
    in model units, or [None] when nothing was drawn. *)
Definition draw_pendulum (s : Session)
  : result (Session * option (R * R * R * R)) :=
  if (frame s <? length t_eval)%nat then
    a <- getitem (x1 s) (frame s) ;;
    b <- getitem (y1 s) (frame s) ;;
    c <- getitem (x2 s) (frame s) ;;
    d <- getitem (y2 s) (frame s) ;;
    Ok (set_frame (frame s + 1) s, Some (a, b, c, d))
  else Ok (s, None).

(** The [for] loop over one batch of events. *)
Definition handle_events (events : list Event) (s : Session) : Session :=
  fold_left (fun acc e => handle_event e acc) events s.

(** One pass through the body of [while running]. *)
Definition loop_body (events : list Event) (s : Session)
  : result (Session * option (R * R * R * R)) :=
  draw_pendulum (handle_events events s).

(** The main loop on the successive batches of [pygame.event.get()];
    it returns the final state and what each pass drew. *)
Fixpoint main_loop (batches : list (list Event)) (s : Session)
  : result (Session * list (option (R * R * R * R))) :=
  match batches with
  | [] => Ok (s, [])
  | events :: rest =>
      if running s then
        r <- loop_body events s ;;
        rs <- main_loop rest (fst r) ;;
        Ok (fst rs, snd r :: snd rs)
      else Ok (s, [])
  end.

End WithSolver.

Definition WIDTH : Z := 800.
Definition HEIGHT : Z := 800.

(** [draw_slider] (lines 92-98): the handle rectangle it draws over the
    slider.  The label it renders is left out. *)
Definition draw_slider (slider : Rect) (value min_val max_val : R) : Rect :=
  let handle_x :=
    (x slider
     + Python.int ((value - min_val) / (max_val - min_val) * IZR (width slider)))%Z in
  {| x := handle_x - 5; y := y slider; width := 10; height := height slider |}.

(** Lines 166-172: the six handles, in drawing order. *)
Definition draw_sliders (s : Session) : list Rect :=
  let p := params s in
  [ draw_slider slider_m1 (m1 p) (1 / 100) 10;
    draw_slider slider_l1 (l1 p) (1 / 100) 10;
    draw_slider slider_c1 (c1 p) 0 1;
    draw_slider slider_m2 (m2 p) (1 / 100) 10;
    draw_slider slider_l2 (l2 p) (1 / 100) 10;
    draw_slider slider_c2 (c2 p) 0 1 ].

(** Lines 157-162: the two rods and the two bobs drawn for the position
    frame [(x1[frame], y1[frame], x2[frame], y2[frame])]. *)
Definition pendulum_shapes (f : R * R * R * R) : list Shape :=
  let '(a, b, c, d) := f in
  let pivot := (WIDTH / 2, HEIGHT / 2)%Z in
  let bob1 := (WIDTH / 2 + Python.int (100 * a),
               HEIGHT / 2 + Python.int (100 * b))%Z in
  let bob2 := (WIDTH / 2 + Python.int (100 * c),
               HEIGHT / 2 + Python.int (100 * d))%Z in
  [Line pivot bob1 2; Line bob1 bob2 2; Circle bob1 10; Circle bob2 10].

End InteractiveDoublePendulum.

(** ** InteractiveSimplePendulum.py *)

Module InteractiveSimplePendulum.
Import Pygame.

(** The module-level parameters [m], [l], [b]. *)
Record Params : Type := { m : R; l : R; b : R }.

Definition initial_params : Params := {| m := 1; l := 1; b := 0 |}.

Definition Y : Type := R * R.

Definition SimplePemdulum (p : Params) (t : R) (y : Y) : Y :=
  let '(theta, z) := y in
  let dtheta_dt := z in
  let dz_dt := - (b p / (m p * Numpy.power (l p) 2)) * z - (g / l p) * sin theta in
  (dtheta_dt, dz_dt).

Definition y0 : Y := (PI / 2, 0).
Definition t_span : R * R := (0, 50).
Definition t_eval : list R := Numpy.linspace 0 50 500.

Definition slider_width : Z := 300.
Definition slider_height : Z := 20.
Definition slider_x : Z := 50.
Definition slider_y_start : Z := 650.
Definition slider_spacing : Z := 50.

Definition slider_m : Rect :=
  {| x := slider_x; y := slider_y_start;
     width := slider_width; height := slider_height |}.
Definition slider_l : Rect :=
  {| x := slider_x; y := slider_y_start + slider_spacing;
     width := slider_width; height := slider_height |}.
Definition slider_b : Rect :=
  {| x := slider_x; y := slider_y_start + 2 * slider_spacing;
     width := slider_width; height := slider_height |}.

(** The module-level variables the event loop reads and writes.  [c] is the
    name that line 112 assigns; it is unbound ([None]) until then.
    [solve_calls] is not a variable of the script: it records, for every
    call of [solve_ivp], the parameter values that [SimplePemdulum] reads
    during that call. *)
Record Session : Type :=
  { params : Params;
    c : option R;
    sol : list Y;
    theta : list R;
    x1 : list R; y1 : list R;
    dragging : option string;
    running : bool;
    frame : nat;
    solve_calls : list Params }.

Definition set_params (p : Params) (s : Session) : Session :=
  {| params := p; c := c s; sol := sol s; theta := theta s;
     x1 := x1 s; y1 := y1 s;
     dragging := dragging s; running := running s; frame := frame s;
     solve_calls := solve_calls s |}.

Definition set_c (v : R) (s : Session) : Session :=
  {| params := params s; c := Some v; sol := sol s; theta := theta s;
     x1 := x1 s; y1 := y1 s;
     dragging := dragging s; running := running s; frame := frame s;
     solve_calls := solve_calls s |}.

Definition set_dragging (d : option string) (s : Session) : Session :=
  {| params := params s; c := c s; sol := sol s; theta := theta s;
     x1 := x1 s; y1 := y1 s;
     dragging := d; running := running s; frame := frame s;
     solve_calls := solve_calls s |}.

Definition set_running (r : bool) (s : Session) : Session :=
  {| params := params s; c := c s; sol := sol s; theta := theta s;
     x1 := x1 s; y1 := y1 s;
     dragging := dragging s; running := r; frame := frame s;
     solve_calls := solve_calls s |}.

Definition set_frame (n : nat) (s : Session) : Session :=
  {| params := params s; c := c s; sol := sol s; theta := theta s;
     x1 := x1 s; y1 := y1 s;
     dragging := dragging s; running := running s; frame := n;
     solve_calls := solve_calls s |}.

Definition set_m (v : R) (p : Params) : Params := {| m := v; l := l p; b := b p |}.
Definition set_l (v : R) (p : Params) : Params := {| m := m p; l := v; b := b p |}.

Section WithSolver.
Context {solver : OdeSolver Y}.

(** Lines 41-51 and 64-68: the state when the main loop is entered. *)
Definition initial : Session :=
  let p := initial_params in
  let sol := solve_ivp (SimplePemdulum p) t_span y0 t_eval in
  let theta := map (fun s : Y => fst s) sol in
  let x1 := map (fun th => l p * sin th) theta in
  let y1 := map (fun th => l p * cos th) theta in
  {| params := p; c := None; sol := sol; theta := theta;
     x1 := x1; y1 := y1;
     dragging := None; running := true; frame := 0%nat;
     solve_calls := [p] |}.

(** Lines 78-84.  [theta] is not in the [global] statement, so the
    assignment of line 81 binds a local and the module-level [theta]
    keeps its value. *)
Definition update_simulation (s : Session) : Session :=
  let p := params s in
  let sol := solve_ivp (SimplePemdulum p) t_span y0 t_eval in
  let theta_local := map (fun s : Y => fst s) sol in
  let x1 := map (fun th => l p * sin th) theta_local in
  let y1 := map (fun th => l p * cos th) theta_local in
  {| params := p; c := c s; sol := sol; theta := theta s;
     x1 := x1; y1 := y1;
     dragging := dragging s; running := running s; frame := 0%nat;
     solve_calls := solve_calls s ++ [p] |}.

(** The body of [for event in pygame.event.get()] (lines 90-112). *)
Definition handle_event (event : Event) (s : Session) : Session :=
  match event with
  | QUIT => set_running false s
  | MOUSEBUTTONDOWN pos =>
      if collidepoint slider_m pos then set_dragging (Some "m"%string) s
      else if collidepoint slider_l pos then set_dragging (Some "l"%string) s
      else if collidepoint slider_b pos then set_dragging (Some "b"%string) s
      else s
  | MOUSEBUTTONUP _ => update_simulation (set_dragging None s)
  | MOUSEMOTION pos =>
      match dragging s with
      | None => s
      | Some d =>
          let mouse_x := fst pos in
          let p := params s in
          if (d =? "m")%string then
            set_params (set_m (Numpy.clip
              (IZR (mouse_x - x slider_m) / IZR (width slider_m) * 10) (1 / 100) 10) p) s
          else if (d =? "l")%string then
            set_params (set_l (Numpy.clip
              (IZR (mouse_x - x slider_l) / IZR (width slider_l) * 10) (1 / 100) 10) p) s
          else if (d =? "b")%string then
            set_c (Numpy.clip
              (IZR (mouse_x - x slider_b) / IZR (width slider_b) * 1) 0 1) s
          else s
      end
  | OTHER => s
  end.

(** Lines 116-120.  The result carries the position that was drawn, in
    model units, or [None] when nothing was drawn. *)
Definition draw_pendulum (s : Session) : result (Session * option (R * R)) :=
  if (frame s <? length t_eval)%nat then
    a <- getitem (x1 s) (frame s) ;;
    b <- getitem (y1 s) (frame s) ;;
    Ok (set_frame (frame s + 1) s, Some (a, b))
  else Ok (s, None).

(** The [for] loop over one batch of events. *)
Definition handle_events (events : list Event) (s : Session) : Session :=
  fold_left (fun acc e => handle_event e acc) events s.

(** One pass through the body of [while running]. *)
Definition loop_body (events : list Event) (s : Session)
  : result (Session * option (R * R)) :=
  draw_pendulum (handle_events events s).

Fixpoint main_loop (batches : list (list Event)) (s : Session)
  : result (Session * list (option (R * R))) :=
  match batches with
  | [] => Ok (s, [])
  | events :: rest =>
      if running s then
        r <- loop_body events s ;;
        rs <- main_loop rest (fst r) ;;
        Ok (fst rs, snd r :: snd rs)
      else Ok (s, [])
  end.

End WithSolver.

Definition WIDTH : Z := 800.
Definition HEIGHT : Z := 800.

(** [draw_slider] (lines 70-76): the handle rectangle it draws over the
    slider.  The label it renders is left out. *)
Definition draw_slider (slider : Rect) (value min_val max_val : R) : Rect :=
  let handle_x :=
    (x slider
     + Python.int ((value - min_val) / (max_val - min_val) * IZR (width slider)))%Z in
  {| x := handle_x - 5; y := y slider; width := 10; height := height slider |}.

(** Lines 122-124: the three handles, in drawing order. *)
Definition draw_sliders (s : Session) : list Rect :=
  let p := params s in
  [ draw_slider slider_m (m p) (1 / 100) 10;
    draw_slider slider_l (l p) (1 / 100) 10;
    draw_slider slider_b (b p) 0 1 ].

(** Lines 117-119: the rod and the bob drawn for [(x1[frame], y1[frame])]. *)
Definition pendulum_shapes (f : R * R) : list Shape :=
  let '(a, b) := f in
  let pivot := (WIDTH / 2, HEIGHT / 2)%Z in
  let bob := (WIDTH / 2 + Python.int (100 * a),
              HEIGHT / 2 + Python.int (100 * b))%Z in
  [Line pivot bob 2; Circle bob 10].

End InteractiveSimplePendulum.

(** ** A reference implementation of the solver interface

    Forward Euler on the evaluation grid.  It is not SciPy's method; it shows
    that the interface and the law [solve_ivp_samples] below are inhabited,
    and gives the interactive sessions something to run on. *)

Module Euler.

Fixpoint steps {Y} (add : Y -> Y -> Y) (scale : R -> Y -> Y)
    (f : R -> Y -> Y) (t : R) (y : Y) (ts : list R) : list Y :=
  match ts with
  | [] => []
  | t' :: rest =>
      let y' := add y (scale (t' - t) (f t y)) in
      y' :: steps add scale f t' y' rest
  end.

Definition solve {Y} (add : Y -> Y -> Y) (scale : R -> Y -> Y)
    (f : R -> Y -> Y) (t_span : R * R) (y0 : Y) (t_eval : list R) : list Y :=
  match t_eval with
  | [] => []
  | t0 :: rest => y0 :: steps add scale f t0 y0 rest
  end.

Definition add2 (u v : R * R) : R * R :=
  (fst u + fst v, snd u + snd v).
Definition scale2 (h : R) (u : R * R) : R * R :=
  (h * fst u, h * snd u).

Definition add4 (u v : R * R * R * R) : R * R * R * R :=
  let '(a, b, c, d) := u in
  let '(a', b', c', d') := v in
  (a + a', b + b', c + c', d + d').
Definition scale4 (h : R) (u : R * R * R * R) : R * R * R * R :=
  let '(a, b, c, d) := u in (h * a, h * b, h * c, h * d).

Definition solver2 : OdeSolver (R * R) := solve add2 scale2.
Definition solver4 : OdeSolver (R * R * R * R) := solve add4 scale4.

End Euler.

(** The law of [solve_ivp] the scripts rely on: a successful solve returns
    one state per requested time. *)
Definition solve_ivp_samples {Y} (solver : OdeSolver Y) : Prop :=
  forall f t_span y0 t_eval,
    length (solve_ivp f t_span y0 t_eval) = length t_eval.

(** ** The formulas of the specification, as it words them *)

Module Spec.

(** D = (m1+m2)·l1²·m2·l2² − (m2·l1·l2·cos(Δθ))². *)
Definition D (m1 m2 l1 l2 dtheta : R) : R :=
  (m1 + m2) * l1 ^ 2 * m2 * l2 ^ 2 - (m2 * l1 * l2 * cos dtheta) ^ 2.

(** A = −m2·l1·l2·ω2²·sin(Δθ) − (m1+m2)·g·l1·sin(θ1) − c1·ω1. *)
Definition A (m1 m2 l1 l2 c1 theta1 omega1 theta2 omega2 : R) : R :=
  - m2 * l1 * l2 * omega2 ^ 2 * sin (theta1 - theta2)
  - (m1 + m2) * g * l1 * sin theta1 - c1 * omega1.

(** B = m2·l1·l2·ω1²·sin(Δθ) − m2·g·l2·sin(θ2) − c2·ω2. *)
Definition B (m2 l1 l2 c2 theta1 omega1 theta2 omega2 : R) : R :=
  m2 * l1 * l2 * omega1 ^ 2 * sin (theta1 - theta2)
  - m2 * g * l2 * sin theta2 - c2 * omega2.

(** α1 = (m2·l2²·A − m2·l1·l2·cos(Δθ)·B) / D. *)
Definition alpha1 (m1 m2 l1 l2 c1 c2 theta1 omega1 theta2 omega2 : R) : R :=
  (m2 * l2 ^ 2 * A m1 m2 l1 l2 c1 theta1 omega1 theta2 omega2
   - m2 * l1 * l2 * cos (theta1 - theta2) * B m2 l1 l2 c2 theta1 omega1 theta2 omega2)
  / D m1 m2 l1 l2 (theta1 - theta2).

(** α2 = (−m2·l1·l2·cos(Δθ)·A + (m1+m2)·l1²·B) / D. *)
Definition alpha2 (m1 m2 l1 l2 c1 c2 theta1 omega1 theta2 omega2 : R) : R :=
  (- m2 * l1 * l2 * cos (theta1 - theta2) * A m1 m2 l1 l2 c1 theta1 omega1 theta2 omega2
   + (m1 + m2) * l1 ^ 2 * B m2 l1 l2 c2 theta1 omega1 theta2 omega2)
  / D m1 m2 l1 l2 (theta1 - theta2).

(** α = −(c/(m·l²))·ω − (g/l)·sin(θ). *)
Definition alpha (m l c theta omega : R) : R :=
  - (c / (m * l ^ 2)) * omega - (g / l) * sin theta.

(** Equality of angles modulo 2π. *)
Definition eq_mod_2PI (a b : R) : Prop :=
  exists k : Z, a = b + 2 * IZR k * PI.

End Spec.

(** ** Session invariants and reachability *)

Module IDP := InteractiveDoublePendulum.
Module ISP := InteractiveSimplePendulum.

(** The ranges the sliders of InteractiveDoublePendulum.py clamp to. *)
Definition in_range_double (p : IDP.Params) : Prop :=
  (1 / 100 <= IDP.m1 p <= 10) /\ (1 / 100 <= IDP.m2 p <= 10) /\
  (1 / 100 <= IDP.l1 p <= 10) /\ (1 / 100 <= IDP.l2 p <= 10) /\
  (0 <= IDP.c1 p <= 1) /\ (0 <= IDP.c2 p <= 1).

(** The ranges the sliders of InteractiveSimplePendulum.py clamp to. *)
Definition in_range_simple (p : ISP.Params) : Prop :=
  (1 / 100 <= ISP.m p <= 10) /\ (1 / 100 <= ISP.l p <= 10) /\
  (0 <= ISP.b p <= 1).

(** Every position array has one entry per evaluation time. *)
Definition arrays_complete_double (s : IDP.Session) : Prop :=
  length (IDP.x1 s) = length IDP.t_eval /\
  length (IDP.y1 s) = length IDP.t_eval /\
  length (IDP.x2 s) = length IDP.t_eval /\
  length (IDP.y2 s) = length IDP.t_eval.

Definition arrays_complete_simple (s : ISP.Session) : Prop :=
  length (ISP.x1 s) = length ISP.t_eval /\
  length (ISP.y1 s) = length ISP.t_eval.

(** The sessions the main loop of InteractiveDoublePendulum.py can be in:
    the initial one, and those obtained by handling an event or drawing. *)
Inductive reachable_double {solver : OdeSolver IDP.Y} : IDP.Session -> Prop :=
| reach_double_initial : reachable_double IDP.initial
| reach_double_event e s :
    reachable_double s -> reachable_double (IDP.handle_event e s)
| reach_double_draw s s' f :
    reachable_double s -> IDP.draw_pendulum s = Ok (s', f) -> reachable_double s'.

Inductive reachable_simple {solver : OdeSolver ISP.Y} : ISP.Session -> Prop :=
| reach_simple_initial : reachable_simple ISP.initial
| reach_simple_event e s :
    reachable_simple s -> reachable_simple (ISP.handle_event e s)
| reach_simple_draw s s' f :
    reachable_simple s -> ISP.draw_pendulum s = Ok (s', f) -> reachable_simple s'.

(** The parameter set of DoublePendulum.py on which line 37 shows. *)
Definition long_second_rod : DoublePendulum.Params :=
  {| DoublePendulum.m1 := 1; DoublePendulum.l1 := 1; DoublePendulum.c1 := 0;
     DoublePendulum.m2 := 1; DoublePendulum.l2 := 4; DoublePendulum.c2 := 0 |}.

(** The parameters of DoublePendulum.py as a parameter set of
    InteractiveDoublePendulum.py. *)
Definition to_interactive (p : DoublePendulum.Params) : IDP.Params :=
  {| IDP.m1 := DoublePendulum.m1 p; IDP.m2 := DoublePendulum.m2 p;
     IDP.l1 := DoublePendulum.l1 p; IDP.l2 := DoublePendulum.l2 p;
     IDP.c1 := DoublePendulum.c1 p; IDP.c2 := DoublePendulum.c2 p |}.

(** The number of mouse-button-up events of a batch. *)
Definition count_releases (events : list Pygame.Event) : nat :=
  length (filter Pygame.is_MOUSEBUTTONUP events).

(** The horizontal extent of a slider contains the left edge of a handle
    rectangle shifted back by the 5 pixels [draw_slider] subtracts. *)
Definition handle_on_slider (slider handle : Pygame.Rect) : Prop :=
  (Pygame.x slider <= Pygame.x handle + 5 <= Pygame.x slider + Pygame.width slider)%Z /\
  Pygame.y handle = Pygame.y slider /\
  Pygame.height handle = Pygame.height slider.

(** An event whose position, if it has one, is a pixel of the 800 x 800
    window. *)
Definition in_window (e : Pygame.Event) : Prop :=
  match e with
  | Pygame.MOUSEBUTTONDOWN pos | Pygame.MOUSEBUTTONUP pos | Pygame.MOUSEMOTION pos =>
      (0 <= fst pos < IDP.WIDTH)%Z /\ (0 <= snd pos < IDP.HEIGHT)%Z
  | _ => True
  end.

(** The slider rectangles with the names the MOUSEBUTTONDOWN handlers give
    them. *)
Definition double_sliders : list (string * Pygame.Rect) :=
  [("m1"%string, IDP.slider_m1); ("l1"%string, IDP.slider_l1);
   ("c1"%string, IDP.slider_c1); ("m2"%string, IDP.slider_m2);
   ("l2"%string, IDP.slider_l2); ("c2"%string, IDP.slider_c2)].

Definition simple_sliders : list (string * Pygame.Rect) :=
  [("m"%string, ISP.slider_m); ("l"%string, ISP.slider_l);
   ("b"%string, ISP.slider_b)].

(** The sliders of a list that contain a point. *)
Definition sliders_at (sliders : list (string * Pygame.Rect)) (pos : Z * Z)
  : list (string * Pygame.Rect) :=
  filter (fun nr => Pygame.collidepoint (snd nr) pos) sliders.

(** The parameter values the latest solve of a session has read: the last
    entry of the log, which starts with the solve of line 57. *)
Definition last_solved (s : IDP.Session) : IDP.Params :=
  last (IDP.solve_calls s) IDP.initial_params.

(** The four position arrays of a session are the coordinate transform
    (lines 62-65 at start-up, lines 105-108 in [update_simulation]) of the
    stored solution, with the rod lengths of the latest solve. *)
Definition positions_follow_solve (s : IDP.Session) : Prop :=
  let p := last_solved s in
  let theta1 := map (fun y : IDP.Y => let '(th1, _, _, _) := y in th1) (IDP.sol s) in
  let theta2 := map (fun y : IDP.Y => let '(_, _, th2, _) := y in th2) (IDP.sol s) in
  IDP.x1 s = map (fun th => IDP.l1 p * sin th) theta1 /\
  IDP.y1 s = map (fun th => IDP.l1 p * cos th) theta1 /\
  IDP.x2 s = Numpy.map2 (fun a th => a + IDP.l2 p * sin th) (IDP.x1 s) theta2 /\
  IDP.y2 s = Numpy.map2 (fun a th => a + IDP.l2 p * cos th) (IDP.y1 s) theta2.

(** * Properties *)

(** ** The derivative functions *)

Lemma sqrt_4 : sqrt 4 = 2.
Proof.
  replace 4 with (2 * 2) by ring.
  apply sqrt_square; lra.
Qed.

Lemma interactive_denominator_spec (p : IDP.Params) (dtheta : R) :
  IDP.denominator p dtheta
  = Spec.D (IDP.m1 p) (IDP.m2 p) (IDP.l1 p) (IDP.l2 p) dtheta.
Proof. reflexivity. Qed.

Lemma animation_denominator_long_second_rod :
  DoublePendulum.denominator long_second_rod 0 = -12.
Proof.
  unfold DoublePendulum.denominator, long_second_rod, Numpy.power; simpl.
  rewrite sqrt_4, cos_0. ring.
Qed.

(** C1.  The denominator of [DoubleDampedPendulum] is
    (m1+m2)·l1²·m2·l2² − (m2·l1·l2·cos(θ1−θ2))² in InteractiveDoublePendulum.py
    for all parameters and states.  In DoublePendulum.py line 37 takes
    [np.sqrt(l2)] where its own docstring has l2²: with m1 = m2 = l1 = 1,
    l2 = 4 and θ1 = θ2 the code computes −12 and the formula gives 16. *)
Theorem C1_denominator :
  (forall p theta1 theta2,
      IDP.denominator p (theta1 - theta2)
      = Spec.D (IDP.m1 p) (IDP.m2 p) (IDP.l1 p) (IDP.l2 p) (theta1 - theta2)) /\
  DoublePendulum.denominator long_second_rod (PI / 2 - PI / 2) = -12 /\
  Spec.D 1 1 1 4 (PI / 2 - PI / 2) = 16.
Proof.
  split; [intros; apply interactive_denominator_spec|].
  replace (PI / 2 - PI / 2) with 0 by ring.
  split; [apply animation_denominator_long_second_rod|].
  unfold Spec.D. rewrite cos_0. ring.
Qed.

Lemma interactive_derivative_spec (p : IDP.Params) (t theta1 omega1 theta2 omega2 : R) :
  IDP.DoubleDampedPendulum p t (theta1, omega1, theta2, omega2)
  = (omega1,
     Spec.alpha1 (IDP.m1 p) (IDP.m2 p) (IDP.l1 p) (IDP.l2 p) (IDP.c1 p) (IDP.c2 p)
       theta1 omega1 theta2 omega2,
     omega2,
     Spec.alpha2 (IDP.m1 p) (IDP.m2 p) (IDP.l1 p) (IDP.l2 p) (IDP.c1 p) (IDP.c2 p)
       theta1 omega1 theta2 omega2).
Proof. reflexivity. Qed.

Lemma animation_derivative_long_second_rod (t : R) :
  DoublePendulum.DoubleDampedPendulum long_second_rod t (PI / 2, 0, PI / 2, 0)
  = (0, 4 * g / 3, 0, 0).
Proof.
  unfold DoublePendulum.DoubleDampedPendulum.
  replace (PI / 2 - PI / 2) with 0 by ring.
  rewrite animation_denominator_long_second_rod.
  unfold long_second_rod, Numpy.power; simpl.
  rewrite sin_0, cos_0, sin_PI2.
  match goal with
  | |- (_, ?a1, _, ?a2) = _ =>
      replace a1 with (4 * g / 3) by field;
      replace a2 with 0 by field
  end.
  reflexivity.
Qed.

(** C2.  In InteractiveDoublePendulum.py the result of [DoubleDampedPendulum]
    is (ω1, α1, ω2, α2) with α1, α2, A, B and D as the specification writes
    them, for all parameters and states.  In DoublePendulum.py the two
    quotients are taken over the denominator of line 37, which is not D: with
    m1 = m2 = l1 = 1, l2 = 4, c1 = c2 = 0 at the state (π/2, 0, π/2, 0) the
    code returns α1 = 4g/3 where the formula gives −g. *)
Theorem C2_accelerations :
  (forall p t theta1 omega1 theta2 omega2,
      IDP.DoubleDampedPendulum p t (theta1, omega1, theta2, omega2)
      = (omega1,
         Spec.alpha1 (IDP.m1 p) (IDP.m2 p) (IDP.l1 p) (IDP.l2 p) (IDP.c1 p) (IDP.c2 p)
           theta1 omega1 theta2 omega2,
         omega2,
         Spec.alpha2 (IDP.m1 p) (IDP.m2 p) (IDP.l1 p) (IDP.l2 p) (IDP.c1 p) (IDP.c2 p)
           theta1 omega1 theta2 omega2)) /\
  (forall t,
      DoublePendulum.DoubleDampedPendulum long_second_rod t (PI / 2, 0, PI / 2, 0)
      = (0, 4 * g / 3, 0, 0)) /\
  Spec.alpha1 1 1 1 4 0 0 (PI / 2) 0 (PI / 2) 0 = - g /\
  4 * g / 3 <> - g.
Proof.
  split; [intros; apply interactive_derivative_spec|].
  split; [apply animation_derivative_long_second_rod|].
  split.
  - unfold Spec.alpha1, Spec.A, Spec.B, Spec.D.
    replace (PI / 2 - PI / 2) with 0 by ring.
    rewrite sin_0, cos_0, sin_PI2. field.
  - unfold g. lra.
Qed.

(** C8.  The three single-pendulum derivative functions return (ω, α) with
    α = −(c/(m·l²))·ω − (g/l)·sin(θ): [SimplePendulum] with c = 0 (it has no
    mass), [DampedPemdulum] and [SimplePemdulum] with c = b. *)
Theorem C8_single_pendulum (t theta omega m l c : R) :
  0 < m -> 0 < l -> 0 <= c ->
  SimplePendulum.SimplePendulum l t (theta, omega)
  = (omega, Spec.alpha m l 0 theta omega) /\
  DampedPendulum.DampedPemdulum
    {| DampedPendulum.l := l; DampedPendulum.m := m; DampedPendulum.b := c |}
    t (theta, omega)
  = (omega, Spec.alpha m l c theta omega) /\
  ISP.SimplePemdulum {| ISP.m := m; ISP.l := l; ISP.b := c |} t (theta, omega)
  = (omega, Spec.alpha m l c theta omega).
Proof.
  intros Hm Hl Hc.
  split; [|split; reflexivity].
  unfold SimplePendulum.SimplePendulum, Spec.alpha.
  f_equal. field. split; lra.
Qed.

Lemma C8_single_pendulum_witness :
  SimplePendulum.SimplePendulum 5 0 (PI / 2, 0)
  = (0, Spec.alpha 5 5 0 (PI / 2) 0) /\
  DampedPendulum.DampedPemdulum DampedPendulum.defaults 0 (PI / 2, 0)
  = (0, Spec.alpha 5 5 (8 / 10) (PI / 2) 0) /\
  ISP.SimplePemdulum {| ISP.m := 5; ISP.l := 5; ISP.b := 8 / 10 |} 0 (PI / 2, 0)
  = (0, Spec.alpha 5 5 (8 / 10) (PI / 2) 0).
Proof.
  apply (C8_single_pendulum 0 (PI / 2) 0 5 5 (8 / 10)); lra.
Defined.

Lemma interactive_denominator_factored (p : IDP.Params) (dtheta : R) :
  IDP.denominator p dtheta
  = IDP.m2 p * IDP.l1 p ^ 2 * IDP.l2 p ^ 2 * (IDP.m1 p + IDP.m2 p * sin dtheta ^ 2).
Proof.
  unfold IDP.denominator, Numpy.power.
  pose proof (sin2_cos2 dtheta) as H. unfold Rsqr in H.
  replace (sin dtheta ^ 2) with (1 - cos dtheta * cos dtheta) by (rewrite <- H; ring).
  ring.
Qed.

Lemma interactive_denominator_pos (p : IDP.Params) (dtheta : R) :
  0 < IDP.m1 p -> 0 < IDP.m2 p -> 0 < IDP.l1 p -> 0 < IDP.l2 p ->
  0 < IDP.denominator p dtheta.
Proof.
  intros H1 H2 H3 H4. rewrite interactive_denominator_factored.
  assert (Hl1 : 0 < IDP.l1 p ^ 2) by (apply pow_lt; assumption).
  assert (Hl2 : 0 < IDP.l2 p ^ 2) by (apply pow_lt; assumption).
  apply Rmult_lt_0_compat.
  - apply Rmult_lt_0_compat; [apply Rmult_lt_0_compat|]; assumption.
  - apply Rplus_lt_le_0_compat; [assumption|].
    apply Rmult_le_pos; [lra|]. apply pow2_ge_0.
Qed.

(** ** Clamping *)

Lemma clip_bounds (a lo hi : R) :
  lo <= hi -> lo <= Numpy.clip a lo hi <= hi.
Proof.
  intros H. unfold Numpy.clip, Rmin, Rmax.
  destruct (Rle_dec a lo); destruct (Rle_dec _ hi); lra.
Qed.

Lemma clip_below (a lo hi : R) :
  a <= lo -> lo <= hi -> Numpy.clip a lo hi = lo.
Proof.
  intros Ha H. unfold Numpy.clip, Rmin, Rmax.
  destruct (Rle_dec a lo); destruct (Rle_dec _ hi); lra.
Qed.

Lemma clip_inside (a lo hi : R) :
  lo <= a <= hi -> Numpy.clip a lo hi = a.
Proof.
  intros Ha. unfold Numpy.clip, Rmin, Rmax.
  destruct (Rle_dec a lo); destruct (Rle_dec _ hi); lra.
Qed.

Lemma linspace_length (start stop : R) (num : nat) :
  length (Numpy.linspace start stop num) = num.
Proof. unfold Numpy.linspace. now rewrite length_map, length_seq. Qed.

Lemma map2_length {A B C} (f : A -> B -> C) (xs : list A) (ys : list B) :
  length (Numpy.map2 f xs ys) = Nat.min (length xs) (length ys).
Proof. unfold Numpy.map2. now rewrite length_map, length_combine. Qed.

Lemma getitem_lt {A} (a : list A) (i : nat) :
  (i < length a)%nat -> exists v, getitem a i = Ok v /\ nth_error a i = Some v.
Proof.
  intros H. unfold getitem.
  destruct (nth_error a i) eqn:E; [eauto|].
  apply nth_error_None in E. lia.
Qed.

(** ** The session of InteractiveDoublePendulum.py *)

Section DoubleSession.
Context {solver : OdeSolver IDP.Y}.

Lemma double_t_eval_length : length IDP.t_eval = 1000%nat.
Proof. apply linspace_length. Qed.

Lemma double_initial_in_range : in_range_double IDP.initial_params.
Proof. unfold in_range_double; simpl; lra. Qed.

(** What a pointer move leaves alone, whatever is being dragged. *)
Lemma double_motion_frame (s : IDP.Session) (pos : Z * Z) :
  let s' := IDP.handle_event (Pygame.MOUSEMOTION pos) s in
  IDP.sol s' = IDP.sol s /\
  IDP.theta1 s' = IDP.theta1 s /\ IDP.theta2 s' = IDP.theta2 s /\
  IDP.x1 s' = IDP.x1 s /\ IDP.y1 s' = IDP.y1 s /\
  IDP.x2 s' = IDP.x2 s /\ IDP.y2 s' = IDP.y2 s /\
  IDP.frame s' = IDP.frame s /\ IDP.dragging s' = IDP.dragging s /\
  IDP.running s' = IDP.running s /\ IDP.solve_calls s' = IDP.solve_calls s.
Proof.
  simpl. destruct (IDP.dragging s) as [d|] eqn:E.
  - repeat match goal with
           | |- context [if ?b then _ else _] => destruct b
           end; simpl; rewrite ?E; repeat split; reflexivity.
  - rewrite E. repeat split; reflexivity.
Qed.

(** What a pointer move writes: the dragged parameter, clamped. *)
Lemma double_motion_params (s : IDP.Session) (pos : Z * Z) :
  let p := IDP.params s in
  let p' := IDP.params (IDP.handle_event (Pygame.MOUSEMOTION pos) s) in
  let v5 := Numpy.clip (IZR (fst pos - 50) / 300 * 5) (1 / 100) 10 in
  let w5 := Numpy.clip (IZR (fst pos - 450) / 300 * 5) (1 / 100) 10 in
  let v1 := Numpy.clip (IZR (fst pos - 50) / 300 * 1) 0 1 in
  let w1 := Numpy.clip (IZR (fst pos - 450) / 300 * 1) 0 1 in
  (IDP.dragging s = Some "m1"%string -> p' = IDP.set_m1 v5 p) /\
  (IDP.dragging s = Some "l1"%string -> p' = IDP.set_l1 v5 p) /\
  (IDP.dragging s = Some "c1"%string -> p' = IDP.set_c1 v1 p) /\
  (IDP.dragging s = Some "m2"%string -> p' = IDP.set_m2 w5 p) /\
  (IDP.dragging s = Some "l2"%string -> p' = IDP.set_l2 w5 p) /\
  (IDP.dragging s = Some "c2"%string -> p' = IDP.set_c2 w1 p) /\
  (IDP.dragging s = None -> p' = p).
Proof.
  simpl. repeat split; intros E; rewrite E; reflexivity.
Qed.

Lemma double_event_in_range (e : Pygame.Event) (s : IDP.Session) :
  in_range_double (IDP.params s) ->
  in_range_double (IDP.params (IDP.handle_event e s)).
Proof.
  intros H. destruct e as [|pos|pos|pos|]; simpl; try assumption.
  - repeat match goal with
           | |- context [if ?b then _ else _] => destruct b
           end; assumption.
  - destruct (IDP.dragging s) as [d|]; [|assumption].
    unfold in_range_double in *.
    repeat match goal with
           | |- context [if ?b then _ else _] => destruct b
           end; simpl; try assumption;
      repeat split; try tauto;
      match goal with
      | |- context [Numpy.clip ?a ?lo ?hi] =>
          apply (clip_bounds a lo hi); lra
      end.
Qed.

Lemma double_event_solve_calls (e : Pygame.Event) (s : IDP.Session) :
  IDP.solve_calls (IDP.handle_event e s) = IDP.solve_calls s \/
  IDP.solve_calls (IDP.handle_event e s) = IDP.solve_calls s ++ [IDP.params s].
Proof.
  destruct e as [|pos|pos|pos|]; simpl; auto.
  - left. repeat match goal with
                 | |- context [if ?b then _ else _] => destruct b
                 end; reflexivity.
  - left. destruct (IDP.dragging s) as [d|]; [|reflexivity].
    repeat match goal with
           | |- context [if ?b then _ else _] => destruct b
           end; reflexivity.
Qed.

Lemma double_draw_keeps (s s' : IDP.Session) f :
  IDP.draw_pendulum s = Ok (s', f) ->
  IDP.params s' = IDP.params s /\ IDP.solve_calls s' = IDP.solve_calls s /\
  IDP.x1 s' = IDP.x1 s /\ IDP.y1 s' = IDP.y1 s /\
  IDP.x2 s' = IDP.x2 s /\ IDP.y2 s' = IDP.y2 s /\
  IDP.dragging s' = IDP.dragging s /\ IDP.running s' = IDP.running s.
Proof.
  unfold IDP.draw_pendulum.
  destruct (IDP.frame s <? length IDP.t_eval)%nat.
  - destruct (getitem (IDP.x1 s) (IDP.frame s)); [|discriminate].
    destruct (getitem (IDP.y1 s) (IDP.frame s)); [|discriminate].
    destruct (getitem (IDP.x2 s) (IDP.frame s)); [|discriminate].
    destruct (getitem (IDP.y2 s) (IDP.frame s)); [|discriminate].
    simpl. intros [= <- _]. repeat split; reflexivity.
  - intros [= <- _]. repeat split; reflexivity.
Qed.

(** The clamps are an invariant of the session, and every parameter set a
    solve has read was inside the clamp ranges. *)
Lemma double_reachable_in_range (s : IDP.Session) :
  reachable_double s ->
  in_range_double (IDP.params s) /\ Forall in_range_double (IDP.solve_calls s).
Proof.
  induction 1 as [|e s Hs [IHp IHc]|s s' f Hs [IHp IHc] Hd].
  - split; [apply double_initial_in_range|].
    constructor; [apply double_initial_in_range|constructor].
  - split; [now apply double_event_in_range|].
    destruct (double_event_solve_calls e s) as [-> | ->]; [assumption|].
    apply Forall_app; split; [assumption|]. now constructor.
  - apply double_draw_keeps in Hd. destruct Hd as (-> & -> & _). now split.
Qed.

End DoubleSession.

(** C9.  For positive masses and lengths the denominator of the interactive
    [DoubleDampedPendulum] is m2·l1²·l2²·(m1 + m2·sin²(θ1−θ2)) and strictly
    positive, so neither quotient divides by zero.  The slider clamps keep
    the masses and lengths of every reachable session, and of every solve it
    has made, at 0.01 or more, so there the denominator is positive. *)
Theorem C9_denominator_positive {solver : OdeSolver IDP.Y}
    (p : IDP.Params) (s : IDP.Session) (theta1 theta2 : R) :
  0 < IDP.m1 p -> 0 < IDP.m2 p -> 0 < IDP.l1 p -> 0 < IDP.l2 p ->
  reachable_double s ->
  (IDP.denominator p (theta1 - theta2)
   = IDP.m2 p * IDP.l1 p ^ 2 * IDP.l2 p ^ 2
     * (IDP.m1 p + IDP.m2 p * sin (theta1 - theta2) ^ 2) /\
   0 < IDP.denominator p (theta1 - theta2) /\
   IDP.denominator p (theta1 - theta2) <> 0) /\
  (1 / 100 <= IDP.m1 (IDP.params s) /\ 1 / 100 <= IDP.m2 (IDP.params s) /\
   1 / 100 <= IDP.l1 (IDP.params s) /\ 1 / 100 <= IDP.l2 (IDP.params s) /\
   0 < IDP.denominator (IDP.params s) (theta1 - theta2)) /\
  Forall (fun q => 0 < IDP.denominator q (theta1 - theta2)) (IDP.solve_calls s).
Proof.
  intros H1 H2 H3 H4 Hr.
  pose proof (interactive_denominator_pos p (theta1 - theta2) H1 H2 H3 H4) as Hpos.
  destruct (double_reachable_in_range s Hr) as [Hp Hc].
  split; [|split].
  - split; [apply interactive_denominator_factored|].
    split; [assumption|lra].
  - destruct Hp as (M1 & M2 & L1 & L2 & _).
    repeat split; try tauto.
    apply interactive_denominator_pos; lra.
  - eapply Forall_impl; [|exact Hc].
    intros q (M1 & M2 & L1 & L2 & _).
    apply interactive_denominator_pos; lra.
Qed.

Lemma C9_denominator_positive_witness :
  let p := IDP.initial_params in
  let s := @IDP.handle_event Euler.solver4
             (Pygame.MOUSEBUTTONUP (400, 400)%Z) (@IDP.initial Euler.solver4) in
  (IDP.denominator p (PI / 2 - PI / 2)
   = IDP.m2 p * IDP.l1 p ^ 2 * IDP.l2 p ^ 2
     * (IDP.m1 p + IDP.m2 p * sin (PI / 2 - PI / 2) ^ 2) /\
   0 < IDP.denominator p (PI / 2 - PI / 2) /\
   IDP.denominator p (PI / 2 - PI / 2) <> 0) /\
  (1 / 100 <= IDP.m1 (IDP.params s) /\ 1 / 100 <= IDP.m2 (IDP.params s) /\
   1 / 100 <= IDP.l1 (IDP.params s) /\ 1 / 100 <= IDP.l2 (IDP.params s) /\
   0 < IDP.denominator (IDP.params s) (PI / 2 - PI / 2)) /\
  Forall (fun q => 0 < IDP.denominator q (PI / 2 - PI / 2)) (IDP.solve_calls s).
Proof.
  apply (@C9_denominator_positive Euler.solver4 IDP.initial_params
           (@IDP.handle_event Euler.solver4
              (Pygame.MOUSEBUTTONUP (400, 400)%Z) (@IDP.initial Euler.solver4))
           (PI / 2) (PI / 2)).
  - simpl; lra.
  - simpl; lra.
  - simpl; lra.
  - simpl; lra.
  - apply reach_double_event, reach_double_initial.
Defined.

(** ** The reference solver satisfies the law of the interface *)

Lemma euler_steps_length {Y} add scale (f : R -> Y -> Y) (ts : list R) :
  forall t y, length (Euler.steps add scale f t y ts) = length ts.
Proof.
  induction ts as [|t' rest IH]; intros t y; simpl; [reflexivity|].
  now rewrite IH.
Qed.

Lemma euler_solve_length {Y} add scale (f : R -> Y -> Y) span y0 (ts : list R) :
  length (Euler.solve add scale f span y0 ts) = length ts.
Proof.
  destruct ts as [|t0 rest]; simpl; [reflexivity|].
  now rewrite euler_steps_length.
Qed.

Lemma euler_solver4_samples : solve_ivp_samples Euler.solver4.
Proof. intros f span y0 ts. apply euler_solve_length. Qed.

Lemma euler_solver2_samples : solve_ivp_samples Euler.solver2.
Proof. intros f span y0 ts. apply euler_solve_length. Qed.

(** ** Playback in InteractiveDoublePendulum.py *)

Section DoublePlayback.
Context {solver : OdeSolver IDP.Y}.
Hypothesis samples : solve_ivp_samples solver.

Lemma double_update_complete (s : IDP.Session) :
  arrays_complete_double (IDP.update_simulation s).
Proof.
  unfold arrays_complete_double, IDP.update_simulation;
    cbn [IDP.x1 IDP.y1 IDP.x2 IDP.y2].
  rewrite !map2_length, !length_map, samples.
  rewrite Nat.min_id. repeat split; reflexivity.
Qed.

Lemma double_initial_complete : arrays_complete_double IDP.initial.
Proof.
  unfold arrays_complete_double, IDP.initial;
    cbn [IDP.x1 IDP.y1 IDP.x2 IDP.y2].
  rewrite !map2_length, !length_map, samples.
  rewrite Nat.min_id. repeat split; reflexivity.
Qed.

Lemma double_event_complete (e : Pygame.Event) (s : IDP.Session) :
  arrays_complete_double s -> arrays_complete_double (IDP.handle_event e s).
Proof.
  intros H. destruct e as [|pos|pos|pos|]; try assumption.
  - simpl. repeat match goal with
                  | |- context [if ?b then _ else _] => destruct b
                  end; assumption.
  - apply double_update_complete.
  - unfold arrays_complete_double.
    destruct (double_motion_frame s pos) as (_ & _ & _ & -> & -> & -> & -> & _).
    assumption.
Qed.

Lemma double_reachable_complete (s : IDP.Session) :
  reachable_double s -> arrays_complete_double s.
Proof.
  induction 1 as [|e s Hs IH|s s' f Hs IH Hd].
  - apply double_initial_complete.
  - now apply double_event_complete.
  - apply double_draw_keeps in Hd.
    destruct Hd as (_ & _ & E1 & E2 & E3 & E4 & _).
    unfold arrays_complete_double. now rewrite E1, E2, E3, E4.
Qed.

(** Before the end of the trajectory a pass draws the frame at the current
    index and advances the index by one. *)
Lemma double_draw_advances (s : IDP.Session) :
  arrays_complete_double s ->
  (IDP.frame s < length IDP.t_eval)%nat ->
  exists a b c d,
    IDP.draw_pendulum s = Ok (IDP.set_frame (IDP.frame s + 1) s, Some (a, b, c, d)) /\
    nth_error (IDP.x1 s) (IDP.frame s) = Some a /\
    nth_error (IDP.y1 s) (IDP.frame s) = Some b /\
    nth_error (IDP.x2 s) (IDP.frame s) = Some c /\
    nth_error (IDP.y2 s) (IDP.frame s) = Some d.
Proof.
  intros (H1 & H2 & H3 & H4) Hlt.
  destruct (getitem_lt (IDP.x1 s) (IDP.frame s)) as (a & Ga & Na); [lia|].
  destruct (getitem_lt (IDP.y1 s) (IDP.frame s)) as (b & Gb & Nb); [lia|].
  destruct (getitem_lt (IDP.x2 s) (IDP.frame s)) as (c & Gc & Nc); [lia|].
  destruct (getitem_lt (IDP.y2 s) (IDP.frame s)) as (d & Gd & Nd); [lia|].
  exists a, b, c, d. unfold IDP.draw_pendulum.
  apply Nat.ltb_lt in Hlt. rewrite Hlt, Ga, Gb, Gc, Gd. simpl. auto.
Qed.

End DoublePlayback.

(** Once the index has reached the length of [t_eval] a pass draws nothing
    and the index stays. *)
Lemma double_draw_holds (s : IDP.Session) :
  (length IDP.t_eval <= IDP.frame s)%nat -> IDP.draw_pendulum s = Ok (s, None).
Proof.
  intros H. unfold IDP.draw_pendulum.
  apply Nat.ltb_ge in H. now rewrite H.
Qed.

Lemma double_reachable_frame {solver : OdeSolver IDP.Y} (s : IDP.Session) :
  reachable_double s -> (IDP.frame s <= length IDP.t_eval)%nat.
Proof.
  induction 1 as [|e s Hs IH|s s' f Hs IH Hd].
  - apply Nat.le_0_l.
  - destruct e as [|pos|pos|pos|]; try assumption.
    + unfold IDP.handle_event.
      repeat match goal with
             | |- context [if ?b then _ else _] => destruct b
             end; assumption.
    + apply Nat.le_0_l.
    + destruct (double_motion_frame s pos) as (_ & _ & _ & _ & _ & _ & _ & -> & _).
      assumption.
  - unfold IDP.draw_pendulum in Hd.
    destruct (IDP.frame s <? length IDP.t_eval)%nat eqn:E.
    + destruct (getitem (IDP.x1 s) (IDP.frame s)); [|discriminate].
      destruct (getitem (IDP.y1 s) (IDP.frame s)); [|discriminate].
      destruct (getitem (IDP.x2 s) (IDP.frame s)); [|discriminate].
      destruct (getitem (IDP.y2 s) (IDP.frame s)); [|discriminate].
      simpl in Hd. injection Hd as <- _.
      apply Nat.ltb_lt in E. unfold IDP.set_frame, IDP.frame at 1. lia.
    + injection Hd as <- _. assumption.
Qed.

(** ** The session of InteractiveSimplePendulum.py *)

Section SimpleSession.
Context {solver : OdeSolver ISP.Y}.

Lemma simple_t_eval_length : length ISP.t_eval = 500%nat.
Proof. apply linspace_length. Qed.

Lemma simple_initial_in_range : in_range_simple ISP.initial_params.
Proof. unfold in_range_simple; simpl; lra. Qed.

Lemma simple_motion_frame (s : ISP.Session) (pos : Z * Z) :
  let s' := ISP.handle_event (Pygame.MOUSEMOTION pos) s in
  ISP.sol s' = ISP.sol s /\ ISP.theta s' = ISP.theta s /\
  ISP.x1 s' = ISP.x1 s /\ ISP.y1 s' = ISP.y1 s /\
  ISP.frame s' = ISP.frame s /\ ISP.dragging s' = ISP.dragging s /\
  ISP.running s' = ISP.running s /\ ISP.solve_calls s' = ISP.solve_calls s.
Proof.
  simpl. destruct (ISP.dragging s) as [d|] eqn:E.
  - repeat match goal with
           | |- context [if ?b then _ else _] => destruct b
           end; simpl; rewrite ?E; repeat split; reflexivity.
  - rewrite E. repeat split; reflexivity.
Qed.

(** What a pointer move writes.  The mass and length branches assign the
    dragged parameter; the damping branch assigns [c] and leaves [b]. *)
Lemma simple_motion_params (s : ISP.Session) (pos : Z * Z) :
  let s' := ISP.handle_event (Pygame.MOUSEMOTION pos) s in
  let v10 := Numpy.clip (IZR (fst pos - 50) / 300 * 10) (1 / 100) 10 in
  let v1 := Numpy.clip (IZR (fst pos - 50) / 300 * 1) 0 1 in
  (ISP.dragging s = Some "m"%string ->
   ISP.params s' = ISP.set_m v10 (ISP.params s) /\ ISP.c s' = ISP.c s) /\
  (ISP.dragging s = Some "l"%string ->
   ISP.params s' = ISP.set_l v10 (ISP.params s) /\ ISP.c s' = ISP.c s) /\
  (ISP.dragging s = Some "b"%string ->
   ISP.params s' = ISP.params s /\ ISP.c s' = Some v1) /\
  (ISP.dragging s = None -> ISP.params s' = ISP.params s /\ ISP.c s' = ISP.c s).
Proof.
  simpl. split; [|split; [|split]]; intros E; rewrite E; split; reflexivity.
Qed.

Lemma simple_event_in_range (e : Pygame.Event) (s : ISP.Session) :
  in_range_simple (ISP.params s) ->
  in_range_simple (ISP.params (ISP.handle_event e s)).
Proof.
  intros H. destruct e as [|pos|pos|pos|]; simpl; try assumption.
  - repeat match goal with
           | |- context [if ?b then _ else _] => destruct b
           end; assumption.
  - destruct (ISP.dragging s) as [d|]; [|assumption].
    unfold in_range_simple in *.
    repeat match goal with
           | |- context [if ?b then _ else _] => destruct b
           end; simpl; try assumption;
      repeat split; try tauto;
      match goal with
      | |- context [Numpy.clip ?a ?lo ?hi] =>
          apply (clip_bounds a lo hi); lra
      end.
Qed.

Lemma simple_event_solve_calls (e : Pygame.Event) (s : ISP.Session) :
  ISP.solve_calls (ISP.handle_event e s) = ISP.solve_calls s \/
  ISP.solve_calls (ISP.handle_event e s) = ISP.solve_calls s ++ [ISP.params s].
Proof.
  destruct e as [|pos|pos|pos|]; simpl; auto.
  - left. repeat match goal with
                 | |- context [if ?b then _ else _] => destruct b
                 end; reflexivity.
  - left. destruct (ISP.dragging s) as [d|]; [|reflexivity].
    repeat match goal with
           | |- context [if ?b then _ else _] => destruct b
           end; reflexivity.
Qed.

Lemma simple_draw_keeps (s s' : ISP.Session) f :
  ISP.draw_pendulum s = Ok (s', f) ->
  ISP.params s' = ISP.params s /\ ISP.solve_calls s' = ISP.solve_calls s /\
  ISP.x1 s' = ISP.x1 s /\ ISP.y1 s' = ISP.y1 s /\
  ISP.dragging s' = ISP.dragging s /\ ISP.running s' = ISP.running s.
Proof.
  unfold ISP.draw_pendulum.
  destruct (ISP.frame s <? length ISP.t_eval)%nat.
  - destruct (getitem (ISP.x1 s) (ISP.frame s)); [|discriminate].
    destruct (getitem (ISP.y1 s) (ISP.frame s)); [|discriminate].
    simpl. intros [= <- _]. repeat split; reflexivity.
  - intros [= <- _]. repeat split; reflexivity.
Qed.

Lemma simple_reachable_in_range (s : ISP.Session) :
  reachable_simple s ->
  in_range_simple (ISP.params s) /\ Forall in_range_simple (ISP.solve_calls s).
Proof.
  induction 1 as [|e s Hs [IHp IHc]|s s' f Hs [IHp IHc] Hd].
  - split; [apply simple_initial_in_range|].
    constructor; [apply simple_initial_in_range|constructor].
  - split; [now apply simple_event_in_range|].
    destruct (simple_event_solve_calls e s) as [-> | ->]; [assumption|].
    apply Forall_app; split; [assumption|]. now constructor.
  - apply simple_draw_keeps in Hd. destruct Hd as (-> & -> & _). now split.
Qed.

Lemma simple_draw_holds (s : ISP.Session) :
  (length ISP.t_eval <= ISP.frame s)%nat -> ISP.draw_pendulum s = Ok (s, None).
Proof.
  intros H. unfold ISP.draw_pendulum.
  apply Nat.ltb_ge in H. now rewrite H.
Qed.

Lemma simple_reachable_frame (s : ISP.Session) :
  reachable_simple s -> (ISP.frame s <= length ISP.t_eval)%nat.
Proof.
  induction 1 as [|e s Hs IH|s s' f Hs IH Hd].
  - apply Nat.le_0_l.
  - destruct e as [|pos|pos|pos|]; try assumption.
    + unfold ISP.handle_event.
      repeat match goal with
             | |- context [if ?b then _ else _] => destruct b
             end; assumption.
    + apply Nat.le_0_l.
    + destruct (simple_motion_frame s pos) as (_ & _ & _ & _ & -> & _).
      assumption.
  - unfold ISP.draw_pendulum in Hd.
    destruct (ISP.frame s <? length ISP.t_eval)%nat eqn:E.
    + destruct (getitem (ISP.x1 s) (ISP.frame s)); [|discriminate].
      destruct (getitem (ISP.y1 s) (ISP.frame s)); [|discriminate].
      simpl in Hd. injection Hd as <- _.
      apply Nat.ltb_lt in E. unfold ISP.set_frame, ISP.frame at 1. lia.
    + injection Hd as <- _. assumption.
Qed.

Hypothesis samples : solve_ivp_samples solver.

Lemma simple_update_complete (s : ISP.Session) :
  arrays_complete_simple (ISP.update_simulation s).
Proof.
  unfold arrays_complete_simple, ISP.update_simulation;
    cbn [ISP.x1 ISP.y1].
  rewrite !length_map, samples. split; reflexivity.
Qed.

Lemma simple_initial_complete : arrays_complete_simple ISP.initial.
Proof.
  unfold arrays_complete_simple, ISP.initial; cbn [ISP.x1 ISP.y1].
  rewrite !length_map, samples. split; reflexivity.
Qed.

Lemma simple_event_complete (e : Pygame.Event) (s : ISP.Session) :
  arrays_complete_simple s -> arrays_complete_simple (ISP.handle_event e s).
Proof.
  intros H. destruct e as [|pos|pos|pos|]; try assumption.
  - simpl. repeat match goal with
                  | |- context [if ?b then _ else _] => destruct b
                  end; assumption.
  - apply simple_update_complete.
  - unfold arrays_complete_simple.
    destruct (simple_motion_frame s pos) as (_ & _ & -> & -> & _).
    assumption.
Qed.

Lemma simple_reachable_complete (s : ISP.Session) :
  reachable_simple s -> arrays_complete_simple s.
Proof.
  induction 1 as [|e s Hs IH|s s' f Hs IH Hd].
  - apply simple_initial_complete.
  - now apply simple_event_complete.
  - apply simple_draw_keeps in Hd.
    destruct Hd as (_ & _ & E1 & E2 & _).
    unfold arrays_complete_simple. now rewrite E1, E2.
Qed.

Lemma simple_draw_advances (s : ISP.Session) :
  arrays_complete_simple s ->
  (ISP.frame s < length ISP.t_eval)%nat ->
  exists a b,
    ISP.draw_pendulum s = Ok (ISP.set_frame (ISP.frame s + 1) s, Some (a, b)) /\
    nth_error (ISP.x1 s) (ISP.frame s) = Some a /\
    nth_error (ISP.y1 s) (ISP.frame s) = Some b.
Proof.
  intros (H1 & H2) Hlt.
  destruct (getitem_lt (ISP.x1 s) (ISP.frame s)) as (a & Ga & Na); [lia|].
  destruct (getitem_lt (ISP.y1 s) (ISP.frame s)) as (b & Gb & Nb); [lia|].
  exists a, b. unfold ISP.draw_pendulum.
  apply Nat.ltb_lt in Hlt. rewrite Hlt, Ga, Gb. simpl. auto.
Qed.

End SimpleSession.

(** ** Parameter edits (C3, C4) *)

Lemma double_down_on_l1 {solver : OdeSolver IDP.Y} (s : IDP.Session) (pos : Z * Z) :
  Pygame.collidepoint IDP.slider_m1 pos = false ->
  Pygame.collidepoint IDP.slider_l1 pos = true ->
  IDP.handle_event (Pygame.MOUSEBUTTONDOWN pos) s
  = IDP.set_dragging (Some "l1"%string) s.
Proof. intros H1 H2. unfold IDP.handle_event. now rewrite H1, H2. Qed.

Lemma double_drag_l1 {solver : OdeSolver IDP.Y} (s : IDP.Session) (pos : Z * Z) :
  IDP.dragging s = Some "l1"%string ->
  IDP.l1 (IDP.params (IDP.handle_event (Pygame.MOUSEMOTION pos) s))
  = Numpy.clip (IZR (fst pos - 50) / 300 * 5) (1 / 100) 10.
Proof.
  intros E.
  destruct (double_motion_params s pos) as (_ & H & _).
  cbv zeta in H. now rewrite (H E).
Qed.

(** C3, as stated, fails.  Pressing on the length-1 slider at its left edge
    and moving there asks for l1 = (50 − 50) / 300 · 5 = 0; the edit is not
    rejected and the prior value 1 is not kept: l1 becomes 0.01. *)
Lemma C3_zero_length_not_rejected :
  let s0 := @IDP.handle_event Euler.solver4
              (Pygame.MOUSEBUTTONDOWN (50, 700)%Z) (@IDP.initial Euler.solver4) in
  let s1 := @IDP.handle_event Euler.solver4
              (Pygame.MOUSEMOTION (50, 700)%Z) s0 in
  IDP.dragging s0 = Some "l1"%string /\
  IDP.l1 (IDP.params s0) = 1 /\
  IZR (50 - 50) / 300 * 5 = 0 /\
  IDP.l1 (IDP.params s1) = 1 / 100 /\
  IDP.l1 (IDP.params s1) <> IDP.l1 (IDP.params s0).
Proof.
  cbv zeta.
  set (init := @IDP.initial Euler.solver4).
  rewrite (@double_down_on_l1 Euler.solver4 init (50, 700)%Z eq_refl eq_refl).
  assert (E : IDP.dragging (IDP.set_dragging (Some "l1"%string) init)
              = Some "l1"%string) by reflexivity.
  rewrite (@double_drag_l1 Euler.solver4 _ (50, 700)%Z E).
  assert (V : Numpy.clip (IZR (fst (50, 700)%Z - 50) / 300 * 5) (1 / 100) 10 = 1 / 100).
  { apply clip_below; simpl; lra. }
  rewrite V.
  assert (P : IDP.l1 (IDP.params (IDP.set_dragging (Some "l1"%string) init)) = 1)
    by reflexivity.
  rewrite P. repeat split; try reflexivity; simpl; lra.
Qed.

(** C3, amended.  Nothing rejects an edit and no function fails with
    InvalidParameter.  A move on the length-1 slider writes the mapped value
    clamped to [0.01, 10], so a request at or below 0.01 (such as 0) replaces
    l1 by 0.01.  Because every slider clamps, the parameters of a reachable
    session are inside the clamp ranges, and every parameter set a solve of
    the session has read had masses and lengths of at least 0.01. *)
Theorem C3_edits_are_clamped {solver : OdeSolver IDP.Y}
    (s : IDP.Session) (pos : Z * Z) :
  reachable_double s ->
  IDP.dragging s = Some "l1"%string ->
  let s' := IDP.handle_event (Pygame.MOUSEMOTION pos) s in
  IDP.l1 (IDP.params s')
  = Numpy.clip (IZR (fst pos - 50) / 300 * 5) (1 / 100) 10 /\
  (IZR (fst pos - 50) / 300 * 5 <= 1 / 100 -> IDP.l1 (IDP.params s') = 1 / 100) /\
  in_range_double (IDP.params s') /\
  Forall (fun p => 1 / 100 <= IDP.m1 p /\ 1 / 100 <= IDP.m2 p /\
                   1 / 100 <= IDP.l1 p /\ 1 / 100 <= IDP.l2 p)
         (IDP.solve_calls s').
Proof.
  intros Hr E s'.
  assert (Hr' : reachable_double s') by (now apply reach_double_event).
  destruct (double_reachable_in_range s' Hr') as [Hp Hc].
  split; [now apply double_drag_l1|].
  split.
  - intros Hlow. unfold s'. rewrite (double_drag_l1 s pos E).
    apply clip_below; lra.
  - split; [assumption|].
    eapply Forall_impl; [|exact Hc].
    intros p (H1 & H2 & H3 & H4 & _). lra.
Qed.

Lemma C3_edits_are_clamped_witness :
  let s := @IDP.handle_event Euler.solver4
             (Pygame.MOUSEBUTTONDOWN (50, 700)%Z) (@IDP.initial Euler.solver4) in
  let s' := @IDP.handle_event Euler.solver4 (Pygame.MOUSEMOTION (50, 700)%Z) s in
  IDP.l1 (IDP.params s')
  = Numpy.clip (IZR (fst (50, 700)%Z - 50) / 300 * 5) (1 / 100) 10 /\
  (IZR (fst (50, 700)%Z - 50) / 300 * 5 <= 1 / 100 ->
   IDP.l1 (IDP.params s') = 1 / 100) /\
  in_range_double (IDP.params s') /\
  Forall (fun p => 1 / 100 <= IDP.m1 p /\ 1 / 100 <= IDP.m2 p /\
                   1 / 100 <= IDP.l1 p /\ 1 / 100 <= IDP.l2 p)
         (IDP.solve_calls s').
Proof.
  apply (@C3_edits_are_clamped Euler.solver4
           (@IDP.handle_event Euler.solver4
              (Pygame.MOUSEBUTTONDOWN (50, 700)%Z) (@IDP.initial Euler.solver4))
           (50, 700)%Z).
  - apply reach_double_event, reach_double_initial.
  - reflexivity.
Defined.

(** C4 fails in InteractiveSimplePendulum.py.  While the damping slider is
    dragged (the slider that displays [b], the coefficient [SimplePemdulum]
    reads), a pointer move leaves [b] and every other parameter as they were
    and binds the clamped value to the name [c], which nothing reads. *)
Theorem C4_damping_drag_leaves_b {solver : OdeSolver ISP.Y}
    (s : ISP.Session) (pos : Z * Z) :
  ISP.dragging s = Some "b"%string ->
  let s' := ISP.handle_event (Pygame.MOUSEMOTION pos) s in
  ISP.params s' = ISP.params s /\
  ISP.b (ISP.params s') = ISP.b (ISP.params s) /\
  ISP.c s' = Some (Numpy.clip (IZR (fst pos - 50) / 300 * 1) 0 1) /\
  ISP.frame s' = ISP.frame s /\
  ISP.x1 s' = ISP.x1 s /\ ISP.y1 s' = ISP.y1 s.
Proof.
  intros E s'.
  destruct (simple_motion_params s pos) as (_ & _ & H & _).
  destruct (H E) as [Hp Hc].
  destruct (simple_motion_frame s pos) as (_ & _ & Hx & Hy & Hf & _).
  unfold s'. rewrite Hp. repeat split; assumption.
Qed.

Lemma C4_damping_drag_leaves_b_witness :
  let s := ISP.set_dragging (Some "b"%string) (@ISP.initial Euler.solver2) in
  let s' := @ISP.handle_event Euler.solver2 (Pygame.MOUSEMOTION (200, 750)%Z) s in
  ISP.params s' = ISP.params s /\
  ISP.b (ISP.params s') = ISP.b (ISP.params s) /\
  ISP.c s' = Some (Numpy.clip (IZR (fst (200, 750)%Z - 50) / 300 * 1) 0 1) /\
  ISP.frame s' = ISP.frame s /\
  ISP.x1 s' = ISP.x1 s /\ ISP.y1 s' = ISP.y1 s.
Proof.
  apply (@C4_damping_drag_leaves_b Euler.solver2
           (ISP.set_dragging (Some "b"%string) (@ISP.initial Euler.solver2))
           (200, 750)%Z).
  reflexivity.
Defined.

(** At the failing input of C4 the clamped mapped value is 0.5 and [b] is 0. *)
Lemma simple_damping_drag_values :
  Numpy.clip (IZR (fst (200, 750)%Z - 50) / 300 * 1) 0 1 = 1 / 2 /\
  ISP.b (ISP.params (ISP.set_dragging (Some "b"%string) (@ISP.initial Euler.solver2))) = 0.
Proof.
  split; [|reflexivity].
  rewrite clip_inside; simpl; lra.
Qed.

(** ** Playback (C5) *)

Lemma double_idle_passes {solver : OdeSolver IDP.Y} (k : nat) :
  forall s : IDP.Session,
    arrays_complete_double s ->
    (IDP.frame s <= length IDP.t_eval)%nat ->
    IDP.running s = true ->
    exists r,
      IDP.main_loop (repeat [] k) s = Ok r /\
      IDP.frame (fst r) = Nat.min (IDP.frame s + k) (length IDP.t_eval) /\
      length (snd r) = k.
Proof.
  induction k as [|k IH]; intros s Hc Hf Hr.
  - exists (s, []). simpl. repeat split; try reflexivity.
    rewrite Nat.add_0_r. symmetry. now apply Nat.min_l.
  - cbn [repeat IDP.main_loop]. rewrite Hr.
    unfold IDP.loop_body, IDP.handle_events. cbn [fold_left].
    destruct (Nat.lt_ge_cases (IDP.frame s) (length IDP.t_eval)) as [Hlt|Hge].
    + destruct (double_draw_advances s Hc Hlt) as (a & b & c & d & Hd & _).
      rewrite Hd. cbn [bind fst snd].
      destruct (IH (IDP.set_frame (IDP.frame s + 1) s)) as (r & Hm & Hfr & Hl).
      * exact Hc.
      * unfold IDP.set_frame, IDP.frame at 1. lia.
      * exact Hr.
      * rewrite Hm. cbn [bind]. eexists. split; [reflexivity|].
        cbn [fst snd length]. rewrite Hfr, Hl.
        unfold IDP.set_frame, IDP.frame at 1. split; [|reflexivity].
        f_equal. lia.
    + rewrite (double_draw_holds s Hge). cbn [bind fst snd].
      destruct (IH s Hc Hf Hr) as (r & Hm & Hfr & Hl).
      rewrite Hm. cbn [bind]. eexists. split; [reflexivity|].
      cbn [fst snd length]. rewrite Hfr, Hl. split; [|reflexivity].
      rewrite !Nat.min_r by lia. reflexivity.
Qed.

Lemma simple_idle_passes {solver : OdeSolver ISP.Y} (k : nat) :
  forall s : ISP.Session,
    arrays_complete_simple s ->
    (ISP.frame s <= length ISP.t_eval)%nat ->
    ISP.running s = true ->
    exists r,
      ISP.main_loop (repeat [] k) s = Ok r /\
      ISP.frame (fst r) = Nat.min (ISP.frame s + k) (length ISP.t_eval) /\
      length (snd r) = k.
Proof.
  induction k as [|k IH]; intros s Hc Hf Hr.
  - exists (s, []). simpl. repeat split; try reflexivity.
    rewrite Nat.add_0_r. symmetry. now apply Nat.min_l.
  - cbn [repeat ISP.main_loop]. rewrite Hr.
    unfold ISP.loop_body, ISP.handle_events. cbn [fold_left].
    destruct (Nat.lt_ge_cases (ISP.frame s) (length ISP.t_eval)) as [Hlt|Hge].
    + destruct (simple_draw_advances s Hc Hlt) as (a & b & Hd & _).
      rewrite Hd. cbn [bind fst snd].
      destruct (IH (ISP.set_frame (ISP.frame s + 1) s)) as (r & Hm & Hfr & Hl).
      * exact Hc.
      * unfold ISP.set_frame, ISP.frame at 1. lia.
      * exact Hr.
      * rewrite Hm. cbn [bind]. eexists. split; [reflexivity|].
        cbn [fst snd length]. rewrite Hfr, Hl.
        unfold ISP.set_frame, ISP.frame at 1. split; [|reflexivity].
        f_equal. lia.
    + rewrite (simple_draw_holds s Hge). cbn [bind fst snd].
      destruct (IH s Hc Hf Hr) as (r & Hm & Hfr & Hl).
      rewrite Hm. cbn [bind]. eexists. split; [reflexivity|].
      cbn [fst snd length]. rewrite Hfr, Hl. split; [|reflexivity].
      rewrite !Nat.min_r by lia. reflexivity.
Qed.

Lemma double_down_on_m1 {solver : OdeSolver IDP.Y} (s : IDP.Session) (pos : Z * Z) :
  Pygame.collidepoint IDP.slider_m1 pos = true ->
  IDP.handle_event (Pygame.MOUSEBUTTONDOWN pos) s
  = IDP.set_dragging (Some "m1"%string) s.
Proof. intros H. unfold IDP.handle_event. now rewrite H. Qed.

(** C5, as stated, fails.  After a press on the mass-1 slider the session is
    dragging, and the next pass still draws frame 0 and moves the index to 1.
    At the last frame, index 999 of 1000, a pass moves the index to 1000, the
    length of the trajectory, and from then on a pass draws nothing. *)
Lemma C5_index_not_frozen_nor_held :
  let s := @IDP.handle_event Euler.solver4
             (Pygame.MOUSEBUTTONDOWN (50, 650)%Z) (@IDP.initial Euler.solver4) in
  let last := IDP.set_frame 999 (@IDP.initial Euler.solver4) in
  (IDP.dragging s = Some "m1"%string /\ IDP.frame s = 0%nat /\
   exists s' f, IDP.draw_pendulum s = Ok (s', Some f) /\ IDP.frame s' = 1%nat) /\
  (length IDP.t_eval = 1000%nat /\
   exists s' f, IDP.draw_pendulum last = Ok (s', Some f) /\
                IDP.frame s' = 1000%nat /\
                IDP.draw_pendulum s' = Ok (s', None)).
Proof.
  cbv zeta. set (init := @IDP.initial Euler.solver4).
  pose proof (double_initial_complete euler_solver4_samples) as Hc.
  fold init in Hc.
  split.
  - rewrite (@double_down_on_m1 Euler.solver4 init (50, 650)%Z eq_refl).
    split; [reflexivity|]. split; [reflexivity|].
    destruct (double_draw_advances (IDP.set_dragging (Some "m1"%string) init))
      as (a & b & c & d & Hd & _).
    + exact Hc.
    + rewrite double_t_eval_length.
      change (IDP.frame (IDP.set_dragging (Some "m1"%string) init)) with 0%nat. lia.
    + eexists; eexists; split; [exact Hd|reflexivity].
  - split; [apply double_t_eval_length|].
    destruct (double_draw_advances (IDP.set_frame 999 init))
      as (a & b & c & d & Hd & _).
    + exact Hc.
    + rewrite double_t_eval_length.
      change (IDP.frame (IDP.set_frame 999 init)) with 999%nat. lia.
    + eexists; eexists; split; [exact Hd|]. split; [reflexivity|].
      apply double_draw_holds. rewrite double_t_eval_length.
      change (1000 <= 999 + 1)%nat. lia.
Qed.

Lemma double_event_frame {solver : OdeSolver IDP.Y}
    (e : Pygame.Event) (s : IDP.Session) :
  IDP.frame (IDP.handle_event e s)
  = if Pygame.is_MOUSEBUTTONUP e then 0%nat else IDP.frame s.
Proof.
  destruct e as [|pos|pos|pos|]; cbn [Pygame.is_MOUSEBUTTONUP]; try reflexivity.
  - unfold IDP.handle_event.
    repeat match goal with
           | |- context [if ?b then _ else _] => destruct b
           end; reflexivity.
  - now destruct (double_motion_frame s pos) as (_ & _ & _ & _ & _ & _ & _ & -> & _).
Qed.

Lemma double_events_frame {solver : OdeSolver IDP.Y}
    (events : list Pygame.Event) :
  forall s : IDP.Session,
    IDP.frame (IDP.handle_events events s)
    = if existsb Pygame.is_MOUSEBUTTONUP events then 0%nat else IDP.frame s.
Proof.
  unfold IDP.handle_events.
  induction events as [|e rest IH]; intros s; cbn [fold_left existsb];
    [reflexivity|].
  rewrite IH, double_event_frame.
  destruct (Pygame.is_MOUSEBUTTONUP e), (existsb Pygame.is_MOUSEBUTTONUP rest);
    reflexivity.
Qed.

Lemma double_events_keep_running {solver : OdeSolver IDP.Y}
    (events : list Pygame.Event) :
  forall s : IDP.Session,
    ~ In Pygame.QUIT events ->
    IDP.running (IDP.handle_events events s) = IDP.running s.
Proof.
  unfold IDP.handle_events.
  induction events as [|e rest IH]; intros s Hq; cbn [fold_left]; [reflexivity|].
  rewrite IH by (intros H; apply Hq; now right).
  destruct e as [|pos|pos|pos|]; try reflexivity.
  - exfalso. apply Hq. now left.
  - unfold IDP.handle_event.
    repeat match goal with
           | |- context [if ?b then _ else _] => destruct b
           end; reflexivity.
  - now destruct (double_motion_frame s pos) as (_ & _ & _ & _ & _ & _ & _ & _ & _ & -> & _).
Qed.

Lemma double_events_reachable {solver : OdeSolver IDP.Y}
    (events : list Pygame.Event) :
  forall s : IDP.Session,
    reachable_double s -> reachable_double (IDP.handle_events events s).
Proof.
  unfold IDP.handle_events.
  induction events as [|e rest IH]; intros s Hr; cbn [fold_left]; [assumption|].
  apply IH. now apply reach_double_event.
Qed.

(** Any number of passes whose batches hold no release: the passes run
    advance the index one by one up to the length of [t_eval]. *)
Lemma double_passes_without_release {solver : OdeSolver IDP.Y}
    (batches : list (list Pygame.Event)) :
  solve_ivp_samples solver ->
  Forall (fun events => existsb Pygame.is_MOUSEBUTTONUP events = false) batches ->
  forall s : IDP.Session,
    reachable_double s ->
    exists r,
      IDP.main_loop batches s = Ok r /\
      IDP.frame (fst r)
      = Nat.min (IDP.frame s + length (snd r)) (length IDP.t_eval) /\
      (IDP.running s = true ->
       Forall (fun events => ~ In Pygame.QUIT events) batches ->
       length (snd r) = length batches).
Proof.
  intros Hs Hno.
  induction Hno as [|events rest Hev Hrest IH]; intros s Hr;
    cbn [IDP.main_loop].
  - exists (s, []). split; [reflexivity|]. cbn [fst snd length].
    pose proof (double_reachable_frame s Hr). split; [lia|reflexivity].
  - pose proof (double_reachable_frame s Hr) as Hf.
    destruct (IDP.running s) eqn:Hrun.
    + set (after := IDP.handle_events events s).
      assert (Ra : reachable_double after) by (now apply double_events_reachable).
      assert (Fa : IDP.frame after = IDP.frame s).
      { unfold after. rewrite double_events_frame, Hev. reflexivity. }
      pose proof (double_reachable_complete Hs after Ra) as Ca.
      unfold IDP.loop_body. fold after.
      destruct (Nat.lt_ge_cases (IDP.frame after) (length IDP.t_eval))
        as [Hlt|Hge].
      * destruct (double_draw_advances after Ca Hlt) as (a & b & c & d & Hd & _).
        rewrite Hd. cbn [bind fst snd].
        assert (R1 : reachable_double (IDP.set_frame (IDP.frame after + 1) after))
          by (eapply reach_double_draw; [exact Ra|exact Hd]).
        destruct (IH _ R1) as (r & Hm & Hfr & Hlen).
        rewrite Hm. cbn [bind]. eexists. split; [reflexivity|].
        cbn [fst snd length]. rewrite Hfr.
        change (IDP.frame (IDP.set_frame (IDP.frame after + 1) after))
          with (IDP.frame after + 1)%nat.
        rewrite Fa.
        split; [lia|].
        intros _ Hq. f_equal. apply Hlen; [|now inversion Hq].
        change (IDP.running after = true). unfold after.
        rewrite double_events_keep_running by (now inversion Hq). exact Hrun.
      * rewrite (double_draw_holds after Hge). cbn [bind fst snd].
        destruct (IH _ Ra) as (r & Hm & Hfr & Hlen).
        rewrite Hm. cbn [bind]. eexists. split; [reflexivity|].
        cbn [fst snd length]. rewrite Hfr, Fa.
        split; [lia|].
        intros _ Hq. f_equal. apply Hlen; [|now inversion Hq].
        unfold after.
        rewrite double_events_keep_running by (now inversion Hq). exact Hrun.
    + exists (s, []). split; [reflexivity|]. cbn [fst snd length].
      split; [lia|discriminate].
Qed.

Lemma simple_event_frame {solver : OdeSolver ISP.Y}
    (e : Pygame.Event) (s : ISP.Session) :
  ISP.frame (ISP.handle_event e s)
  = if Pygame.is_MOUSEBUTTONUP e then 0%nat else ISP.frame s.
Proof.
  destruct e as [|pos|pos|pos|]; cbn [Pygame.is_MOUSEBUTTONUP]; try reflexivity.
  - unfold ISP.handle_event.
    repeat match goal with
           | |- context [if ?b then _ else _] => destruct b
           end; reflexivity.
  - now destruct (simple_motion_frame s pos) as (_ & _ & _ & _ & -> & _).
Qed.

Lemma simple_events_frame {solver : OdeSolver ISP.Y}
    (events : list Pygame.Event) :
  forall s : ISP.Session,
    ISP.frame (ISP.handle_events events s)
    = if existsb Pygame.is_MOUSEBUTTONUP events then 0%nat else ISP.frame s.
Proof.
  unfold ISP.handle_events.
  induction events as [|e rest IH]; intros s; cbn [fold_left existsb];
    [reflexivity|].
  rewrite IH, simple_event_frame.
  destruct (Pygame.is_MOUSEBUTTONUP e), (existsb Pygame.is_MOUSEBUTTONUP rest);
    reflexivity.
Qed.

Lemma simple_events_keep_running {solver : OdeSolver ISP.Y}
    (events : list Pygame.Event) :
  forall s : ISP.Session,
    ~ In Pygame.QUIT events ->
    ISP.running (ISP.handle_events events s) = ISP.running s.
Proof.
  unfold ISP.handle_events.
  induction events as [|e rest IH]; intros s Hq; cbn [fold_left]; [reflexivity|].
  rewrite IH by (intros H; apply Hq; now right).
  destruct e as [|pos|pos|pos|]; try reflexivity.
  - exfalso. apply Hq. now left.
  - unfold ISP.handle_event.
    repeat match goal with
           | |- context [if ?b then _ else _] => destruct b
           end; reflexivity.
  - now destruct (simple_motion_frame s pos) as (_ & _ & _ & _ & _ & _ & -> & _).
Qed.

Lemma simple_events_reachable {solver : OdeSolver ISP.Y}
    (events : list Pygame.Event) :
  forall s : ISP.Session,
    reachable_simple s -> reachable_simple (ISP.handle_events events s).
Proof.
  unfold ISP.handle_events.
  induction events as [|e rest IH]; intros s Hr; cbn [fold_left]; [assumption|].
  apply IH. now apply reach_simple_event.
Qed.

(** Any number of passes whose batches hold no release: the passes run
    advance the index one by one up to the length of [t_eval]. *)
Lemma simple_passes_without_release {solver : OdeSolver ISP.Y}
    (batches : list (list Pygame.Event)) :
  solve_ivp_samples solver ->
  Forall (fun events => existsb Pygame.is_MOUSEBUTTONUP events = false) batches ->
  forall s : ISP.Session,
    reachable_simple s ->
    exists r,
      ISP.main_loop batches s = Ok r /\
      ISP.frame (fst r)
      = Nat.min (ISP.frame s + length (snd r)) (length ISP.t_eval) /\
      (ISP.running s = true ->
       Forall (fun events => ~ In Pygame.QUIT events) batches ->
       length (snd r) = length batches).
Proof.
  intros Hs Hno.
  induction Hno as [|events rest Hev Hrest IH]; intros s Hr;
    cbn [ISP.main_loop].
  - exists (s, []). split; [reflexivity|]. cbn [fst snd length].
    pose proof (simple_reachable_frame s Hr). split; [lia|reflexivity].
  - pose proof (simple_reachable_frame s Hr) as Hf.
    destruct (ISP.running s) eqn:Hrun.
    + set (after := ISP.handle_events events s).
      assert (Ra : reachable_simple after) by (now apply simple_events_reachable).
      assert (Fa : ISP.frame after = ISP.frame s).
      { unfold after. rewrite simple_events_frame, Hev. reflexivity. }
      pose proof (simple_reachable_complete Hs after Ra) as Ca.
      unfold ISP.loop_body. fold after.
      destruct (Nat.lt_ge_cases (ISP.frame after) (length ISP.t_eval))
        as [Hlt|Hge].
      * destruct (simple_draw_advances after Ca Hlt) as (a & b & Hd & _).
        rewrite Hd. cbn [bind fst snd].
        assert (R1 : reachable_simple (ISP.set_frame (ISP.frame after + 1) after))
          by (eapply reach_simple_draw; [exact Ra|exact Hd]).
        destruct (IH _ R1) as (r & Hm & Hfr & Hlen).
        rewrite Hm. cbn [bind]. eexists. split; [reflexivity|].
        cbn [fst snd length]. rewrite Hfr.
        change (ISP.frame (ISP.set_frame (ISP.frame after + 1) after))
          with (ISP.frame after + 1)%nat.
        rewrite Fa.
        split; [lia|].
        intros _ Hq. f_equal. apply Hlen; [|now inversion Hq].
        change (ISP.running after = true). unfold after.
        rewrite simple_events_keep_running by (now inversion Hq). exact Hrun.
      * rewrite (simple_draw_holds after Hge). cbn [bind fst snd].
        destruct (IH _ Ra) as (r & Hm & Hfr & Hlen).
        rewrite Hm. cbn [bind]. eexists. split; [reflexivity|].
        cbn [fst snd length]. rewrite Hfr, Fa.
        split; [lia|].
        intros _ Hq. f_equal. apply Hlen; [|now inversion Hq].
        unfold after.
        rewrite simple_events_keep_running by (now inversion Hq). exact Hrun.
    + exists (s, []). split; [reflexivity|]. cbn [fst snd length].
      split; [lia|discriminate].
Qed.

(** C5, amended.  Provided [solve_ivp] returns one state per evaluation
    time, in both interactive scripts every pass of the main loop, whether or
    not a slider is being dragged, first handles its batch of events, of which
    only a release touches the frame index (it sets it to 0), and then: while
    the index is below the length of [t_eval], draws the position frame at
    the index and advances the index by one; once the index equals that
    length, draws nothing and leaves the index (no looping).  So over any
    batches without a release, presses and drag moves included, the passes
    that run move the index from [i] to [min (i + passes) length], and without
    QUIT every batch is a pass. *)
Theorem C5_playback
    (solver4 : OdeSolver IDP.Y) (solver2 : OdeSolver ISP.Y)
    (sd : IDP.Session) (ss : ISP.Session) :
  solve_ivp_samples solver4 -> solve_ivp_samples solver2 ->
  reachable_double sd -> reachable_simple ss ->
  ((IDP.frame sd <= length IDP.t_eval)%nat /\
   ((IDP.frame sd < length IDP.t_eval)%nat ->
    exists a b c d,
      IDP.draw_pendulum sd
      = Ok (IDP.set_frame (IDP.frame sd + 1) sd, Some (a, b, c, d)) /\
      nth_error (IDP.x1 sd) (IDP.frame sd) = Some a /\
      nth_error (IDP.y1 sd) (IDP.frame sd) = Some b /\
      nth_error (IDP.x2 sd) (IDP.frame sd) = Some c /\
      nth_error (IDP.y2 sd) (IDP.frame sd) = Some d) /\
   (IDP.frame sd = length IDP.t_eval -> IDP.draw_pendulum sd = Ok (sd, None)) /\
   (forall k, IDP.running sd = true ->
      exists r, IDP.main_loop (repeat [] k) sd = Ok r /\
                IDP.frame (fst r)
                = Nat.min (IDP.frame sd + k) (length IDP.t_eval)) /\
   (forall events : list Pygame.Event,
      let after := IDP.handle_events events sd in
      IDP.frame after
      = (if existsb Pygame.is_MOUSEBUTTONUP events then 0%nat else IDP.frame sd) /\
      ((IDP.frame after < length IDP.t_eval)%nat ->
       exists a b c d,
         IDP.loop_body events sd
         = Ok (IDP.set_frame (IDP.frame after + 1) after, Some (a, b, c, d)) /\
      nth_error (IDP.x1 after) (IDP.frame after) = Some a /\
      nth_error (IDP.y1 after) (IDP.frame after) = Some b /\
      nth_error (IDP.x2 after) (IDP.frame after) = Some c /\
      nth_error (IDP.y2 after) (IDP.frame after) = Some d) /\
      (IDP.frame after = length IDP.t_eval ->
       IDP.loop_body events sd = Ok (after, None))) /\
   (forall batches : list (list Pygame.Event),
      Forall (fun events => existsb Pygame.is_MOUSEBUTTONUP events = false) batches ->
      exists r,
        IDP.main_loop batches sd = Ok r /\
        IDP.frame (fst r)
        = Nat.min (IDP.frame sd + length (snd r)) (length IDP.t_eval) /\
        (IDP.running sd = true ->
         Forall (fun events => ~ In Pygame.QUIT events) batches ->
         length (snd r) = length batches))) /\
  ((ISP.frame ss <= length ISP.t_eval)%nat /\
   ((ISP.frame ss < length ISP.t_eval)%nat ->
    exists a b,
      ISP.draw_pendulum ss
      = Ok (ISP.set_frame (ISP.frame ss + 1) ss, Some (a, b)) /\
      nth_error (ISP.x1 ss) (ISP.frame ss) = Some a /\
      nth_error (ISP.y1 ss) (ISP.frame ss) = Some b) /\
   (ISP.frame ss = length ISP.t_eval -> ISP.draw_pendulum ss = Ok (ss, None)) /\
   (forall k, ISP.running ss = true ->
      exists r, ISP.main_loop (repeat [] k) ss = Ok r /\
                ISP.frame (fst r)
                = Nat.min (ISP.frame ss + k) (length ISP.t_eval)) /\
   (forall events : list Pygame.Event,
      let after := ISP.handle_events events ss in
      ISP.frame after
      = (if existsb Pygame.is_MOUSEBUTTONUP events then 0%nat else ISP.frame ss) /\
      ((ISP.frame after < length ISP.t_eval)%nat ->
       exists a b,
         ISP.loop_body events ss
         = Ok (ISP.set_frame (ISP.frame after + 1) after, Some (a, b)) /\
      nth_error (ISP.x1 after) (ISP.frame after) = Some a /\
      nth_error (ISP.y1 after) (ISP.frame after) = Some b) /\
      (ISP.frame after = length ISP.t_eval ->
       ISP.loop_body events ss = Ok (after, None))) /\
   (forall batches : list (list Pygame.Event),
      Forall (fun events => existsb Pygame.is_MOUSEBUTTONUP events = false) batches ->
      exists r,
        ISP.main_loop batches ss = Ok r /\
        ISP.frame (fst r)
        = Nat.min (ISP.frame ss + length (snd r)) (length ISP.t_eval) /\
        (ISP.running ss = true ->
         Forall (fun events => ~ In Pygame.QUIT events) batches ->
         length (snd r) = length batches))).
Proof.
  intros H4 H2 Hd Hs.
  pose proof (double_reachable_complete H4 sd Hd) as Cd.
  pose proof (simple_reachable_complete H2 ss Hs) as Cs.
  pose proof (double_reachable_frame sd Hd) as Fd.
  pose proof (simple_reachable_frame ss Hs) as Fs.
  split; (split; [assumption|]).
  - split; [apply double_draw_advances; assumption|].
    split; [intros E; apply double_draw_holds; lia|].
    split; [|split].
    + intros k Hr. destruct (double_idle_passes k sd Cd Fd Hr) as (r & Hm & Hf & _).
      eauto.
    + intros events after.
      pose proof (double_events_reachable events sd Hd) as Ra. fold after in Ra.
      pose proof (double_reachable_complete H4 after Ra) as Ca.
      split; [apply double_events_frame|]. unfold IDP.loop_body. fold after.
      split; [now apply double_draw_advances|].
      intros E. apply double_draw_holds. lia.
    + intros batches Hno.
      exact (double_passes_without_release batches H4 Hno sd Hd).
  - split; [apply simple_draw_advances; assumption|].
    split; [intros E; apply simple_draw_holds; lia|].
    split; [|split].
    + intros k Hr. destruct (simple_idle_passes k ss Cs Fs Hr) as (r & Hm & Hf & _).
      eauto.
    + intros events after.
      pose proof (simple_events_reachable events ss Hs) as Ra. fold after in Ra.
      pose proof (simple_reachable_complete H2 after Ra) as Ca.
      split; [apply simple_events_frame|]. unfold ISP.loop_body. fold after.
      split; [now apply simple_draw_advances|].
      intros E. apply simple_draw_holds. lia.
    + intros batches Hno.
      exact (simple_passes_without_release batches H2 Hno ss Hs).
Qed.

Lemma C5_playback_witness :
  let sd := @IDP.handle_event Euler.solver4
              (Pygame.MOUSEBUTTONDOWN (50, 650)%Z) (@IDP.initial Euler.solver4) in
  let ss := @ISP.initial Euler.solver2 in
  ((IDP.frame sd <= length IDP.t_eval)%nat /\
   ((IDP.frame sd < length IDP.t_eval)%nat ->
    exists a b c d,
      IDP.draw_pendulum sd
      = Ok (IDP.set_frame (IDP.frame sd + 1) sd, Some (a, b, c, d)) /\
      nth_error (IDP.x1 sd) (IDP.frame sd) = Some a /\
      nth_error (IDP.y1 sd) (IDP.frame sd) = Some b /\
      nth_error (IDP.x2 sd) (IDP.frame sd) = Some c /\
      nth_error (IDP.y2 sd) (IDP.frame sd) = Some d) /\
   (IDP.frame sd = length IDP.t_eval -> IDP.draw_pendulum sd = Ok (sd, None)) /\
   (forall k, IDP.running sd = true ->
      exists r, @IDP.main_loop Euler.solver4 (repeat [] k) sd = Ok r /\
                IDP.frame (fst r)
                = Nat.min (IDP.frame sd + k) (length IDP.t_eval)) /\
   (forall events : list Pygame.Event,
      let after := @IDP.handle_events Euler.solver4 events sd in
      IDP.frame after
      = (if existsb Pygame.is_MOUSEBUTTONUP events then 0%nat else IDP.frame sd) /\
      ((IDP.frame after < length IDP.t_eval)%nat ->
       exists a b c d,
         @IDP.loop_body Euler.solver4 events sd
         = Ok (IDP.set_frame (IDP.frame after + 1) after, Some (a, b, c, d)) /\
      nth_error (IDP.x1 after) (IDP.frame after) = Some a /\
      nth_error (IDP.y1 after) (IDP.frame after) = Some b /\
      nth_error (IDP.x2 after) (IDP.frame after) = Some c /\
      nth_error (IDP.y2 after) (IDP.frame after) = Some d) /\
      (IDP.frame after = length IDP.t_eval ->
       @IDP.loop_body Euler.solver4 events sd = Ok (after, None))) /\
   (forall batches : list (list Pygame.Event),
      Forall (fun events => existsb Pygame.is_MOUSEBUTTONUP events = false) batches ->
      exists r,
        @IDP.main_loop Euler.solver4 batches sd = Ok r /\
        IDP.frame (fst r)
        = Nat.min (IDP.frame sd + length (snd r)) (length IDP.t_eval) /\
        (IDP.running sd = true ->
         Forall (fun events => ~ In Pygame.QUIT events) batches ->
         length (snd r) = length batches))) /\
  ((ISP.frame ss <= length ISP.t_eval)%nat /\
   ((ISP.frame ss < length ISP.t_eval)%nat ->
    exists a b,
      ISP.draw_pendulum ss
      = Ok (ISP.set_frame (ISP.frame ss + 1) ss, Some (a, b)) /\
      nth_error (ISP.x1 ss) (ISP.frame ss) = Some a /\
      nth_error (ISP.y1 ss) (ISP.frame ss) = Some b) /\
   (ISP.frame ss = length ISP.t_eval -> ISP.draw_pendulum ss = Ok (ss, None)) /\
   (forall k, ISP.running ss = true ->
      exists r, @ISP.main_loop Euler.solver2 (repeat [] k) ss = Ok r /\
                ISP.frame (fst r)
                = Nat.min (ISP.frame ss + k) (length ISP.t_eval)) /\
   (forall events : list Pygame.Event,
      let after := @ISP.handle_events Euler.solver2 events ss in
      ISP.frame after
      = (if existsb Pygame.is_MOUSEBUTTONUP events then 0%nat else ISP.frame ss) /\
      ((ISP.frame after < length ISP.t_eval)%nat ->
       exists a b,
         @ISP.loop_body Euler.solver2 events ss
         = Ok (ISP.set_frame (ISP.frame after + 1) after, Some (a, b)) /\
      nth_error (ISP.x1 after) (ISP.frame after) = Some a /\
      nth_error (ISP.y1 after) (ISP.frame after) = Some b) /\
      (ISP.frame after = length ISP.t_eval ->
       @ISP.loop_body Euler.solver2 events ss = Ok (after, None))) /\
   (forall batches : list (list Pygame.Event),
      Forall (fun events => existsb Pygame.is_MOUSEBUTTONUP events = false) batches ->
      exists r,
        @ISP.main_loop Euler.solver2 batches ss = Ok r /\
        ISP.frame (fst r)
        = Nat.min (ISP.frame ss + length (snd r)) (length ISP.t_eval) /\
        (ISP.running ss = true ->
         Forall (fun events => ~ In Pygame.QUIT events) batches ->
         length (snd r) = length batches))).
Proof.
  apply (C5_playback Euler.solver4 Euler.solver2).
  - exact euler_solver4_samples.
  - exact euler_solver2_samples.
  - apply reach_double_event, reach_double_initial.
  - apply reach_simple_initial.
Defined.

(** ** Re-solving on release (C6, C10) *)

Lemma double_moves_keep_calls {solver : OdeSolver IDP.Y}
    (moves : list (Z * Z)) :
  forall s : IDP.Session,
    let s' := IDP.handle_events (map Pygame.MOUSEMOTION moves) s in
    IDP.solve_calls s' = IDP.solve_calls s /\
    IDP.sol s' = IDP.sol s /\ IDP.frame s' = IDP.frame s /\
    IDP.dragging s' = IDP.dragging s.
Proof.
  induction moves as [|pos rest IH]; intros s; cbn zeta.
  - repeat split; reflexivity.
  - unfold IDP.handle_events. cbn [map fold_left].
    fold (IDP.handle_events (map Pygame.MOUSEMOTION rest)
            (IDP.handle_event (Pygame.MOUSEMOTION pos) s)).
    destruct (IH (IDP.handle_event (Pygame.MOUSEMOTION pos) s))
      as (-> & -> & -> & ->).
    destruct (double_motion_frame s pos)
      as (E1 & _ & _ & _ & _ & _ & _ & E2 & E3 & _ & E4).
    repeat split; assumption.
Qed.

Lemma double_release {solver : OdeSolver IDP.Y} (s : IDP.Session) (pos : Z * Z) :
  let s' := IDP.handle_event (Pygame.MOUSEBUTTONUP pos) s in
  IDP.solve_calls s' = IDP.solve_calls s ++ [IDP.params s] /\
  IDP.sol s'
  = solve_ivp (IDP.DoubleDampedPendulum (IDP.params s)) IDP.t_span IDP.y0 IDP.t_eval /\
  IDP.params s' = IDP.params s /\
  IDP.frame s' = 0%nat /\ IDP.dragging s' = None.
Proof. repeat split; reflexivity. Qed.

Lemma simple_release {solver : OdeSolver ISP.Y} (s : ISP.Session) (pos : Z * Z) :
  let s' := ISP.handle_event (Pygame.MOUSEBUTTONUP pos) s in
  ISP.solve_calls s' = ISP.solve_calls s ++ [ISP.params s] /\
  ISP.sol s'
  = solve_ivp (ISP.SimplePemdulum (ISP.params s)) ISP.t_span ISP.y0 ISP.t_eval /\
  ISP.params s' = ISP.params s /\
  ISP.frame s' = 0%nat /\ ISP.dragging s' = None.
Proof. repeat split; reflexivity. Qed.

(** C6.  Take a session in which a slider is being dragged, any sequence of
    pointer moves, and then the pointer-up.  The moves call the solver not at
    all; the release calls it exactly once, with the parameter values as the
    last move left them, stores that solution and sets the frame index to 0. *)
Theorem C6_release_resolves_once {solver : OdeSolver IDP.Y}
    (s : IDP.Session) (d : string) (moves : list (Z * Z)) (pos : Z * Z) :
  IDP.dragging s = Some d ->
  let released := IDP.handle_events (map Pygame.MOUSEMOTION moves) s in
  let s' := IDP.handle_event (Pygame.MOUSEBUTTONUP pos) released in
  IDP.solve_calls released = IDP.solve_calls s /\
  IDP.solve_calls s' = IDP.solve_calls s ++ [IDP.params released] /\
  IDP.sol s'
  = solve_ivp (IDP.DoubleDampedPendulum (IDP.params released))
      IDP.t_span IDP.y0 IDP.t_eval /\
  IDP.params s' = IDP.params released /\
  IDP.frame s' = 0%nat /\
  IDP.dragging s' = None.
Proof.
  intros E released s'.
  destruct (double_moves_keep_calls moves s) as (Hc & _).
  destruct (double_release released pos) as (H1 & H2 & H3 & H4 & H5).
  fold released in Hc. fold s' in H1, H2, H3, H4, H5.
  rewrite <- Hc. repeat split; assumption.
Qed.

Lemma C6_release_resolves_once_witness :
  let s := IDP.set_dragging (Some "m1"%string) (@IDP.initial Euler.solver4) in
  let released :=
    @IDP.handle_events Euler.solver4
      (map Pygame.MOUSEMOTION [(200, 650)%Z; (350, 650)%Z]) s in
  let s' := @IDP.handle_event Euler.solver4
              (Pygame.MOUSEBUTTONUP (350, 650)%Z) released in
  IDP.solve_calls released = IDP.solve_calls s /\
  IDP.solve_calls s' = IDP.solve_calls s ++ [IDP.params released] /\
  IDP.sol s'
  = @solve_ivp _ Euler.solver4 (IDP.DoubleDampedPendulum (IDP.params released))
      IDP.t_span IDP.y0 IDP.t_eval /\
  IDP.params s' = IDP.params released /\
  IDP.frame s' = 0%nat /\
  IDP.dragging s' = None.
Proof.
  apply (@C6_release_resolves_once Euler.solver4
           (IDP.set_dragging (Some "m1"%string) (@IDP.initial Euler.solver4))
           "m1"%string [(200, 650)%Z; (350, 650)%Z] (350, 650)%Z).
  reflexivity.
Defined.

(** C10.  In both interactive scripts the handler of a mouse-button-up does
    not look at [dragging]: from every session, dragging or not, it calls the
    solver once with the current parameters, stores the solution, sets the
    frame index to 0 and clears [dragging]. *)
Theorem C10_every_release_resolves :
  (forall (solver : OdeSolver IDP.Y) (s : IDP.Session) (pos : Z * Z),
      let s' := IDP.handle_event (Pygame.MOUSEBUTTONUP pos) s in
      IDP.solve_calls s' = IDP.solve_calls s ++ [IDP.params s] /\
      IDP.sol s'
      = solve_ivp (IDP.DoubleDampedPendulum (IDP.params s))
          IDP.t_span IDP.y0 IDP.t_eval /\
      IDP.frame s' = 0%nat /\ IDP.dragging s' = None) /\
  (forall (solver : OdeSolver ISP.Y) (s : ISP.Session) (pos : Z * Z),
      let s' := ISP.handle_event (Pygame.MOUSEBUTTONUP pos) s in
      ISP.solve_calls s' = ISP.solve_calls s ++ [ISP.params s] /\
      ISP.sol s'
      = solve_ivp (ISP.SimplePemdulum (ISP.params s))
          ISP.t_span ISP.y0 ISP.t_eval /\
      ISP.frame s' = 0%nat /\ ISP.dragging s' = None) /\
  (forall solver : OdeSolver IDP.Y,
      IDP.dragging (@IDP.initial solver) = None /\
      IDP.solve_calls
        (IDP.handle_event (Pygame.MOUSEBUTTONUP (400, 400)%Z) (@IDP.initial solver))
      = [IDP.initial_params; IDP.initial_params]).
Proof.
  split; [|split].
  - intros solver s pos.
    destruct (double_release s pos) as (H1 & H2 & _ & H4 & H5). now repeat split.
  - intros solver s pos.
    destruct (simple_release s pos) as (H1 & H2 & _ & H4 & H5). now repeat split.
  - intros solver. split; reflexivity.
Qed.

(** ** Angles and [atan2] *)

Lemma sin_period_Z (x : R) (k : Z) : sin (x + 2 * IZR k * PI) = sin x.
Proof.
  destruct (Z_le_gt_dec 0 k) as [Hk|Hk].
  - rewrite <- (Z2Nat.id k Hk), <- INR_IZR_INZ. apply sin_period.
  - rewrite <- (sin_period (x + 2 * IZR k * PI) (Z.to_nat (- k))).
    f_equal. rewrite INR_IZR_INZ, Z2Nat.id by lia.
    rewrite opp_IZR. ring.
Qed.

Lemma cos_period_Z (x : R) (k : Z) : cos (x + 2 * IZR k * PI) = cos x.
Proof.
  destruct (Z_le_gt_dec 0 k) as [Hk|Hk].
  - rewrite <- (Z2Nat.id k Hk), <- INR_IZR_INZ. apply cos_period.
  - rewrite <- (cos_period (x + 2 * IZR k * PI) (Z.to_nat (- k))).
    f_equal. rewrite INR_IZR_INZ, Z2Nat.id by lia.
    rewrite opp_IZR. ring.
Qed.

(** Every angle has a representative in (-PI, PI]. *)
Lemma angle_reduce (theta : R) :
  exists k : Z, - PI < theta + 2 * IZR k * PI <= PI.
Proof.
  pose proof PI_RGT_0 as Hpi.
  set (r := (- theta - PI) / (2 * PI)).
  destruct (archimed r) as [H1 H2].
  exists (up r).
  assert (Hr : r * (2 * PI) = - theta - PI) by (unfold r; field; lra).
  split; nra.
Qed.

Lemma cos_pos_range (phi : R) :
  - PI < phi <= PI -> 0 < cos phi -> - (PI / 2) < phi < PI / 2.
Proof.
  intros [Hlo Hhi] Hc. pose proof PI_RGT_0 as Hpi.
  split.
  - destruct (Rlt_le_dec (- (PI / 2)) phi) as [?|Hle]; [assumption|].
    exfalso. assert (cos (- phi) <= 0) by (apply cos_le_0; lra).
    rewrite cos_neg in *. lra.
  - destruct (Rlt_le_dec phi (PI / 2)) as [?|Hle]; [assumption|].
    exfalso. assert (cos phi <= 0) by (apply cos_le_0; lra). lra.
Qed.

Lemma cos_neg_range (phi : R) :
  - PI < phi <= PI -> cos phi < 0 -> phi < - (PI / 2) \/ PI / 2 < phi.
Proof.
  intros [Hlo Hhi] Hc.
  destruct (Rlt_le_dec phi (- (PI / 2))) as [?|H1]; [now left|].
  destruct (Rlt_le_dec (PI / 2) phi) as [?|H2]; [now right|].
  exfalso. assert (0 <= cos phi) by (apply cos_ge_0; lra). lra.
Qed.

Lemma cos_zero_range (phi : R) :
  - PI < phi <= PI -> cos phi = 0 -> phi = - (PI / 2) \/ phi = PI / 2.
Proof.
  intros [Hlo Hhi] Hc. pose proof PI_RGT_0 as Hpi.
  destruct (Rtotal_order phi (- (PI / 2))) as [H|[H|H]]; [|now left|].
  - exfalso. assert (cos (- phi) < 0) by (apply cos_lt_0; lra).
    rewrite cos_neg in *. lra.
  - destruct (Rtotal_order phi (PI / 2)) as [H'|[H'|H']]; [|now right|].
    + exfalso. assert (0 < cos phi) by (apply cos_gt_0; lra). lra.
    + exfalso. assert (cos phi < 0) by (apply cos_lt_0; lra). lra.
Qed.

Lemma polar_quotient (r phi : R) :
  0 < r -> cos phi <> 0 -> r * sin phi / (r * cos phi) = tan phi.
Proof. intros Hr Hc. unfold tan. field. split; lra. Qed.

(** [atan2] inverts the polar map on its principal range. *)
Lemma atan2_polar (r phi : R) :
  0 < r -> - PI < phi <= PI ->
  Numpy.atan2 (r * sin phi) (r * cos phi) = phi.
Proof.
  intros Hr Hphi. pose proof PI_RGT_0 as Hpi. unfold Numpy.atan2.
  destruct (Rlt_dec 0 (r * cos phi)) as [Hx|Hx].
  - assert (Hc : 0 < cos phi) by nra.
    rewrite polar_quotient by lra.
    apply atan_tan. now apply cos_pos_range.
  - destruct (Rlt_dec (r * cos phi) 0) as [Hx'|Hx'].
    + assert (Hc : cos phi < 0) by nra.
      rewrite polar_quotient by lra.
      destruct (cos_neg_range phi Hphi Hc) as [Hlow|Hhigh].
      * assert (Hs : sin phi < 0).
        { assert (0 < sin (- phi)) by (apply sin_gt_0; lra).
          rewrite sin_neg in *. lra. }
        destruct (Rle_dec 0 (r * sin phi)) as [Hy|Hy]; [nra|].
        replace (tan phi) with (tan (phi + PI)).
        -- rewrite atan_tan by lra. ring.
        -- unfold tan. rewrite neg_sin, neg_cos. field. lra.
      * assert (Hs : 0 <= sin phi) by (apply sin_ge_0; lra).
        destruct (Rle_dec 0 (r * sin phi)) as [Hy|Hy]; [|nra].
        replace (tan phi) with (tan (phi - PI)).
        -- rewrite atan_tan by lra. ring.
        -- unfold tan.
           replace (sin phi) with (sin (phi - PI + PI)) by (f_equal; ring).
           replace (cos phi) with (cos (phi - PI + PI)) by (f_equal; ring).
           rewrite neg_sin, neg_cos. field.
           intros E. apply (Rlt_irrefl 0).
           replace (cos phi) with (cos (phi - PI + PI)) in Hc by (f_equal; ring).
           rewrite neg_cos in Hc. lra.
    + assert (Hc : cos phi = 0) by nra.
      destruct (cos_zero_range phi Hphi Hc) as [-> | ->].
      * rewrite sin_neg, sin_PI2.
        destruct (Rlt_dec 0 (r * - (1))) as [?|_]; [lra|].
        destruct (Rlt_dec (r * - (1)) 0) as [_|?]; [reflexivity|lra].
      * rewrite sin_PI2.
        destruct (Rlt_dec 0 (r * 1)) as [_|?]; [reflexivity|lra].
Qed.

(** The angle of a rod is recovered from its end point, modulo 2π. *)
Lemma atan2_recovers (l theta : R) :
  0 < l -> Spec.eq_mod_2PI (Numpy.atan2 (l * sin theta) (l * cos theta)) theta.
Proof.
  intros Hl. destruct (angle_reduce theta) as [k Hk].
  exists k.
  rewrite <- (sin_period_Z theta k), <- (cos_period_Z theta k).
  now apply atan2_polar.
Qed.

(** ** The coordinate transform (C7) *)

Lemma nth_error_map2 {A B C} (f : A -> B -> C) (xs : list A) (ys : list B)
    (i : nat) (a : A) (b : B) :
  nth_error xs i = Some a -> nth_error ys i = Some b ->
  nth_error (Numpy.map2 f xs ys) i = Some (f a b).
Proof.
  unfold Numpy.map2. revert ys i.
  induction xs as [|x xs IH]; intros [|y ys] [|i] Ha Hb;
    simpl in *; try discriminate.
  - now injection Ha as ->; injection Hb as ->.
  - now apply IH.
Qed.

Lemma animation_positions (p : DoublePendulum.Params)
    (sol : list (R * R * R * R)) (i : nat) (th1 z1 th2 z2 : R) :
  nth_error sol i = Some (th1, z1, th2, z2) ->
  let theta1 := DoublePendulum.theta1_of sol in
  let theta2 := DoublePendulum.theta2_of sol in
  nth_error (DoublePendulum.x1 p theta1) i
  = Some (DoublePendulum.l1 p * sin th1) /\
  nth_error (DoublePendulum.y1 p theta1) i
  = Some (- DoublePendulum.l1 p * cos th1) /\
  nth_error (DoublePendulum.x2 p theta1 theta2) i
  = Some (DoublePendulum.l1 p * sin th1 + DoublePendulum.l2 p * sin th2) /\
  nth_error (DoublePendulum.y2 p theta1 theta2) i
  = Some (- DoublePendulum.l1 p * cos th1 - DoublePendulum.l2 p * cos th2).
Proof.
  intros H theta1 theta2.
  assert (T1 : nth_error theta1 i = Some th1).
  { unfold theta1, DoublePendulum.theta1_of.
    now rewrite nth_error_map, H. }
  assert (T2 : nth_error theta2 i = Some th2).
  { unfold theta2, DoublePendulum.theta2_of.
    now rewrite nth_error_map, H. }
  assert (X1 : nth_error (DoublePendulum.x1 p theta1) i
               = Some (DoublePendulum.l1 p * sin th1)).
  { unfold DoublePendulum.x1. now rewrite nth_error_map, T1. }
  assert (Y1 : nth_error (DoublePendulum.y1 p theta1) i
               = Some (- DoublePendulum.l1 p * cos th1)).
  { unfold DoublePendulum.y1. now rewrite nth_error_map, T1. }
  repeat split; try assumption.
  - unfold DoublePendulum.x2. now rewrite (nth_error_map2 _ _ _ i _ _ X1 T2).
  - unfold DoublePendulum.y2. now rewrite (nth_error_map2 _ _ _ i _ _ Y1 T2).
Qed.

Lemma interactive_positions {solver : OdeSolver IDP.Y}
    (s : IDP.Session) (i : nat) (th1 z1 th2 z2 : R) :
  let s' := IDP.update_simulation s in
  nth_error (IDP.sol s') i = Some (th1, z1, th2, z2) ->
  nth_error (IDP.x1 s') i = Some (IDP.l1 (IDP.params s) * sin th1) /\
  nth_error (IDP.y1 s') i = Some (IDP.l1 (IDP.params s) * cos th1) /\
  nth_error (IDP.x2 s') i
  = Some (IDP.l1 (IDP.params s) * sin th1 + IDP.l2 (IDP.params s) * sin th2) /\
  nth_error (IDP.y2 s') i
  = Some (IDP.l1 (IDP.params s) * cos th1 + IDP.l2 (IDP.params s) * cos th2).
Proof.
  intros s' H. unfold s', IDP.update_simulation in *.
  cbn [IDP.sol IDP.x1 IDP.y1 IDP.x2 IDP.y2] in *.
  set (sol := solve_ivp _ _ _ _) in *.
  set (theta1 := map (fun s0 : IDP.Y => let '(th, _, _, _) := s0 in th) sol).
  set (theta2 := map (fun s0 : IDP.Y => let '(_, _, th, _) := s0 in th) sol).
  assert (T1 : nth_error theta1 i = Some th1)
    by (unfold theta1; now rewrite nth_error_map, H).
  assert (T2 : nth_error theta2 i = Some th2)
    by (unfold theta2; now rewrite nth_error_map, H).
  assert (X1 : nth_error (map (fun th => IDP.l1 (IDP.params s) * sin th) theta1) i
               = Some (IDP.l1 (IDP.params s) * sin th1))
    by (now rewrite nth_error_map, T1).
  assert (Y1 : nth_error (map (fun th => IDP.l1 (IDP.params s) * cos th) theta1) i
               = Some (IDP.l1 (IDP.params s) * cos th1))
    by (now rewrite nth_error_map, T1).
  repeat split; try assumption.
  - now rewrite (nth_error_map2 _ _ _ i _ _ X1 T2).
  - now rewrite (nth_error_map2 _ _ _ i _ _ Y1 T2).
Qed.

Lemma last_Forall {A} (P : A -> Prop) (l : list A) (d : A) :
  Forall P l -> P d -> P (last l d).
Proof.
  induction l as [|a [|b l] IH]; intros H Hd; [assumption| |].
  - now inversion H.
  - apply IH; [now inversion H|assumption].
Qed.

(** The position arrays of every reachable session come from its stored
    solution: at start-up by lines 62-65, after a release by lines 105-108;
    no other statement writes them, [sol] or the log. *)
Lemma double_reachable_positions {solver : OdeSolver IDP.Y} (s : IDP.Session) :
  reachable_double s -> positions_follow_solve s.
Proof.
  induction 1 as [|e s Hs IH|s s' f Hs IH Hd].
  - unfold positions_follow_solve, last_solved, IDP.initial.
    cbn [IDP.solve_calls IDP.sol IDP.x1 IDP.y1 IDP.x2 IDP.y2 last].
    repeat split; reflexivity.
  - destruct e as [|pos|pos|pos|].
    + exact IH.
    + unfold IDP.handle_event.
      repeat match goal with
             | |- context [if ?b then _ else _] => destruct b
             end; exact IH.
    + unfold positions_follow_solve, last_solved, IDP.handle_event,
        IDP.update_simulation.
      cbn [IDP.solve_calls IDP.sol IDP.x1 IDP.y1 IDP.x2 IDP.y2
           IDP.set_dragging IDP.params].
      rewrite last_last. repeat split; reflexivity.
    + unfold IDP.handle_event.
      destruct (IDP.dragging s) as [d|]; [|exact IH].
      cbv zeta.
      repeat match goal with
             | |- context [if ?b then _ else _] => destruct b
             end; exact IH.
    + exact IH.
  - unfold IDP.draw_pendulum in Hd.
    destruct (IDP.frame s <? length IDP.t_eval)%nat.
    + destruct (getitem (IDP.x1 s) (IDP.frame s)); [|discriminate].
      destruct (getitem (IDP.y1 s) (IDP.frame s)); [|discriminate].
      destruct (getitem (IDP.x2 s) (IDP.frame s)); [|discriminate].
      destruct (getitem (IDP.y2 s) (IDP.frame s)); [|discriminate].
      simpl in Hd. injection Hd as <- _. exact IH.
    + injection Hd as <- _. exact IH.
Qed.

(** The entries at one index of the position arrays of a reachable session. *)
Lemma double_reachable_frame_at {solver : OdeSolver IDP.Y}
    (s : IDP.Session) (i : nat) (th1 z1 th2 z2 : R) :
  reachable_double s ->
  nth_error (IDP.sol s) i = Some (th1, z1, th2, z2) ->
  nth_error (IDP.x1 s) i = Some (IDP.l1 (last_solved s) * sin th1) /\
  nth_error (IDP.y1 s) i = Some (IDP.l1 (last_solved s) * cos th1) /\
  nth_error (IDP.x2 s) i
  = Some (IDP.l1 (last_solved s) * sin th1 + IDP.l2 (last_solved s) * sin th2) /\
  nth_error (IDP.y2 s) i
  = Some (IDP.l1 (last_solved s) * cos th1 + IDP.l2 (last_solved s) * cos th2).
Proof.
  intros Hr H.
  destruct (double_reachable_positions s Hr) as (X1 & Y1 & X2 & Y2).
  cbv zeta in X1, Y1, X2, Y2.
  set (p := last_solved s) in *.
  set (theta1 := map (fun y : IDP.Y => let '(th, _, _, _) := y in th) (IDP.sol s)) in *.
  set (theta2 := map (fun y : IDP.Y => let '(_, _, th, _) := y in th) (IDP.sol s)) in *.
  assert (T1 : nth_error theta1 i = Some th1)
    by (unfold theta1; now rewrite nth_error_map, H).
  assert (T2 : nth_error theta2 i = Some th2)
    by (unfold theta2; now rewrite nth_error_map, H).
  assert (A : nth_error (IDP.x1 s) i = Some (IDP.l1 p * sin th1))
    by (rewrite X1; now rewrite nth_error_map, T1).
  assert (B : nth_error (IDP.y1 s) i = Some (IDP.l1 p * cos th1))
    by (rewrite Y1; now rewrite nth_error_map, T1).
  repeat split; try assumption.
  - rewrite X2. now rewrite (nth_error_map2 _ _ _ i _ _ A T2).
  - rewrite Y2. now rewrite (nth_error_map2 _ _ _ i _ _ B T2).
Qed.

Lemma double_reachable_last_solved {solver : OdeSolver IDP.Y} (s : IDP.Session) :
  reachable_double s -> in_range_double (last_solved s).
Proof.
  intros Hr. destruct (double_reachable_in_range s Hr) as [_ Hc].
  unfold last_solved.
  apply (last_Forall in_range_double); [assumption|apply double_initial_in_range].
Qed.

(** C7.  With the pivot at the origin, the coordinate transform puts bob 1 at
    (l1·sin θ1, ∓l1·cos θ1) and bob 2 at bob 1 + (l2·sin θ2, ∓l2·cos θ2): the
    vertical sign is − in DoublePendulum.py and + in
    InteractiveDoublePendulum.py.  For positive rod lengths, [atan2] of the
    horizontal part and the sign-corrected vertical part of each segment
    gives back the angle modulo 2π.  In InteractiveDoublePendulum.py this
    holds of the arrays [update_simulation] stores (lines 105-108) and of the
    arrays of every reachable session, the start-up transform of lines 62-65
    included; there the rod lengths are those of the latest solve, which the
    sliders keep positive. *)
Theorem C7_coordinate_round_trip {solver : OdeSolver IDP.Y}
    (p : DoublePendulum.Params) (sol : list (R * R * R * R))
    (s : IDP.Session) (i j : nat) (th1 z1 th2 z2 ph1 w1 ph2 w2 : R) :
  0 < DoublePendulum.l1 p -> 0 < DoublePendulum.l2 p ->
  0 < IDP.l1 (IDP.params s) -> 0 < IDP.l2 (IDP.params s) ->
  nth_error sol i = Some (th1, z1, th2, z2) ->
  nth_error (IDP.sol (IDP.update_simulation s)) j = Some (ph1, w1, ph2, w2) ->
  (exists x1 y1 x2 y2,
      let theta1 := DoublePendulum.theta1_of sol in
      let theta2 := DoublePendulum.theta2_of sol in
      getitem (DoublePendulum.x1 p theta1) i = Ok x1 /\
      getitem (DoublePendulum.y1 p theta1) i = Ok y1 /\
      getitem (DoublePendulum.x2 p theta1 theta2) i = Ok x2 /\
      getitem (DoublePendulum.y2 p theta1 theta2) i = Ok y2 /\
      (x1, y1) = (DoublePendulum.l1 p * sin th1, - (DoublePendulum.l1 p * cos th1)) /\
      (x2, y2) = (x1 + DoublePendulum.l2 p * sin th2,
                  y1 - DoublePendulum.l2 p * cos th2) /\
      Spec.eq_mod_2PI (Numpy.atan2 (x1 - 0) (- (y1 - 0))) th1 /\
      Spec.eq_mod_2PI (Numpy.atan2 (x2 - x1) (- (y2 - y1))) th2) /\
  (exists x1 y1 x2 y2,
      let s' := IDP.update_simulation s in
      getitem (IDP.x1 s') j = Ok x1 /\
      getitem (IDP.y1 s') j = Ok y1 /\
      getitem (IDP.x2 s') j = Ok x2 /\
      getitem (IDP.y2 s') j = Ok y2 /\
      (x1, y1) = (IDP.l1 (IDP.params s) * sin ph1, IDP.l1 (IDP.params s) * cos ph1) /\
      (x2, y2) = (x1 + IDP.l2 (IDP.params s) * sin ph2,
                  y1 + IDP.l2 (IDP.params s) * cos ph2) /\
      Spec.eq_mod_2PI (Numpy.atan2 (x1 - 0) (y1 - 0)) ph1 /\
      Spec.eq_mod_2PI (Numpy.atan2 (x2 - x1) (y2 - y1)) ph2) /\
  (forall (r : IDP.Session) (k : nat) (a1 v1 a2 v2 : R),
      reachable_double r ->
      nth_error (IDP.sol r) k = Some (a1, v1, a2, v2) ->
      exists x1 y1 x2 y2,
        getitem (IDP.x1 r) k = Ok x1 /\
        getitem (IDP.y1 r) k = Ok y1 /\
        getitem (IDP.x2 r) k = Ok x2 /\
        getitem (IDP.y2 r) k = Ok y2 /\
        0 < IDP.l1 (last_solved r) /\ 0 < IDP.l2 (last_solved r) /\
        (x1, y1) = (IDP.l1 (last_solved r) * sin a1,
                    IDP.l1 (last_solved r) * cos a1) /\
        (x2, y2) = (x1 + IDP.l2 (last_solved r) * sin a2,
                    y1 + IDP.l2 (last_solved r) * cos a2) /\
        Spec.eq_mod_2PI (Numpy.atan2 (x1 - 0) (y1 - 0)) a1 /\
        Spec.eq_mod_2PI (Numpy.atan2 (x2 - x1) (y2 - y1)) a2) /\
  last_solved IDP.initial = IDP.initial_params.
Proof.
  intros Hl1 Hl2 Hm1 Hm2 Hi Hj. split; [|split; [|split]].
  - destruct (animation_positions p sol i th1 z1 th2 z2 Hi) as (X1 & Y1 & X2 & Y2).
    do 4 eexists. cbv zeta. unfold getitem.
    rewrite X1, Y1, X2, Y2.
    repeat split; try reflexivity.
    + f_equal. ring.
    + replace (DoublePendulum.l1 p * sin th1 - 0)
        with (DoublePendulum.l1 p * sin th1) by ring.
      replace (- (- DoublePendulum.l1 p * cos th1 - 0))
        with (DoublePendulum.l1 p * cos th1) by ring.
      now apply atan2_recovers.
    + match goal with
      | |- Spec.eq_mod_2PI (Numpy.atan2 ?a ?b) _ =>
          replace a with (DoublePendulum.l2 p * sin th2) by ring;
          replace b with (DoublePendulum.l2 p * cos th2) by ring
      end.
      now apply atan2_recovers.
  - destruct (interactive_positions s j ph1 w1 ph2 w2 Hj) as (X1 & Y1 & X2 & Y2).
    do 4 eexists. cbv zeta. unfold getitem.
    rewrite X1, Y1, X2, Y2.
    repeat split; try reflexivity.
    + rewrite !Rminus_0_r. now apply atan2_recovers.
    + match goal with
      | |- Spec.eq_mod_2PI (Numpy.atan2 ?a ?b) _ =>
          replace a with (IDP.l2 (IDP.params s) * sin ph2) by ring;
          replace b with (IDP.l2 (IDP.params s) * cos ph2) by ring
      end.
      now apply atan2_recovers.
  - intros r k a1 v1 a2 v2 Hr Hk.
    destruct (double_reachable_frame_at r k a1 v1 a2 v2 Hr Hk) as (X1 & Y1 & X2 & Y2).
    destruct (double_reachable_last_solved r Hr) as (_ & _ & L1 & L2 & _).
    assert (P1 : 0 < IDP.l1 (last_solved r)) by lra.
    assert (P2 : 0 < IDP.l2 (last_solved r)) by lra.
    do 4 eexists. unfold getitem.
    rewrite X1, Y1, X2, Y2.
    repeat split; try reflexivity; try assumption.
    + rewrite !Rminus_0_r. now apply atan2_recovers.
    + match goal with
      | |- Spec.eq_mod_2PI (Numpy.atan2 ?a ?b) _ =>
          replace a with (IDP.l2 (last_solved r) * sin a2) by ring;
          replace b with (IDP.l2 (last_solved r) * cos a2) by ring
      end.
      now apply atan2_recovers.
  - reflexivity.
Qed.

Lemma C7_coordinate_round_trip_witness :
  let p := DoublePendulum.defaults in
  let sol := [(PI / 2, 0, PI / 2, 0)] in
  let s := @IDP.initial Euler.solver4 in
  (exists x1 y1 x2 y2,
      let theta1 := DoublePendulum.theta1_of sol in
      let theta2 := DoublePendulum.theta2_of sol in
      getitem (DoublePendulum.x1 p theta1) 0 = Ok x1 /\
      getitem (DoublePendulum.y1 p theta1) 0 = Ok y1 /\
      getitem (DoublePendulum.x2 p theta1 theta2) 0 = Ok x2 /\
      getitem (DoublePendulum.y2 p theta1 theta2) 0 = Ok y2 /\
      (x1, y1) = (DoublePendulum.l1 p * sin (PI / 2),
                  - (DoublePendulum.l1 p * cos (PI / 2))) /\
      (x2, y2) = (x1 + DoublePendulum.l2 p * sin (PI / 2),
                  y1 - DoublePendulum.l2 p * cos (PI / 2)) /\
      Spec.eq_mod_2PI (Numpy.atan2 (x1 - 0) (- (y1 - 0))) (PI / 2) /\
      Spec.eq_mod_2PI (Numpy.atan2 (x2 - x1) (- (y2 - y1))) (PI / 2)) /\
  (exists x1 y1 x2 y2,
      let s' := @IDP.update_simulation Euler.solver4 s in
      getitem (IDP.x1 s') 0 = Ok x1 /\
      getitem (IDP.y1 s') 0 = Ok y1 /\
      getitem (IDP.x2 s') 0 = Ok x2 /\
      getitem (IDP.y2 s') 0 = Ok y2 /\
      (x1, y1) = (IDP.l1 (IDP.params s) * sin (PI / 2),
                  IDP.l1 (IDP.params s) * cos (PI / 2)) /\
      (x2, y2) = (x1 + IDP.l2 (IDP.params s) * sin (PI / 2),
                  y1 + IDP.l2 (IDP.params s) * cos (PI / 2)) /\
      Spec.eq_mod_2PI (Numpy.atan2 (x1 - 0) (y1 - 0)) (PI / 2) /\
      Spec.eq_mod_2PI (Numpy.atan2 (x2 - x1) (y2 - y1)) (PI / 2)) /\
  (exists x1 y1 x2 y2,
      getitem (IDP.x1 s) 0 = Ok x1 /\
      getitem (IDP.y1 s) 0 = Ok y1 /\
      getitem (IDP.x2 s) 0 = Ok x2 /\
      getitem (IDP.y2 s) 0 = Ok y2 /\
      0 < IDP.l1 (last_solved s) /\ 0 < IDP.l2 (last_solved s) /\
      (x1, y1) = (IDP.l1 (last_solved s) * sin (PI / 2),
                  IDP.l1 (last_solved s) * cos (PI / 2)) /\
      (x2, y2) = (x1 + IDP.l2 (last_solved s) * sin (PI / 2),
                  y1 + IDP.l2 (last_solved s) * cos (PI / 2)) /\
      Spec.eq_mod_2PI (Numpy.atan2 (x1 - 0) (y1 - 0)) (PI / 2) /\
      Spec.eq_mod_2PI (Numpy.atan2 (x2 - x1) (y2 - y1)) (PI / 2)) /\
  last_solved s = IDP.initial_params.
Proof.
  destruct (@C7_coordinate_round_trip Euler.solver4 DoublePendulum.defaults
              [(PI / 2, 0, PI / 2, 0)] (@IDP.initial Euler.solver4)
              0%nat 0%nat (PI / 2) 0 (PI / 2) 0 (PI / 2) 0 (PI / 2) 0)
    as (A & B & C & D).
  - simpl; lra.
  - simpl; lra.
  - simpl; lra.
  - simpl; lra.
  - reflexivity.
  - reflexivity.
  - split; [exact A|]. split; [exact B|]. split; [|exact D].
    apply (C (@IDP.initial Euler.solver4) 0%nat (PI / 2) 0 (PI / 2) 0).
    + apply reach_double_initial.
    + reflexivity.
Defined.

(** * Further properties of the scripts *)

(** ** Symmetries of the derivative functions *)

Lemma pair4_eq {A B C D} (a a' : A) (b b' : B) (c c' : C) (d d' : D) :
  a = a' -> b = b' -> c = c' -> d = d' -> (a, b, c, d) = (a', b', c', d').
Proof. now intros -> -> -> ->. Qed.

Lemma delta_neg (a b : R) : - a - - b = - (a - b).
Proof. ring. Qed.

Lemma delta_shift (a b : R) (j k : Z) :
  a + 2 * IZR j * PI - (b + 2 * IZR k * PI) = a - b + 2 * IZR (j - k) * PI.
Proof. rewrite minus_IZR. ring. Qed.

(** X1.  Mirror symmetry of the double pendulum: negating all four state
    components negates all four components of the derivative, in
    InteractiveDoublePendulum.py and in DoublePendulum.py. *)
Theorem X1_double_mirror_symmetry
    (p : IDP.Params) (q : DoublePendulum.Params) (t th1 w1 th2 w2 : R) :
  (let '(d1, a1, d2, a2) := IDP.DoubleDampedPendulum p t (th1, w1, th2, w2) in
   IDP.DoubleDampedPendulum p t (- th1, - w1, - th2, - w2)
   = (- d1, - a1, - d2, - a2)) /\
  (let '(d1, a1, d2, a2) :=
     DoublePendulum.DoubleDampedPendulum q t (th1, w1, th2, w2) in
   DoublePendulum.DoubleDampedPendulum q t (- th1, - w1, - th2, - w2)
   = (- d1, - a1, - d2, - a2)).
Proof.
  split.
  - unfold IDP.DoubleDampedPendulum, IDP.denominator, Numpy.power.
    rewrite delta_neg, !sin_neg, !cos_neg.
    apply pair4_eq; unfold Rdiv; ring.
  - unfold DoublePendulum.DoubleDampedPendulum, DoublePendulum.denominator,
      Numpy.power.
    rewrite delta_neg, !sin_neg, !cos_neg.
    apply pair4_eq; unfold Rdiv; ring.
Qed.

(** X2.  The double-pendulum derivative is 2π-periodic in each angle
    separately: adding whole turns to θ1 and to θ2 changes nothing, in both
    scripts. *)
Theorem X2_double_periodic
    (p : IDP.Params) (q : DoublePendulum.Params)
    (t th1 w1 th2 w2 : R) (j k : Z) :
  IDP.DoubleDampedPendulum p t
    (th1 + 2 * IZR j * PI, w1, th2 + 2 * IZR k * PI, w2)
  = IDP.DoubleDampedPendulum p t (th1, w1, th2, w2) /\
  DoublePendulum.DoubleDampedPendulum q t
    (th1 + 2 * IZR j * PI, w1, th2 + 2 * IZR k * PI, w2)
  = DoublePendulum.DoubleDampedPendulum q t (th1, w1, th2, w2).
Proof.
  split.
  - unfold IDP.DoubleDampedPendulum, IDP.denominator.
    rewrite delta_shift, !sin_period_Z, !cos_period_Z. reflexivity.
  - unfold DoublePendulum.DoubleDampedPendulum, DoublePendulum.denominator.
    rewrite delta_shift, !sin_period_Z, !cos_period_Z. reflexivity.
Qed.

Lemma sin_Z_PI (k : Z) : sin (IZR k * PI) = 0.
Proof. apply sin_eq_0_1. now exists k. Qed.

(** X3.  The rest positions of the interactive double pendulum.  For positive
    masses and lengths, every state with both rods vertical (each angle a
    whole multiple of π, hanging or inverted) and no velocity is a fixed
    point: the derivative is zero, whatever the damping. *)
Theorem X3_double_equilibria (p : IDP.Params) (t : R) (j k : Z) :
  0 < IDP.m1 p -> 0 < IDP.m2 p -> 0 < IDP.l1 p -> 0 < IDP.l2 p ->
  IDP.DoubleDampedPendulum p t (IZR j * PI, 0, IZR k * PI, 0) = (0, 0, 0, 0).
Proof.
  intros H1 H2 H3 H4.
  pose proof (interactive_denominator_pos p (IZR j * PI - IZR k * PI) H1 H2 H3 H4)
    as Hd.
  unfold IDP.DoubleDampedPendulum.
  set (D := IDP.denominator p (IZR j * PI - IZR k * PI)) in *.
  replace (IZR j * PI - IZR k * PI) with (IZR (j - k) * PI)
    by (rewrite minus_IZR; ring).
  rewrite !sin_Z_PI. unfold Numpy.power.
  apply pair4_eq; try reflexivity; unfold Rdiv; ring.
Qed.

Lemma X3_double_equilibria_witness :
  IDP.DoubleDampedPendulum IDP.initial_params 0 (IZR 1 * PI, 0, IZR 0 * PI, 0)
  = (0, 0, 0, 0).
Proof.
  apply (X3_double_equilibria IDP.initial_params 0 1 0); simpl; lra.
Defined.

(** X4.  [DoubleDampedPendulum] inverts the mass matrix.  For positive masses
    and lengths the two accelerations it returns solve the linear system
    (m1+m2)·l1²·α1 + m2·l1·l2·cos(Δθ)·α2 = A and
    m2·l1·l2·cos(Δθ)·α1 + m2·l2²·α2 = B, with A and B the two bracketed
    terms of lines 41-46. *)
Theorem X4_accelerations_solve_mass_matrix
    (p : IDP.Params) (t th1 w1 th2 w2 : R) :
  0 < IDP.m1 p -> 0 < IDP.m2 p -> 0 < IDP.l1 p -> 0 < IDP.l2 p ->
  let '(_, a1, _, a2) := IDP.DoubleDampedPendulum p t (th1, w1, th2, w2) in
  let c := IDP.m2 p * IDP.l1 p * IDP.l2 p * cos (th1 - th2) in
  (IDP.m1 p + IDP.m2 p) * IDP.l1 p ^ 2 * a1 + c * a2
  = - IDP.m2 p * IDP.l1 p * IDP.l2 p * w2 ^ 2 * sin (th1 - th2)
    - (IDP.m1 p + IDP.m2 p) * g * IDP.l1 p * sin th1 - IDP.c1 p * w1 /\
  c * a1 + IDP.m2 p * IDP.l2 p ^ 2 * a2
  = IDP.m2 p * IDP.l1 p * IDP.l2 p * w1 ^ 2 * sin (th1 - th2)
    - IDP.m2 p * g * IDP.l2 p * sin th2 - IDP.c2 p * w2.
Proof.
  intros H1 H2 H3 H4.
  pose proof (interactive_denominator_pos p (th1 - th2) H1 H2 H3 H4) as Hd.
  unfold IDP.DoubleDampedPendulum. cbv zeta.
  set (D := IDP.denominator p (th1 - th2)) in *.
  assert (HD : D = (IDP.m1 p + IDP.m2 p) * IDP.l1 p ^ 2 * IDP.m2 p * IDP.l2 p ^ 2
                   - (IDP.m2 p * IDP.l1 p * IDP.l2 p * cos (th1 - th2)) ^ 2)
    by reflexivity.
  unfold Numpy.power.
  assert (Dnz : D <> 0) by lra.
  split.
  - apply (Rmult_eq_reg_r D); [|assumption].
    rewrite Rmult_plus_distr_r.
    unfold Rdiv. rewrite !Rmult_assoc, !Rinv_l, !Rmult_1_r by assumption.
    rewrite HD. ring.
  - apply (Rmult_eq_reg_r D); [|assumption].
    rewrite Rmult_plus_distr_r.
    unfold Rdiv. rewrite !Rmult_assoc, !Rinv_l, !Rmult_1_r by assumption.
    rewrite HD. ring.
Qed.

Lemma X4_accelerations_solve_mass_matrix_witness :
  let '(_, a1, _, a2) :=
    IDP.DoubleDampedPendulum IDP.initial_params 0 (PI / 2, 0, PI / 2, 0) in
  let c := IDP.m2 IDP.initial_params * IDP.l1 IDP.initial_params
           * IDP.l2 IDP.initial_params * cos (PI / 2 - PI / 2) in
  (IDP.m1 IDP.initial_params + IDP.m2 IDP.initial_params)
  * IDP.l1 IDP.initial_params ^ 2 * a1 + c * a2
  = - IDP.m2 IDP.initial_params * IDP.l1 IDP.initial_params
      * IDP.l2 IDP.initial_params * 0 ^ 2 * sin (PI / 2 - PI / 2)
    - (IDP.m1 IDP.initial_params + IDP.m2 IDP.initial_params) * g
      * IDP.l1 IDP.initial_params * sin (PI / 2)
    - IDP.c1 IDP.initial_params * 0 /\
  c * a1 + IDP.m2 IDP.initial_params * IDP.l2 IDP.initial_params ^ 2 * a2
  = IDP.m2 IDP.initial_params * IDP.l1 IDP.initial_params
    * IDP.l2 IDP.initial_params * 0 ^ 2 * sin (PI / 2 - PI / 2)
    - IDP.m2 IDP.initial_params * g * IDP.l2 IDP.initial_params * sin (PI / 2)
    - IDP.c2 IDP.initial_params * 0.
Proof.
  apply (X4_accelerations_solve_mass_matrix IDP.initial_params 0
           (PI / 2) 0 (PI / 2) 0); simpl; lra.
Defined.

(** ** DoublePendulum.py against InteractiveDoublePendulum.py *)

Lemma sqrt_eq_square (x : R) : 0 < x -> sqrt x = x ^ 2 -> x = 1.
Proof.
  intros Hx E.
  pose proof (sqrt_lt_R0 x Hx) as Hs.
  pose proof (sqrt_sqrt x (Rlt_le _ _ Hx)) as Hss.
  set (r := sqrt x) in *.
  assert (E' : r = (r * r) ^ 2) by (rewrite Hss; exact E).
  assert (F : (r - 1) * (r * (r * r + r + 1)) = 0) by (simpl in E'; nra).
  destruct (Rmult_integral _ _ F) as [F1|F2].
  - rewrite <- Hss. assert (R1 : r = 1) by lra. rewrite R1. ring.
  - exfalso. assert (0 < r * (r * r + r + 1)) by (apply Rmult_lt_0_compat; nra).
    lra.
Qed.

(** X5.  For positive masses and lengths, the denominator of DoublePendulum.py
    equals that of InteractiveDoublePendulum.py exactly when the second rod
    has length 1; and with l2 = 1, as shipped, the two
    [DoubleDampedPendulum] functions agree on every state. *)
Theorem X5_scripts_agree_iff_unit_rod
    (p : DoublePendulum.Params) (t dtheta : R) (y : R * R * R * R) :
  0 < DoublePendulum.m1 p -> 0 < DoublePendulum.m2 p ->
  0 < DoublePendulum.l1 p -> 0 < DoublePendulum.l2 p ->
  (DoublePendulum.denominator p dtheta = IDP.denominator (to_interactive p) dtheta
   <-> DoublePendulum.l2 p = 1) /\
  (DoublePendulum.l2 p = 1 ->
   DoublePendulum.DoubleDampedPendulum p t y
   = IDP.DoubleDampedPendulum (to_interactive p) t y).
Proof.
  intros H1 H2 H3 H4.
  assert (Heq : DoublePendulum.l2 p = 1 ->
                forall d, DoublePendulum.denominator p d
                          = IDP.denominator (to_interactive p) d).
  { intros E d. unfold DoublePendulum.denominator, IDP.denominator, Numpy.power.
    simpl. rewrite E, sqrt_1. ring. }
  split; [split|].
  - intros E. apply sqrt_eq_square; [assumption|].
    unfold DoublePendulum.denominator, IDP.denominator, Numpy.power in E.
    simpl in E.
    set (K := (DoublePendulum.m1 p + DoublePendulum.m2 p)
              * (DoublePendulum.l1 p * (DoublePendulum.l1 p * 1))
              * DoublePendulum.m2 p) in *.
    assert (HK : 0 < K) by (unfold K; repeat apply Rmult_lt_0_compat; lra).
    assert (KE : K * sqrt (DoublePendulum.l2 p) = K * DoublePendulum.l2 p ^ 2)
      by (simpl; lra).
    apply Rmult_eq_reg_l in KE; [assumption|lra].
  - intros E. now apply Heq.
  - intros E. destruct y as [[[th1 z1] th2] z2].
    unfold DoublePendulum.DoubleDampedPendulum, IDP.DoubleDampedPendulum.
    rewrite (Heq E). reflexivity.
Qed.

Lemma X5_scripts_agree_iff_unit_rod_witness :
  (DoublePendulum.denominator DoublePendulum.defaults 0
   = IDP.denominator (to_interactive DoublePendulum.defaults) 0
   <-> DoublePendulum.l2 DoublePendulum.defaults = 1) /\
  (DoublePendulum.l2 DoublePendulum.defaults = 1 ->
   DoublePendulum.DoubleDampedPendulum DoublePendulum.defaults 0 (PI / 2, 0, PI / 2, 0)
   = IDP.DoubleDampedPendulum (to_interactive DoublePendulum.defaults) 0
       (PI / 2, 0, PI / 2, 0)).
Proof.
  apply (X5_scripts_agree_iff_unit_rod DoublePendulum.defaults 0 0
           (PI / 2, 0, PI / 2, 0)); simpl; lra.
Defined.

(** ** The single-pendulum derivative functions *)

(** X6.  For positive mass and length [DampedPemdulum] is odd (negating angle
    and velocity negates the derivative), 2π-periodic in the angle, and zero
    at every state (kπ, 0): hanging and inverted rest are fixed points.  The
    same holds of [SimplePemdulum], whose body is the same expression. *)
Theorem X6_single_symmetries
    (p : DampedPendulum.Params) (q : ISP.Params) (t theta omega : R) (k : Z) :
  0 < DampedPendulum.m p -> 0 < DampedPendulum.l p ->
  0 < ISP.m q -> 0 < ISP.l q ->
  ((let '(d, a) := DampedPendulum.DampedPemdulum p t (theta, omega) in
    DampedPendulum.DampedPemdulum p t (- theta, - omega) = (- d, - a)) /\
   DampedPendulum.DampedPemdulum p t (theta + 2 * IZR k * PI, omega)
   = DampedPendulum.DampedPemdulum p t (theta, omega) /\
   DampedPendulum.DampedPemdulum p t (IZR k * PI, 0) = (0, 0)) /\
  ((let '(d, a) := ISP.SimplePemdulum q t (theta, omega) in
    ISP.SimplePemdulum q t (- theta, - omega) = (- d, - a)) /\
   ISP.SimplePemdulum q t (theta + 2 * IZR k * PI, omega)
   = ISP.SimplePemdulum q t (theta, omega) /\
   ISP.SimplePemdulum q t (IZR k * PI, 0) = (0, 0)).
Proof.
  intros _ _ _ _.
  unfold DampedPendulum.DampedPemdulum, ISP.SimplePemdulum.
  rewrite !sin_neg, !sin_period_Z, !sin_Z_PI.
  repeat split; f_equal; unfold Rdiv; ring.
Qed.

Lemma X6_single_symmetries_witness :
  ((let '(d, a) :=
      DampedPendulum.DampedPemdulum DampedPendulum.defaults 0 (PI / 2, 1) in
    DampedPendulum.DampedPemdulum DampedPendulum.defaults 0 (- (PI / 2), - (1))
    = (- d, - a)) /\
   DampedPendulum.DampedPemdulum DampedPendulum.defaults 0
     (PI / 2 + 2 * IZR 3 * PI, 1)
   = DampedPendulum.DampedPemdulum DampedPendulum.defaults 0 (PI / 2, 1) /\
   DampedPendulum.DampedPemdulum DampedPendulum.defaults 0 (IZR 3 * PI, 0)
   = (0, 0)) /\
  ((let '(d, a) := ISP.SimplePemdulum ISP.initial_params 0 (PI / 2, 1) in
    ISP.SimplePemdulum ISP.initial_params 0 (- (PI / 2), - (1)) = (- d, - a)) /\
   ISP.SimplePemdulum ISP.initial_params 0 (PI / 2 + 2 * IZR 3 * PI, 1)
   = ISP.SimplePemdulum ISP.initial_params 0 (PI / 2, 1) /\
   ISP.SimplePemdulum ISP.initial_params 0 (IZR 3 * PI, 0) = (0, 0)).
Proof.
  apply (X6_single_symmetries DampedPendulum.defaults ISP.initial_params
           0 (PI / 2) 1 3); simpl; lra.
Defined.

(** X7.  Time reversal.  The undamped [SimplePendulum] is reversible:
    flipping the velocity flips the angle rate and keeps the acceleration.
    For positive mass and length [DampedPemdulum] has that symmetry at a
    state exactly when b·ω = 0. *)
Theorem X7_time_reversal
    (l : R) (p : DampedPendulum.Params) (t theta omega : R) :
  0 < DampedPendulum.m p -> 0 < DampedPendulum.l p ->
  SimplePendulum.SimplePendulum l t (theta, - omega)
  = (- fst (SimplePendulum.SimplePendulum l t (theta, omega)),
     snd (SimplePendulum.SimplePendulum l t (theta, omega))) /\
  (DampedPendulum.DampedPemdulum p t (theta, - omega)
   = (- fst (DampedPendulum.DampedPemdulum p t (theta, omega)),
      snd (DampedPendulum.DampedPemdulum p t (theta, omega)))
   <-> DampedPendulum.b p * omega = 0).
Proof.
  intros Hm Hl. split; [reflexivity|].
  unfold DampedPendulum.DampedPemdulum, Numpy.power; simpl.
  set (k := DampedPendulum.m p * (DampedPendulum.l p * (DampedPendulum.l p * 1))).
  assert (Hk : 0 < k) by (unfold k; repeat apply Rmult_lt_0_compat; lra).
  set (r := g / DampedPendulum.l p * sin theta).
  assert (Q : DampedPendulum.b p / k * omega = DampedPendulum.b p * omega / k)
    by (field; lra).
  split.
  - intros E. injection E as E.
    assert (E2 : DampedPendulum.b p * omega / k = 0) by (rewrite <- Q; lra).
    apply (Rmult_eq_compat_r k) in E2.
    unfold Rdiv in E2. rewrite Rmult_assoc, Rinv_l, Rmult_0_l in E2; lra.
  - intros E. f_equal.
    assert (E2 : DampedPendulum.b p / k * omega = 0)
      by (rewrite Q, E; unfold Rdiv; ring).
    lra.
Qed.

Lemma X7_time_reversal_witness :
  SimplePendulum.SimplePendulum 5 0 (PI / 2, - (1))
  = (- fst (SimplePendulum.SimplePendulum 5 0 (PI / 2, 1)),
     snd (SimplePendulum.SimplePendulum 5 0 (PI / 2, 1))) /\
  (DampedPendulum.DampedPemdulum DampedPendulum.defaults 0 (PI / 2, - (1))
   = (- fst (DampedPendulum.DampedPemdulum DampedPendulum.defaults 0 (PI / 2, 1)),
      snd (DampedPendulum.DampedPemdulum DampedPendulum.defaults 0 (PI / 2, 1)))
   <-> DampedPendulum.b DampedPendulum.defaults * 1 = 0).
Proof.
  apply (X7_time_reversal 5 DampedPendulum.defaults 0 (PI / 2) 1); simpl; lra.
Defined.

(** ** The coordinate transform: rigid rods and the plotted window *)

Lemma nth_error_map2_inv {A B C} (f : A -> B -> C) (xs : list A) (ys : list B)
    (i : nat) (c : C) :
  nth_error (Numpy.map2 f xs ys) i = Some c ->
  exists a b, nth_error xs i = Some a /\ nth_error ys i = Some b /\ c = f a b.
Proof.
  unfold Numpy.map2. revert ys i.
  induction xs as [|x xs IH]; intros [|y ys] [|i] H;
    simpl in *; try discriminate.
  - injection H as <-. eauto.
  - now apply IH.
Qed.

Lemma nth_error_map_inv {A B} (f : A -> B) (xs : list A) (i : nat) (b : B) :
  nth_error (map f xs) i = Some b ->
  exists a, nth_error xs i = Some a /\ b = f a.
Proof.
  rewrite nth_error_map. destruct (nth_error xs i) as [a|]; simpl; [|discriminate].
  intros [= <-]. eauto.
Qed.

Lemma sin2_cos2_scaled (l th : R) :
  (l * sin th) ^ 2 + (l * cos th) ^ 2 = l ^ 2.
Proof.
  pose proof (sin2_cos2 th) as H. unfold Rsqr in H.
  replace ((l * sin th) ^ 2 + (l * cos th) ^ 2)
    with (l ^ 2 * (sin th * sin th + cos th * cos th)) by ring.
  rewrite H. ring.
Qed.

(** The entries at one index of the four arrays of DoublePendulum.py. *)
Lemma animation_frame_inv (p : DoublePendulum.Params) (theta1 theta2 : list R)
    (i : nat) (a b c d : R) :
  nth_error (DoublePendulum.x1 p theta1) i = Some a ->
  nth_error (DoublePendulum.y1 p theta1) i = Some b ->
  nth_error (DoublePendulum.x2 p theta1 theta2) i = Some c ->
  nth_error (DoublePendulum.y2 p theta1 theta2) i = Some d ->
  exists th1 th2,
    a = DoublePendulum.l1 p * sin th1 /\
    b = - DoublePendulum.l1 p * cos th1 /\
    c = a + DoublePendulum.l2 p * sin th2 /\
    d = b - DoublePendulum.l2 p * cos th2.
Proof.
  intros Ha Hb Hc Hd.
  apply nth_error_map2_inv in Hc. destruct Hc as (a' & th2 & Ha' & T2 & ->).
  apply nth_error_map2_inv in Hd. destruct Hd as (b' & th2' & Hb' & T2' & ->).
  rewrite Ha in Ha'. injection Ha' as <-.
  rewrite Hb in Hb'. injection Hb' as <-.
  rewrite T2 in T2'. injection T2' as <-.
  apply nth_error_map_inv in Ha. destruct Ha as (th1 & T1 & ->).
  apply nth_error_map_inv in Hb. destruct Hb as (th1' & T1' & ->).
  rewrite T1 in T1'. injection T1' as <-.
  exists th1, th2. repeat split; reflexivity.
Qed.

(** The same for the arrays [update_simulation] stores. *)
Lemma interactive_frame_inv {solver : OdeSolver IDP.Y} (s : IDP.Session)
    (i : nat) (a b c d : R) :
  let s' := IDP.update_simulation s in
  nth_error (IDP.x1 s') i = Some a ->
  nth_error (IDP.y1 s') i = Some b ->
  nth_error (IDP.x2 s') i = Some c ->
  nth_error (IDP.y2 s') i = Some d ->
  exists th1 th2,
    a = IDP.l1 (IDP.params s) * sin th1 /\
    b = IDP.l1 (IDP.params s) * cos th1 /\
    c = a + IDP.l2 (IDP.params s) * sin th2 /\
    d = b + IDP.l2 (IDP.params s) * cos th2.
Proof.
  cbv zeta. unfold IDP.update_simulation.
  cbn [IDP.x1 IDP.y1 IDP.x2 IDP.y2].
  intros Ha Hb Hc Hd.
  apply nth_error_map2_inv in Hc. destruct Hc as (a' & th2 & Ha' & T2 & ->).
  apply nth_error_map2_inv in Hd. destruct Hd as (b' & th2' & Hb' & T2' & ->).
  rewrite Ha in Ha'. injection Ha' as <-.
  rewrite Hb in Hb'. injection Hb' as <-.
  rewrite T2 in T2'. injection T2' as <-.
  apply nth_error_map_inv in Ha. destruct Ha as (th1 & T1 & ->).
  apply nth_error_map_inv in Hb. destruct Hb as (th1' & T1' & ->).
  rewrite T1 in T1'. injection T1' as <-.
  exists th1, th2. repeat split; reflexivity.
Qed.

(** X8.  The rods are rigid.  At every index of the position arrays, in
    DoublePendulum.py and after every [update_simulation] of
    InteractiveDoublePendulum.py, bob 1 is at distance |l1| from the pivot
    and bob 2 at distance |l2| from bob 1 (the squared distances are l1² and
    l2²), whatever angles the solver returned. *)
Theorem X8_rigid_rods {solver : OdeSolver IDP.Y}
    (p : DoublePendulum.Params) (theta1 theta2 : list R) (s : IDP.Session)
    (i j : nat) (a b c d a' b' c' d' : R) :
  nth_error (DoublePendulum.x1 p theta1) i = Some a ->
  nth_error (DoublePendulum.y1 p theta1) i = Some b ->
  nth_error (DoublePendulum.x2 p theta1 theta2) i = Some c ->
  nth_error (DoublePendulum.y2 p theta1 theta2) i = Some d ->
  nth_error (IDP.x1 (IDP.update_simulation s)) j = Some a' ->
  nth_error (IDP.y1 (IDP.update_simulation s)) j = Some b' ->
  nth_error (IDP.x2 (IDP.update_simulation s)) j = Some c' ->
  nth_error (IDP.y2 (IDP.update_simulation s)) j = Some d' ->
  (a ^ 2 + b ^ 2 = DoublePendulum.l1 p ^ 2 /\
   (c - a) ^ 2 + (d - b) ^ 2 = DoublePendulum.l2 p ^ 2) /\
  (a' ^ 2 + b' ^ 2 = IDP.l1 (IDP.params s) ^ 2 /\
   (c' - a') ^ 2 + (d' - b') ^ 2 = IDP.l2 (IDP.params s) ^ 2).
Proof.
  intros Ha Hb Hc Hd Ha' Hb' Hc' Hd'. split.
  - destruct (animation_frame_inv p theta1 theta2 i a b c d Ha Hb Hc Hd)
      as (th1 & th2 & -> & -> & -> & ->).
    split.
    + rewrite <- (sin2_cos2_scaled (DoublePendulum.l1 p) th1). ring.
    + rewrite <- (sin2_cos2_scaled (DoublePendulum.l2 p) th2). ring.
  - destruct (interactive_frame_inv s j a' b' c' d' Ha' Hb' Hc' Hd')
      as (th1 & th2 & -> & -> & -> & ->).
    split.
    + rewrite <- (sin2_cos2_scaled (IDP.l1 (IDP.params s)) th1). ring.
    + rewrite <- (sin2_cos2_scaled (IDP.l2 (IDP.params s)) th2). ring.
Qed.

Lemma X8_rigid_rods_witness :
  let p := DoublePendulum.defaults in
  let s := @IDP.initial Euler.solver4 in
  let a := DoublePendulum.l1 p * sin 0 in
  let b := - DoublePendulum.l1 p * cos 0 in
  let c := a + DoublePendulum.l2 p * sin (PI / 2) in
  let d := b - DoublePendulum.l2 p * cos (PI / 2) in
  let a' := IDP.l1 (IDP.params s) * sin (PI / 2) in
  let b' := IDP.l1 (IDP.params s) * cos (PI / 2) in
  let c' := a' + IDP.l2 (IDP.params s) * sin (PI / 2) in
  let d' := b' + IDP.l2 (IDP.params s) * cos (PI / 2) in
  (a ^ 2 + b ^ 2 = DoublePendulum.l1 p ^ 2 /\
   (c - a) ^ 2 + (d - b) ^ 2 = DoublePendulum.l2 p ^ 2) /\
  (a' ^ 2 + b' ^ 2 = IDP.l1 (IDP.params s) ^ 2 /\
   (c' - a') ^ 2 + (d' - b') ^ 2 = IDP.l2 (IDP.params s) ^ 2).
Proof.
  apply (@X8_rigid_rods Euler.solver4 DoublePendulum.defaults [0] [PI / 2]
           (@IDP.initial Euler.solver4) 0%nat 0%nat); reflexivity.
Defined.

Lemma scaled_sin_bound (l th : R) : 0 <= l -> - l <= l * sin th <= l.
Proof. intros H. pose proof (SIN_bound th). nra. Qed.

Lemma scaled_cos_bound (l th : R) : 0 <= l -> - l <= l * cos th <= l.
Proof. intros H. pose proof (COS_bound th). nra. Qed.

(** X9.  The plot window of DoublePendulum.py contains the whole pendulum.
    For non-negative rod lengths, every entry of [x1] and [x2] lies strictly
    between the two limits of [set_xlim], every entry of [y1] and [y2]
    strictly between those of [set_ylim], and so does the pivot 0. *)
Theorem X9_double_plot_window
    (p : DoublePendulum.Params) (theta1 theta2 : list R)
    (i : nat) (a b c d : R) :
  0 <= DoublePendulum.l1 p -> 0 <= DoublePendulum.l2 p ->
  nth_error (DoublePendulum.x1 p theta1) i = Some a ->
  nth_error (DoublePendulum.y1 p theta1) i = Some b ->
  nth_error (DoublePendulum.x2 p theta1 theta2) i = Some c ->
  nth_error (DoublePendulum.y2 p theta1 theta2) i = Some d ->
  (fst (DoublePendulum.xlim p) < a < snd (DoublePendulum.xlim p)) /\
  (fst (DoublePendulum.ylim p) < b < snd (DoublePendulum.ylim p)) /\
  (fst (DoublePendulum.xlim p) < c < snd (DoublePendulum.xlim p)) /\
  (fst (DoublePendulum.ylim p) < d < snd (DoublePendulum.ylim p)) /\
  (fst (DoublePendulum.xlim p) < 0 < snd (DoublePendulum.xlim p)) /\
  (fst (DoublePendulum.ylim p) < 0 < snd (DoublePendulum.ylim p)).
Proof.
  intros H1 H2 Ha Hb Hc Hd.
  destruct (animation_frame_inv p theta1 theta2 i a b c d Ha Hb Hc Hd)
    as (th1 & th2 & -> & -> & -> & ->).
  pose proof (scaled_sin_bound _ th1 H1). pose proof (scaled_cos_bound _ th1 H1).
  pose proof (scaled_sin_bound _ th2 H2). pose proof (scaled_cos_bound _ th2 H2).
  unfold DoublePendulum.xlim, DoublePendulum.ylim; simpl.
  repeat split; lra.
Qed.

Lemma X9_double_plot_window_witness :
  let p := DoublePendulum.defaults in
  let a := DoublePendulum.l1 p * sin 0 in
  let b := - DoublePendulum.l1 p * cos 0 in
  let c := a + DoublePendulum.l2 p * sin (PI / 2) in
  let d := b - DoublePendulum.l2 p * cos (PI / 2) in
  (fst (DoublePendulum.xlim p) < a < snd (DoublePendulum.xlim p)) /\
  (fst (DoublePendulum.ylim p) < b < snd (DoublePendulum.ylim p)) /\
  (fst (DoublePendulum.xlim p) < c < snd (DoublePendulum.xlim p)) /\
  (fst (DoublePendulum.ylim p) < d < snd (DoublePendulum.ylim p)) /\
  (fst (DoublePendulum.xlim p) < 0 < snd (DoublePendulum.xlim p)) /\
  (fst (DoublePendulum.ylim p) < 0 < snd (DoublePendulum.ylim p)).
Proof.
  apply (X9_double_plot_window DoublePendulum.defaults [0] [PI / 2] 0%nat);
    try reflexivity; simpl; lra.
Defined.

(** X10.  The plot windows of SimplePendulum.py and DampedPendulum.py contain
    the pendulum: for a non-negative rod length every entry of [x1] and of
    [y1] lies strictly inside the axis limits. *)
Theorem X10_single_plot_window
    (l : R) (p : DampedPendulum.Params) (theta theta' : list R)
    (i j : nat) (a b a' b' : R) :
  0 <= l -> 0 <= DampedPendulum.l p ->
  nth_error (SimplePendulum.x1 l theta) i = Some a ->
  nth_error (SimplePendulum.y1 l theta) i = Some b ->
  nth_error (DampedPendulum.x1 p theta') j = Some a' ->
  nth_error (DampedPendulum.y1 p theta') j = Some b' ->
  (fst (SimplePendulum.xlim l) < a < snd (SimplePendulum.xlim l) /\
   fst (SimplePendulum.ylim l) < b < snd (SimplePendulum.ylim l)) /\
  (fst (DampedPendulum.xlim p) < a' < snd (DampedPendulum.xlim p) /\
   fst (DampedPendulum.ylim p) < b' < snd (DampedPendulum.ylim p)).
Proof.
  intros H1 H2 Ha Hb Ha' Hb'.
  apply nth_error_map_inv in Ha. destruct Ha as (th1 & _ & ->).
  apply nth_error_map_inv in Hb. destruct Hb as (th2 & _ & ->).
  apply nth_error_map_inv in Ha'. destruct Ha' as (th3 & _ & ->).
  apply nth_error_map_inv in Hb'. destruct Hb' as (th4 & _ & ->).
  pose proof (scaled_sin_bound _ th1 H1). pose proof (scaled_cos_bound _ th2 H1).
  pose proof (scaled_sin_bound _ th3 H2). pose proof (scaled_cos_bound _ th4 H2).
  unfold SimplePendulum.xlim, SimplePendulum.ylim,
    DampedPendulum.xlim, DampedPendulum.ylim; simpl.
  repeat split; lra.
Qed.

Lemma X10_single_plot_window_witness :
  let l := SimplePendulum.l_default in
  let p := DampedPendulum.defaults in
  (fst (SimplePendulum.xlim l) < l * sin (PI / 2) < snd (SimplePendulum.xlim l) /\
   fst (SimplePendulum.ylim l) < - l * cos (PI / 2) < snd (SimplePendulum.ylim l)) /\
  (fst (DampedPendulum.xlim p) < DampedPendulum.l p * sin (PI / 2)
   < snd (DampedPendulum.xlim p) /\
   fst (DampedPendulum.ylim p) < - DampedPendulum.l p * cos (PI / 2)
   < snd (DampedPendulum.ylim p)).
Proof.
  apply (X10_single_plot_window SimplePendulum.l_default DampedPendulum.defaults
           [PI / 2] [PI / 2] 0%nat 0%nat);
    try reflexivity; unfold SimplePendulum.l_default; simpl; lra.
Defined.

(** ** The animation callbacks *)

Lemma firstn_succ {A} (l : list A) (n : nat) (v : A) :
  nth_error l n = Some v -> firstn (S n) l = firstn n l ++ [v].
Proof.
  revert n. induction l as [|h t IH]; intros [|n] H; simpl in *; try discriminate.
  - now injection H as ->.
  - f_equal. now apply IH.
Qed.

(** X11.  [update] of DoublePendulum.py.  With four arrays of one length [n],
    for every frame below [n] the callback succeeds; the line it sets runs
    pivot (0, 0), bob 1, bob 2 at that frame; the trace holds exactly the
    positions of bob 2 at the earlier frames, so it has [frame] points, is
    empty at frame 0, does not yet contain the current position, and the
    trace of the next frame is this one with the current position appended.
    At a frame of [n] or more the callback raises IndexError. *)
Theorem X11_update_trace (x1 y1 x2 y2 : list R) (n frame : nat) :
  length x1 = n -> length y1 = n -> length x2 = n -> length y2 = n ->
  (frame < n)%nat ->
  (exists a b c d,
      DoublePendulum.update x1 y1 x2 y2 frame
      = Ok (([0; a; c], [0; b; d]), (firstn frame x2, firstn frame y2)) /\
      nth_error x1 frame = Some a /\ nth_error y1 frame = Some b /\
      nth_error x2 frame = Some c /\ nth_error y2 frame = Some d /\
      length (firstn frame x2) = frame /\ length (firstn frame y2) = frame /\
      firstn (S frame) x2 = firstn frame x2 ++ [c] /\
      firstn (S frame) y2 = firstn frame y2 ++ [d]) /\
  (forall late, (n <= late)%nat ->
      DoublePendulum.update x1 y1 x2 y2 late = IndexError).
Proof.
  intros L1 L2 L3 L4 Hf. split.
  - destruct (getitem_lt x1 frame) as (a & Ga & Na); [lia|].
    destruct (getitem_lt y1 frame) as (b & Gb & Nb); [lia|].
    destruct (getitem_lt x2 frame) as (c & Gc & Nc); [lia|].
    destruct (getitem_lt y2 frame) as (d & Gd & Nd); [lia|].
    exists a, b, c, d. unfold DoublePendulum.update.
    rewrite Ga, Gc, Gb, Gd. simpl.
    repeat split; try assumption.
    + apply firstn_length_le. lia.
    + apply firstn_length_le. lia.
    + now apply firstn_succ.
    + now apply firstn_succ.
  - intros late Hl. unfold DoublePendulum.update, getitem.
    assert (E : nth_error x1 late = None) by (apply nth_error_None; lia).
    now rewrite E.
Qed.

Lemma X11_update_trace_witness :
  (exists a b c d,
      DoublePendulum.update [1; 2] [3; 4] [5; 6] [7; 8] 1
      = Ok (([0; a; c], [0; b; d]), (firstn 1 [5; 6], firstn 1 [7; 8])) /\
      nth_error [1; 2] 1 = Some a /\ nth_error [3; 4] 1 = Some b /\
      nth_error [5; 6] 1 = Some c /\ nth_error [7; 8] 1 = Some d /\
      length (firstn 1 [5; 6]) = 1%nat /\ length (firstn 1 [7; 8]) = 1%nat /\
      firstn 2 [5; 6] = firstn 1 [5; 6] ++ [c] /\
      firstn 2 [7; 8] = firstn 1 [7; 8] ++ [d]) /\
  (forall late, (2 <= late)%nat ->
      DoublePendulum.update [1; 2] [3; 4] [5; 6] [7; 8] late = IndexError).
Proof.
  apply (X11_update_trace [1; 2] [3; 4] [5; 6] [7; 8] 2 1);
    try reflexivity; lia.
Defined.

(** ** [int] *)

Lemma int_nonneg (r : R) :
  0 <= r -> (0 <= Python.int r)%Z /\ IZR (Python.int r) <= r < IZR (Python.int r) + 1.
Proof.
  intros H. unfold Python.int. destruct (Rle_dec 0 r) as [_|N]; [|contradiction].
  destruct (base_Int_part r) as [B1 B2].
  split; [|lra].
  assert (K : (-1 < Int_part r)%Z) by (apply lt_IZR; lra). lia.
Qed.

Lemma int_le_upper (r : R) (n : Z) :
  0 <= r -> r <= IZR n -> (Python.int r <= n)%Z.
Proof.
  intros H Hn. destruct (int_nonneg r H) as (_ & B & _).
  apply le_IZR. lra.
Qed.

Lemma int_ge_lower (r : R) (n : Z) :
  0 <= r -> IZR n <= r -> (n <= Python.int r)%Z.
Proof.
  intros H Hn. destruct (int_nonneg r H) as (_ & _ & B).
  assert (K : (n < Python.int r + 1)%Z) by (apply lt_IZR; rewrite plus_IZR; lra).
  lia.
Qed.

(** Truncation moves a number toward zero. *)
Lemma int_within (r bound : R) :
  - bound <= r <= bound -> - bound <= IZR (Python.int r) <= bound.
Proof.
  intros [Hlo Hhi]. destruct (Rle_dec 0 r) as [P|N].
  - destruct (int_nonneg r P) as (Z0 & B & _).
    apply IZR_le in Z0. lra.
  - unfold Python.int. destruct (Rle_dec 0 r) as [P|_]; [contradiction|].
    destruct (base_Int_part (- r)) as [B1 B2].
    assert (K : (-1 < Int_part (- r))%Z) by (apply lt_IZR; lra).
    assert (K' : 0 <= IZR (Int_part (- r))) by (apply IZR_le; lia).
    rewrite opp_IZR. lra.
Qed.

(** ** The slider handles *)

Lemma double_handle_on_slider (slider : Pygame.Rect) (v lo hi : R) :
  lo < hi -> lo <= v <= hi -> (0 <= Pygame.width slider)%Z ->
  handle_on_slider slider (IDP.draw_slider slider v lo hi).
Proof.
  intros Hlh Hv Hw. unfold handle_on_slider, IDP.draw_slider. simpl.
  set (t := (v - lo) / (hi - lo) * IZR (Pygame.width slider)).
  assert (W : 0 <= IZR (Pygame.width slider)) by (now apply IZR_le).
  assert (Q : 0 <= (v - lo) / (hi - lo) <= 1).
  { split.
    - apply Rmult_le_pos; [lra|]. left. apply Rinv_0_lt_compat. lra.
    - apply (Rmult_le_reg_r (hi - lo)); [lra|].
      unfold Rdiv. rewrite Rmult_assoc, Rinv_l by lra. lra. }
  assert (T : 0 <= t <= IZR (Pygame.width slider)) by (unfold t; nra).
  destruct (int_nonneg t (proj1 T)) as (Z0 & _).
  pose proof (int_le_upper t _ (proj1 T) (proj2 T)).
  repeat split; try reflexivity; lia.
Qed.

Lemma simple_handle_on_slider (slider : Pygame.Rect) (v lo hi : R) :
  lo < hi -> lo <= v <= hi -> (0 <= Pygame.width slider)%Z ->
  handle_on_slider slider (ISP.draw_slider slider v lo hi).
Proof. exact (double_handle_on_slider slider v lo hi). Qed.

(** X12.  The handles stay on their sliders.  In every reachable session of
    either interactive script, each handle rectangle [draw_slider] draws has
    its centre within the horizontal extent of its slider and the slider's
    vertical position and height. *)
Theorem X12_handles_on_sliders
    {solver4 : OdeSolver IDP.Y} {solver2 : OdeSolver ISP.Y}
    (sd : IDP.Session) (ss : ISP.Session) :
  reachable_double sd -> reachable_simple ss ->
  Forall2 handle_on_slider
    [IDP.slider_m1; IDP.slider_l1; IDP.slider_c1;
     IDP.slider_m2; IDP.slider_l2; IDP.slider_c2]
    (IDP.draw_sliders sd) /\
  Forall2 handle_on_slider
    [ISP.slider_m; ISP.slider_l; ISP.slider_b] (ISP.draw_sliders ss).
Proof.
  intros Hd Hs.
  destruct (double_reachable_in_range sd Hd) as [(M1 & M2 & L1 & L2 & C1 & C2) _].
  destruct (simple_reachable_in_range ss Hs) as [(M & L & B) _].
  split; unfold IDP.draw_sliders, ISP.draw_sliders.
  - repeat constructor;
      apply double_handle_on_slider; try assumption; try lra; discriminate.
  - repeat constructor;
      apply simple_handle_on_slider; try assumption; try lra; discriminate.
Qed.

Lemma X12_handles_on_sliders_witness :
  Forall2 handle_on_slider
    [IDP.slider_m1; IDP.slider_l1; IDP.slider_c1;
     IDP.slider_m2; IDP.slider_l2; IDP.slider_c2]
    (IDP.draw_sliders (@IDP.initial Euler.solver4)) /\
  Forall2 handle_on_slider
    [ISP.slider_m; ISP.slider_l; ISP.slider_b]
    (ISP.draw_sliders (@ISP.initial Euler.solver2)).
Proof.
  apply (@X12_handles_on_sliders Euler.solver4 Euler.solver2).
  - apply reach_double_initial.
  - apply reach_simple_initial.
Defined.

(** ** Pointer position against handle position *)

Lemma double_drag_m1 {solver : OdeSolver IDP.Y} (s : IDP.Session) (pos : Z * Z) :
  IDP.dragging s = Some "m1"%string ->
  IDP.m1 (IDP.params (IDP.handle_event (Pygame.MOUSEMOTION pos) s))
  = Numpy.clip (IZR (fst pos - 50) / 300 * 5) (1 / 100) 10.
Proof.
  intros E.
  destruct (double_motion_params s pos) as (H & _).
  cbv zeta in H. now rewrite (H E).
Qed.

Lemma simple_drag_m {solver : OdeSolver ISP.Y} (s : ISP.Session) (pos : Z * Z) :
  ISP.dragging s = Some "m"%string ->
  ISP.m (ISP.params (ISP.handle_event (Pygame.MOUSEMOTION pos) s))
  = Numpy.clip (IZR (fst pos - 50) / 300 * 10) (1 / 100) 10.
Proof.
  intros E.
  destruct (simple_motion_params s pos) as (H & _).
  cbv zeta in H. destruct (H E) as [-> _]. reflexivity.
Qed.

(** X13.  In InteractiveDoublePendulum.py the handle does not follow the
    pointer.  While the mass-1 slider is dragged with the pointer on the
    slider (50 ≤ mouse_x < 350), the move sets m1 below 5 and the next
    [draw_slider] puts the centre of the handle at no more than 500/999 of
    the pointer's offset from the slider's left edge, so never right of
    pixel 199 (the slider spans 50 to 350). *)
Theorem X13_double_handle_lags_pointer {solver : OdeSolver IDP.Y}
    (s : IDP.Session) (pos : Z * Z) :
  IDP.dragging s = Some "m1"%string ->
  (50 <= fst pos < 350)%Z ->
  let s' := IDP.handle_event (Pygame.MOUSEMOTION pos) s in
  let handle := IDP.draw_slider IDP.slider_m1 (IDP.m1 (IDP.params s')) (1 / 100) 10 in
  IDP.m1 (IDP.params s') < 5 /\
  (50 <= Pygame.x handle + 5 <= 199)%Z /\
  IZR (Pygame.x handle + 5 - 50) <= IZR (fst pos - 50) * 500 / 999.
Proof.
  intros E [Hlo Hhi]. cbv zeta.
  rewrite (double_drag_m1 s pos E).
  set (d := IZR (fst pos - 50)).
  assert (Hd : 0 <= d <= 299).
  { unfold d. split; [apply (IZR_le 0) | apply (IZR_le _ 299)]; lia. }
  set (v := Numpy.clip (d / 300 * 5) (1 / 100) 10).
  assert (Hv : 1 / 100 <= v /\ v < 5 /\ v - 1 / 100 <= d / 60).
  { unfold v, Numpy.clip, Rmin, Rmax.
    destruct (Rle_dec (d / 300 * 5) (1 / 100));
      destruct (Rle_dec _ 10); lra. }
  unfold IDP.draw_slider, IDP.slider_m1, IDP.slider_x1, IDP.slider_width.
  cbn [Pygame.x Pygame.width].
  set (t := (v - 1 / 100) / (10 - 1 / 100) * 300).
  assert (Ht : 0 <= t /\ t < 150 /\ t <= d * 500 / 999) by (unfold t; lra).
  destruct (int_nonneg t (proj1 Ht)) as (Z0 & B & _).
  assert (K : (Python.int t < 150)%Z) by (apply lt_IZR; lra).
  split; [lra|]. split; [lia|].
  replace (50 + Python.int t - 5 + 5 - 50)%Z with (Python.int t) by lia.
  lra.
Qed.

Lemma X13_double_handle_lags_pointer_witness :
  let s := IDP.set_dragging (Some "m1"%string) (@IDP.initial Euler.solver4) in
  let s' := @IDP.handle_event Euler.solver4 (Pygame.MOUSEMOTION (349, 660)%Z) s in
  let handle := IDP.draw_slider IDP.slider_m1 (IDP.m1 (IDP.params s')) (1 / 100) 10 in
  IDP.m1 (IDP.params s') < 5 /\
  (50 <= Pygame.x handle + 5 <= 199)%Z /\
  IZR (Pygame.x handle + 5 - 50) <= IZR (fst (349, 660)%Z - 50) * 500 / 999.
Proof.
  apply (@X13_double_handle_lags_pointer Euler.solver4
           (IDP.set_dragging (Some "m1"%string) (@IDP.initial Euler.solver4))
           (349, 660)%Z).
  - reflexivity.
  - simpl; lia.
Defined.

(** X14.  In InteractiveSimplePendulum.py the handle does follow the pointer.
    While the mass slider is dragged with the pointer on the slider
    (51 ≤ mouse_x ≤ 350) the move sets m = (mouse_x − 50) / 30 and the next
    [draw_slider] puts the centre of the handle at the pointer's column or
    one pixel to its left. *)
Theorem X14_simple_handle_follows_pointer {solver : OdeSolver ISP.Y}
    (s : ISP.Session) (pos : Z * Z) :
  ISP.dragging s = Some "m"%string ->
  (51 <= fst pos <= 350)%Z ->
  let s' := ISP.handle_event (Pygame.MOUSEMOTION pos) s in
  let handle := ISP.draw_slider ISP.slider_m (ISP.m (ISP.params s')) (1 / 100) 10 in
  ISP.m (ISP.params s') = IZR (fst pos - 50) / 30 /\
  (fst pos - 1 <= Pygame.x handle + 5 <= fst pos)%Z.
Proof.
  intros E [Hlo Hhi]. cbv zeta.
  rewrite (simple_drag_m s pos E).
  set (d := IZR (fst pos - 50)).
  assert (Hd : 1 <= d <= 300).
  { unfold d. split; [apply (IZR_le 1) | apply (IZR_le _ 300)]; lia. }
  assert (Hv : Numpy.clip (d / 300 * 10) (1 / 100) 10 = d / 30).
  { rewrite clip_inside; lra. }
  rewrite Hv. split; [reflexivity|].
  unfold ISP.draw_slider, ISP.slider_m, ISP.slider_x, ISP.slider_width.
  cbn [Pygame.x Pygame.width].
  set (t := (d / 30 - 1 / 100) / (10 - 1 / 100) * 300).
  assert (Ht : d - 1 <= t <= d) by (unfold t; lra).
  assert (T0 : 0 <= t) by lra.
  assert (U : (Python.int t <= fst pos - 50)%Z)
    by (apply int_le_upper; [assumption|fold d; lra]).
  assert (L : (fst pos - 50 - 1 <= Python.int t)%Z).
  { apply int_ge_lower; [assumption|].
    rewrite minus_IZR. fold d. lra. }
  lia.
Qed.

Lemma X14_simple_handle_follows_pointer_witness :
  let s := ISP.set_dragging (Some "m"%string) (@ISP.initial Euler.solver2) in
  let s' := @ISP.handle_event Euler.solver2 (Pygame.MOUSEMOTION (200, 660)%Z) s in
  let handle := ISP.draw_slider ISP.slider_m (ISP.m (ISP.params s')) (1 / 100) 10 in
  ISP.m (ISP.params s') = IZR (fst (200, 660)%Z - 50) / 30 /\
  (fst (200, 660)%Z - 1 <= Pygame.x handle + 5 <= fst (200, 660)%Z)%Z.
Proof.
  apply (@X14_simple_handle_follows_pointer Euler.solver2
           (ISP.set_dragging (Some "m"%string) (@ISP.initial Euler.solver2))
           (200, 660)%Z).
  - reflexivity.
  - simpl; lia.
Defined.

(** ** Pressing a slider *)

Lemma collide_true (r : Pygame.Rect) (pos : Z * Z) :
  Pygame.collidepoint r pos = true ->
  (Pygame.x r <= fst pos < Pygame.x r + Pygame.width r)%Z /\
  (Pygame.y r <= snd pos < Pygame.y r + Pygame.height r)%Z.
Proof.
  unfold Pygame.collidepoint.
  rewrite !andb_true_iff, !Z.leb_le, !Z.ltb_lt. tauto.
Qed.

Ltac slider_geometry :=
  repeat match goal with
         | H : Pygame.collidepoint _ _ = true |- _ => apply collide_true in H
         end;
  cbv [IDP.slider_m1 IDP.slider_l1 IDP.slider_c1
       IDP.slider_m2 IDP.slider_l2 IDP.slider_c2
       IDP.slider_x1 IDP.slider_x2 IDP.slider_y_start IDP.slider_spacing
       IDP.slider_width IDP.slider_height
       ISP.slider_m ISP.slider_l ISP.slider_b
       ISP.slider_x ISP.slider_y_start ISP.slider_spacing
       ISP.slider_width ISP.slider_height
       Pygame.x Pygame.y Pygame.width Pygame.height] in *.

(** X15.  A press picks the slider under the pointer.  The six slider
    rectangles of InteractiveDoublePendulum.py are pairwise disjoint, so at
    most one contains the pressed point; if one does, [dragging] becomes its
    name, whatever the order of the [elif] chain; if none does, the session
    is unchanged (a drag in progress is not cancelled).  A press never
    changes a parameter, the frame index or the solver log. *)
Theorem X15_double_press_selects_slider {solver : OdeSolver IDP.Y}
    (s : IDP.Session) (pos : Z * Z) :
  let s' := IDP.handle_event (Pygame.MOUSEBUTTONDOWN pos) s in
  (length (sliders_at double_sliders pos) <= 1)%nat /\
  Forall (fun nr => Pygame.collidepoint (snd nr) pos = true ->
                    IDP.dragging s' = Some (fst nr)) double_sliders /\
  (sliders_at double_sliders pos = [] -> s' = s) /\
  IDP.params s' = IDP.params s /\ IDP.frame s' = IDP.frame s /\
  IDP.solve_calls s' = IDP.solve_calls s.
Proof.
  cbv zeta. unfold sliders_at, double_sliders, IDP.handle_event.
  cbn [filter snd fst].
  destruct (Pygame.collidepoint IDP.slider_m1 pos) eqn:E1;
    destruct (Pygame.collidepoint IDP.slider_l1 pos) eqn:E2;
    destruct (Pygame.collidepoint IDP.slider_c1 pos) eqn:E3;
    destruct (Pygame.collidepoint IDP.slider_m2 pos) eqn:E4;
    destruct (Pygame.collidepoint IDP.slider_l2 pos) eqn:E5;
    destruct (Pygame.collidepoint IDP.slider_c2 pos) eqn:E6;
    try (exfalso; slider_geometry; lia);
    (split; [cbn [length]; lia|]);
    (split; [repeat (apply Forall_cons;
                      [cbn [fst snd]; intros C; first [reflexivity | congruence]|]);
             apply Forall_nil|]);
    (split; [intros; try discriminate; reflexivity|]);
    repeat split; reflexivity.
Qed.

(** X16.  The same for the three sliders of InteractiveSimplePendulum.py. *)
Theorem X16_simple_press_selects_slider {solver : OdeSolver ISP.Y}
    (s : ISP.Session) (pos : Z * Z) :
  let s' := ISP.handle_event (Pygame.MOUSEBUTTONDOWN pos) s in
  (length (sliders_at simple_sliders pos) <= 1)%nat /\
  Forall (fun nr => Pygame.collidepoint (snd nr) pos = true ->
                    ISP.dragging s' = Some (fst nr)) simple_sliders /\
  (sliders_at simple_sliders pos = [] -> s' = s) /\
  ISP.params s' = ISP.params s /\ ISP.frame s' = ISP.frame s /\
  ISP.solve_calls s' = ISP.solve_calls s.
Proof.
  cbv zeta. unfold sliders_at, simple_sliders, ISP.handle_event.
  cbn [filter snd fst].
  destruct (Pygame.collidepoint ISP.slider_m pos) eqn:E1;
    destruct (Pygame.collidepoint ISP.slider_l pos) eqn:E2;
    destruct (Pygame.collidepoint ISP.slider_b pos) eqn:E3;
    try (exfalso; slider_geometry; lia);
    (split; [cbn [length]; lia|]);
    (split; [repeat (apply Forall_cons;
                      [cbn [fst snd]; intros C; first [reflexivity | congruence]|]);
             apply Forall_nil|]);
    (split; [intros; try discriminate; reflexivity|]);
    repeat split; reflexivity.
Qed.

(** ** What the sliders can and cannot set *)

Lemma double_press_keeps {solver : OdeSolver IDP.Y} (s : IDP.Session) (pos : Z * Z) :
  IDP.params (IDP.handle_event (Pygame.MOUSEBUTTONDOWN pos) s) = IDP.params s /\
  IDP.solve_calls (IDP.handle_event (Pygame.MOUSEBUTTONDOWN pos) s)
  = IDP.solve_calls s /\
  IDP.running (IDP.handle_event (Pygame.MOUSEBUTTONDOWN pos) s) = IDP.running s.
Proof.
  unfold IDP.handle_event.
  repeat match goal with
         | |- context [if ?b then _ else _] => destruct b
         end; repeat split; reflexivity.
Qed.

Lemma double_event_right_column {solver : OdeSolver IDP.Y}
    (e : Pygame.Event) (s : IDP.Session) :
  in_window e ->
  IDP.m2 (IDP.params s) <= 349 / 60 /\ IDP.l2 (IDP.params s) <= 349 / 60 ->
  IDP.m2 (IDP.params (IDP.handle_event e s)) <= 349 / 60 /\
  IDP.l2 (IDP.params (IDP.handle_event e s)) <= 349 / 60.
Proof.
  intros W H. destruct e as [|pos|pos|pos|]; try assumption.
  - destruct (double_press_keeps s pos) as [-> _]. assumption.
  - destruct W as [[W1 W2] _]. unfold IDP.WIDTH in W2.
    assert (D : IZR (fst pos - 450) <= 349) by (apply (IZR_le _ 349); lia).
    assert (V : Numpy.clip (IZR (fst pos - 450) / 300 * 5) (1 / 100) 10 <= 349 / 60).
    { unfold Numpy.clip, Rmin, Rmax.
      destruct (Rle_dec (IZR (fst pos - 450) / 300 * 5) (1 / 100));
        destruct (Rle_dec _ 10); lra. }
    unfold IDP.handle_event.
    destruct (IDP.dragging s) as [d|]; [|assumption].
    cbv zeta.
    unfold IDP.slider_m1, IDP.slider_l1, IDP.slider_c1,
      IDP.slider_m2, IDP.slider_l2, IDP.slider_c2,
      IDP.slider_x1, IDP.slider_x2, IDP.slider_width.
    cbn [Pygame.x Pygame.width].
    repeat match goal with
           | |- context [if ?b then _ else _] => destruct b
           end; cbn [IDP.params IDP.set_params IDP.m2 IDP.l2
                      IDP.set_m1 IDP.set_l1 IDP.set_c1
                      IDP.set_m2 IDP.set_l2 IDP.set_c2];
      try assumption; split; try tauto; exact V.
Qed.

(** X17.  The right-hand sliders cannot reach their upper clamp.  If every
    event of a session carries a position inside the 800 x 800 window, then
    after any sequence of events m2 and l2 are at most 349/60 (about 5.82),
    although their sliders clamp to, and are drawn for, the range up to 10;
    and so is every m2 and l2 a solve has read. *)
Theorem X17_right_column_below_clamp {solver : OdeSolver IDP.Y}
    (events : list Pygame.Event) :
  Forall in_window events ->
  let s := IDP.handle_events events IDP.initial in
  (IDP.m2 (IDP.params s) <= 349 / 60 /\ IDP.l2 (IDP.params s) <= 349 / 60) /\
  Forall (fun p => IDP.m2 p <= 349 / 60 /\ IDP.l2 p <= 349 / 60)
         (IDP.solve_calls s).
Proof.
  intros W. cbv zeta. unfold IDP.handle_events.
  assert (G : forall s0 : IDP.Session,
             (IDP.m2 (IDP.params s0) <= 349 / 60 /\
              IDP.l2 (IDP.params s0) <= 349 / 60) /\
             Forall (fun p => IDP.m2 p <= 349 / 60 /\ IDP.l2 p <= 349 / 60)
                    (IDP.solve_calls s0) ->
             let s1 := fold_left (fun acc e => IDP.handle_event e acc) events s0 in
             (IDP.m2 (IDP.params s1) <= 349 / 60 /\
              IDP.l2 (IDP.params s1) <= 349 / 60) /\
             Forall (fun p => IDP.m2 p <= 349 / 60 /\ IDP.l2 p <= 349 / 60)
                    (IDP.solve_calls s1)).
  { induction W as [|e rest We Wrest IH]; intros s0 [Hp Hc]; cbn [fold_left].
    - now split.
    - apply IH. split; [now apply double_event_right_column|].
      destruct (double_event_solve_calls e s0) as [-> | ->]; [assumption|].
      apply Forall_app. split; [assumption|]. now constructor. }
  apply G. split.
  - unfold IDP.initial. cbn [IDP.params IDP.initial_params IDP.m2 IDP.l2]. lra.
  - unfold IDP.initial. cbn [IDP.solve_calls]. constructor; [|constructor].
    cbn [IDP.initial_params IDP.m2 IDP.l2]. lra.
Qed.

Lemma X17_right_column_below_clamp_witness :
  let events :=
    [Pygame.MOUSEBUTTONDOWN (460, 655)%Z; Pygame.MOUSEMOTION (799, 655)%Z;
     Pygame.MOUSEBUTTONUP (799, 655)%Z] in
  let s := @IDP.handle_events Euler.solver4 events (@IDP.initial Euler.solver4) in
  (IDP.m2 (IDP.params s) <= 349 / 60 /\ IDP.l2 (IDP.params s) <= 349 / 60) /\
  Forall (fun p => IDP.m2 p <= 349 / 60 /\ IDP.l2 p <= 349 / 60)
         (IDP.solve_calls s).
Proof.
  apply (@X17_right_column_below_clamp Euler.solver4
           [Pygame.MOUSEBUTTONDOWN (460, 655)%Z; Pygame.MOUSEMOTION (799, 655)%Z;
            Pygame.MOUSEBUTTONUP (799, 655)%Z]).
  repeat constructor; unfold IDP.WIDTH, IDP.HEIGHT; simpl; lia.
Defined.

(** ** What InteractiveSimplePendulum.py never updates *)

Lemma simple_event_keeps {solver : OdeSolver ISP.Y}
    (e : Pygame.Event) (s : ISP.Session) :
  ISP.b (ISP.params (ISP.handle_event e s)) = ISP.b (ISP.params s) /\
  ISP.theta (ISP.handle_event e s) = ISP.theta s.
Proof.
  destruct e as [|pos|pos|pos|]; unfold ISP.handle_event;
    try (split; reflexivity).
  - repeat match goal with
           | |- context [if ?b then _ else _] => destruct b
           end; split; reflexivity.
  - destruct (ISP.dragging s) as [d|]; [|split; reflexivity].
    cbv zeta.
    repeat match goal with
           | |- context [if ?b then _ else _] => destruct b
           end; split; reflexivity.
Qed.

Lemma simple_draw_keeps_theta (s s' : ISP.Session) f :
  ISP.draw_pendulum s = Ok (s', f) -> ISP.theta s' = ISP.theta s.
Proof.
  unfold ISP.draw_pendulum.
  destruct (ISP.frame s <? length ISP.t_eval)%nat.
  - destruct (getitem (ISP.x1 s) (ISP.frame s)); [|discriminate].
    destruct (getitem (ISP.y1 s) (ISP.frame s)); [|discriminate].
    simpl. now intros [= <- _].
  - now intros [= <- _].
Qed.

(** X18.  The interactive simple pendulum is never damped.  No event changes
    [b]: in every reachable session b is 0, every solve has read b = 0, and
    [SimplePemdulum] with the session's parameters is the undamped
    [SimplePendulum] of SimplePendulum.py with the session's length. *)
Theorem X18_simple_session_undamped {solver : OdeSolver ISP.Y}
    (s : ISP.Session) (t theta omega : R) :
  reachable_simple s ->
  ISP.b (ISP.params s) = 0 /\
  Forall (fun p => ISP.b p = 0) (ISP.solve_calls s) /\
  ISP.SimplePemdulum (ISP.params s) t (theta, omega)
  = SimplePendulum.SimplePendulum (ISP.l (ISP.params s)) t (theta, omega).
Proof.
  intros Hr.
  assert (G : ISP.b (ISP.params s) = 0 /\
              Forall (fun p => ISP.b p = 0) (ISP.solve_calls s)).
  { induction Hr as [|e s Hs [IHb IHc]|s s' f Hs [IHb IHc] Hd].
    - split; [reflexivity|]. constructor; [reflexivity|constructor].
    - destruct (simple_event_keeps e s) as [Eb _]. split; [congruence|].
      destruct (simple_event_solve_calls e s) as [-> | ->]; [assumption|].
      apply Forall_app. split; [assumption|]. now constructor.
    - apply simple_draw_keeps in Hd. destruct Hd as (-> & -> & _). now split. }
  destruct G as [Gb Gc]. repeat split; try assumption.
  unfold ISP.SimplePemdulum, SimplePendulum.SimplePendulum.
  rewrite Gb. f_equal. unfold Rdiv. ring.
Qed.

Lemma X18_simple_session_undamped_witness :
  let s :=
    @ISP.handle_event Euler.solver2 (Pygame.MOUSEBUTTONUP (200, 750)%Z)
      (@ISP.handle_event Euler.solver2 (Pygame.MOUSEMOTION (200, 750)%Z)
         (@ISP.handle_event Euler.solver2 (Pygame.MOUSEBUTTONDOWN (200, 750)%Z)
            (@ISP.initial Euler.solver2))) in
  ISP.b (ISP.params s) = 0 /\
  Forall (fun p => ISP.b p = 0) (ISP.solve_calls s) /\
  ISP.SimplePemdulum (ISP.params s) 0 (PI / 2, 1)
  = SimplePendulum.SimplePendulum (ISP.l (ISP.params s)) 0 (PI / 2, 1).
Proof.
  apply (@X18_simple_session_undamped Euler.solver2).
  do 3 apply reach_simple_event. apply reach_simple_initial.
Defined.

(** X19.  The module-level [theta] of InteractiveSimplePendulum.py is never
    refreshed.  [update_simulation] binds a local of that name, so in every
    reachable session [theta] still holds the angles of the solve done at
    start-up, while [x1] and [y1] after a re-solve come from the new
    solution. *)
Theorem X19_simple_theta_is_stale {solver : OdeSolver ISP.Y} (s : ISP.Session) :
  reachable_simple s ->
  ISP.theta s
  = map fst (solve_ivp (ISP.SimplePemdulum ISP.initial_params)
               ISP.t_span ISP.y0 ISP.t_eval) /\
  ISP.x1 (ISP.update_simulation s)
  = map (fun th => ISP.l (ISP.params s) * sin th)
      (map fst (solve_ivp (ISP.SimplePemdulum (ISP.params s))
                  ISP.t_span ISP.y0 ISP.t_eval)) /\
  ISP.theta (ISP.update_simulation s) = ISP.theta s.
Proof.
  intros Hr. split; [|split; reflexivity].
  induction Hr as [|e s Hs IH|s s' f Hs IH Hd].
  - reflexivity.
  - destruct (simple_event_keeps e s) as [_ ->]. assumption.
  - rewrite (simple_draw_keeps_theta s s' f Hd). assumption.
Qed.

Lemma X19_simple_theta_is_stale_witness :
  let s :=
    @ISP.handle_event Euler.solver2 (Pygame.MOUSEBUTTONUP (200, 700)%Z)
      (@ISP.handle_event Euler.solver2 (Pygame.MOUSEMOTION (200, 700)%Z)
         (@ISP.handle_event Euler.solver2 (Pygame.MOUSEBUTTONDOWN (200, 700)%Z)
            (@ISP.initial Euler.solver2))) in
  ISP.theta s
  = map fst (@solve_ivp _ Euler.solver2 (ISP.SimplePemdulum ISP.initial_params)
               ISP.t_span ISP.y0 ISP.t_eval) /\
  ISP.x1 (@ISP.update_simulation Euler.solver2 s)
  = map (fun th => ISP.l (ISP.params s) * sin th)
      (map fst (@solve_ivp _ Euler.solver2 (ISP.SimplePemdulum (ISP.params s))
                  ISP.t_span ISP.y0 ISP.t_eval)) /\
  ISP.theta (@ISP.update_simulation Euler.solver2 s) = ISP.theta s.
Proof.
  apply (@X19_simple_theta_is_stale Euler.solver2).
  do 3 apply reach_simple_event. apply reach_simple_initial.
Defined.

(** ** The main loop as a whole *)

Section DoubleLoop.
Context {solver : OdeSolver IDP.Y}.

Lemma double_event_running (e : Pygame.Event) (s : IDP.Session) :
  IDP.running (IDP.handle_event e s)
  = match e with Pygame.QUIT => false | _ => IDP.running s end.
Proof.
  destruct e as [|pos|pos|pos|]; try reflexivity.
  - now destruct (double_press_keeps s pos) as (_ & _ & ->).
  - now destruct (double_motion_frame s pos) as (_ & _ & _ & _ & _ & _ & _ & _ & _ & -> & _).
Qed.

Lemma double_events_stay_stopped (events : list Pygame.Event) :
  forall s, IDP.running s = false ->
            IDP.running (IDP.handle_events events s) = false.
Proof.
  unfold IDP.handle_events.
  induction events as [|e rest IH]; intros s H; cbn [fold_left]; [assumption|].
  apply IH. rewrite double_event_running. now destruct e.
Qed.

Lemma double_events_quit (events : list Pygame.Event) :
  forall s, In Pygame.QUIT events ->
            IDP.running (IDP.handle_events events s) = false.
Proof.
  induction events as [|e rest IH]; intros s Hin; [contradiction|].
  destruct Hin as [-> | Hin].
  - change (IDP.running
              (IDP.handle_events rest (IDP.handle_event Pygame.QUIT s)) = false).
    now apply double_events_stay_stopped.
  - change (IDP.running (IDP.handle_events rest (IDP.handle_event e s)) = false).
    now apply IH.
Qed.

Lemma double_event_calls (e : Pygame.Event) (s : IDP.Session) :
  IDP.solve_calls (IDP.handle_event e s)
  = if Pygame.is_MOUSEBUTTONUP e
    then IDP.solve_calls s ++ [IDP.params s] else IDP.solve_calls s.
Proof.
  destruct e as [|pos|pos|pos|]; try reflexivity.
  - now destruct (double_press_keeps s pos) as (_ & -> & _).
  - now destruct (double_motion_frame s pos)
      as (_ & _ & _ & _ & _ & _ & _ & _ & _ & _ & ->).
Qed.

Lemma double_events_count (events : list Pygame.Event) :
  forall s, length (IDP.solve_calls (IDP.handle_events events s))
            = (length (IDP.solve_calls s) + count_releases events)%nat.
Proof.
  unfold IDP.handle_events, count_releases.
  induction events as [|e rest IH]; intros s; cbn [fold_left filter].
  - simpl. lia.
  - rewrite IH, double_event_calls.
    destruct (Pygame.is_MOUSEBUTTONUP e); cbn [length].
    + rewrite length_app. simpl. lia.
    + lia.
Qed.

Hypothesis samples : solve_ivp_samples solver.

Lemma double_events_complete (events : list Pygame.Event) :
  forall s, arrays_complete_double s ->
            arrays_complete_double (IDP.handle_events events s).
Proof.
  unfold IDP.handle_events.
  induction events as [|e rest IH]; intros s H; cbn [fold_left]; [assumption|].
  apply IH. now apply double_event_complete.
Qed.

Lemma double_draw_total (s : IDP.Session) :
  arrays_complete_double s ->
  exists r, IDP.draw_pendulum s = Ok r /\
            arrays_complete_double (fst r) /\
            IDP.running (fst r) = IDP.running s.
Proof.
  intros Hc.
  destruct (Nat.lt_ge_cases (IDP.frame s) (length IDP.t_eval)) as [Hlt|Hge].
  - destruct (double_draw_advances s Hc Hlt) as (a & b & c & d & Hd & _).
    eexists. split; [exact Hd|]. split; [exact Hc|reflexivity].
  - eexists. split; [apply double_draw_holds; assumption|]. now split.
Qed.

Lemma double_main_loop_total (batches : list (list Pygame.Event)) :
  forall s, arrays_complete_double s ->
            exists r, IDP.main_loop batches s = Ok r /\
                      (length (snd r) <= length batches)%nat.
Proof.
  induction batches as [|events rest IH]; intros s Hc; cbn [IDP.main_loop].
  - eexists. split; [reflexivity|]. simpl. lia.
  - destruct (IDP.running s).
    + unfold IDP.loop_body.
      destruct (double_draw_total (IDP.handle_events events s))
        as (r & Hd & Hc' & _); [now apply double_events_complete|].
      rewrite Hd. cbn [bind].
      destruct (IH (fst r) Hc') as (rs & Hm & Hl).
      rewrite Hm. cbn [bind]. eexists. split; [reflexivity|].
      cbn [snd length]. lia.
    + eexists. split; [reflexivity|]. simpl. lia.
Qed.

End DoubleLoop.

Section SimpleLoop.
Context {solver : OdeSolver ISP.Y}.

Lemma simple_press_keeps (s : ISP.Session) (pos : Z * Z) :
  ISP.params (ISP.handle_event (Pygame.MOUSEBUTTONDOWN pos) s) = ISP.params s /\
  ISP.solve_calls (ISP.handle_event (Pygame.MOUSEBUTTONDOWN pos) s)
  = ISP.solve_calls s /\
  ISP.running (ISP.handle_event (Pygame.MOUSEBUTTONDOWN pos) s) = ISP.running s.
Proof.
  unfold ISP.handle_event.
  repeat match goal with
         | |- context [if ?b then _ else _] => destruct b
         end; repeat split; reflexivity.
Qed.

Lemma simple_event_calls (e : Pygame.Event) (s : ISP.Session) :
  ISP.solve_calls (ISP.handle_event e s)
  = if Pygame.is_MOUSEBUTTONUP e
    then ISP.solve_calls s ++ [ISP.params s] else ISP.solve_calls s.
Proof.
  destruct e as [|pos|pos|pos|]; try reflexivity.
  - now destruct (simple_press_keeps s pos) as (_ & -> & _).
  - now destruct (simple_motion_frame s pos) as (_ & _ & _ & _ & _ & _ & _ & ->).
Qed.

Lemma simple_events_count (events : list Pygame.Event) :
  forall s, length (ISP.solve_calls (ISP.handle_events events s))
            = (length (ISP.solve_calls s) + count_releases events)%nat.
Proof.
  unfold ISP.handle_events, count_releases.
  induction events as [|e rest IH]; intros s; cbn [fold_left filter].
  - simpl. lia.
  - rewrite IH, simple_event_calls.
    destruct (Pygame.is_MOUSEBUTTONUP e); cbn [length].
    + rewrite length_app. simpl. lia.
    + lia.
Qed.

Hypothesis samples : solve_ivp_samples solver.

Lemma simple_events_complete (events : list Pygame.Event) :
  forall s, arrays_complete_simple s ->
            arrays_complete_simple (ISP.handle_events events s).
Proof.
  unfold ISP.handle_events.
  induction events as [|e rest IH]; intros s H; cbn [fold_left]; [assumption|].
  apply IH. now apply simple_event_complete.
Qed.

Lemma simple_draw_total (s : ISP.Session) :
  arrays_complete_simple s ->
  exists r, ISP.draw_pendulum s = Ok r /\ arrays_complete_simple (fst r).
Proof.
  intros Hc.
  destruct (Nat.lt_ge_cases (ISP.frame s) (length ISP.t_eval)) as [Hlt|Hge].
  - destruct (simple_draw_advances s Hc Hlt) as (a & b & Hd & _).
    eexists. split; [exact Hd|exact Hc].
  - eexists. split; [apply simple_draw_holds; assumption|assumption].
Qed.

Lemma simple_main_loop_total (batches : list (list Pygame.Event)) :
  forall s, arrays_complete_simple s ->
            exists r, ISP.main_loop batches s = Ok r /\
                      (length (snd r) <= length batches)%nat.
Proof.
  induction batches as [|events rest IH]; intros s Hc; cbn [ISP.main_loop].
  - eexists. split; [reflexivity|]. simpl. lia.
  - destruct (ISP.running s).
    + unfold ISP.loop_body.
      destruct (simple_draw_total (ISP.handle_events events s))
        as (r & Hd & Hc'); [now apply simple_events_complete|].
      rewrite Hd. cbn [bind].
      destruct (IH (fst r) Hc') as (rs & Hm & Hl).
      rewrite Hm. cbn [bind]. eexists. split; [reflexivity|].
      cbn [snd length]. lia.
    + eexists. split; [reflexivity|]. simpl. lia.
Qed.

End SimpleLoop.

(** X20.  The main loops never index past a position array.  If [solve_ivp]
    returns one state per evaluation time, then from every reachable session
    of either interactive script, whatever batches of events arrive, the main
    loop runs to its end without IndexError, drawing at most one pass per
    batch. *)
Theorem X20_main_loop_never_raises
    (solver4 : OdeSolver IDP.Y) (solver2 : OdeSolver ISP.Y)
    (sd : IDP.Session) (ss : ISP.Session)
    (batches : list (list Pygame.Event)) :
  solve_ivp_samples solver4 -> solve_ivp_samples solver2 ->
  reachable_double sd -> reachable_simple ss ->
  (exists r, IDP.main_loop batches sd = Ok r /\
             (length (snd r) <= length batches)%nat) /\
  (exists r, ISP.main_loop batches ss = Ok r /\
             (length (snd r) <= length batches)%nat).
Proof.
  intros H4 H2 Hd Hs. split.
  - apply (double_main_loop_total H4).
    now apply (double_reachable_complete H4).
  - apply (simple_main_loop_total H2).
    now apply (simple_reachable_complete H2).
Qed.

Lemma X20_main_loop_never_raises_witness :
  let batches :=
    [[Pygame.MOUSEBUTTONDOWN (60, 655)%Z]; [Pygame.MOUSEMOTION (300, 655)%Z];
     [Pygame.MOUSEBUTTONUP (300, 655)%Z]; []; [Pygame.QUIT]] in
  (exists r, @IDP.main_loop Euler.solver4 batches (@IDP.initial Euler.solver4)
             = Ok r /\ (length (snd r) <= length batches)%nat) /\
  (exists r, @ISP.main_loop Euler.solver2 batches (@ISP.initial Euler.solver2)
             = Ok r /\ (length (snd r) <= length batches)%nat).
Proof.
  apply (X20_main_loop_never_raises Euler.solver4 Euler.solver2).
  - exact euler_solver4_samples.
  - exact euler_solver2_samples.
  - apply reach_double_initial.
  - apply reach_simple_initial.
Defined.

(** X21.  QUIT ends the loop after the current pass.  In a running session
    of InteractiveDoublePendulum.py, a batch that contains QUIT is still
    handled to its last event and its pass is still drawn; [running] is then
    false, and no later batch is handled or drawn. *)
Theorem X21_quit_ends_after_pass {solver : OdeSolver IDP.Y}
    (s : IDP.Session) (events : list Pygame.Event)
    (rest : list (list Pygame.Event)) :
  solve_ivp_samples solver ->
  reachable_double s ->
  IDP.running s = true ->
  In Pygame.QUIT events ->
  exists r,
    IDP.loop_body events s = Ok r /\
    IDP.running (fst r) = false /\
    IDP.main_loop (events :: rest) s = Ok (fst r, [snd r]).
Proof.
  intros Hs Hr Hrun Hq.
  pose proof (double_reachable_complete Hs s Hr) as Hc.
  destruct (double_draw_total (IDP.handle_events events s))
    as (r & Hd & Hc' & Hrun'); [now apply (double_events_complete Hs)|].
  rewrite (double_events_quit events s Hq) in Hrun'.
  exists r. unfold IDP.loop_body. split; [exact Hd|]. split; [exact Hrun'|].
  cbn [IDP.main_loop]. rewrite Hrun. unfold IDP.loop_body.
  rewrite Hd. cbn [bind].
  destruct rest as [|b rest']; cbn [IDP.main_loop]; [reflexivity|].
  rewrite Hrun'. reflexivity.
Qed.

Lemma X21_quit_ends_after_pass_witness :
  exists r,
    @IDP.loop_body Euler.solver4
      [Pygame.QUIT; Pygame.MOUSEBUTTONUP (400, 400)%Z] (@IDP.initial Euler.solver4)
    = Ok r /\
    IDP.running (fst r) = false /\
    @IDP.main_loop Euler.solver4
      ([Pygame.QUIT; Pygame.MOUSEBUTTONUP (400, 400)%Z]
         :: [[Pygame.MOUSEBUTTONUP (400, 400)%Z]])
      (@IDP.initial Euler.solver4)
    = Ok (fst r, [snd r]).
Proof.
  apply (@X21_quit_ends_after_pass Euler.solver4).
  - exact euler_solver4_samples.
  - apply reach_double_initial.
  - reflexivity.
  - left. reflexivity.
Defined.

(** X22.  One solve per release, and no other.  In both interactive scripts,
    handling a batch of events calls [solve_ivp] exactly as many times as the
    batch has mouse-button-up events: presses, moves and QUIT never solve. *)
Theorem X22_one_solve_per_release :
  (forall (solver : OdeSolver IDP.Y) (events : list Pygame.Event) (s : IDP.Session),
      length (IDP.solve_calls (IDP.handle_events events s))
      = (length (IDP.solve_calls s) + count_releases events)%nat) /\
  (forall (solver : OdeSolver ISP.Y) (events : list Pygame.Event) (s : ISP.Session),
      length (ISP.solve_calls (ISP.handle_events events s))
      = (length (ISP.solve_calls s) + count_releases events)%nat).
Proof.
  split; intros solver events s.
  - apply double_events_count.
  - apply simple_events_count.
Qed.

(** ** Where the pendulum is drawn on screen *)

(** X23.  On screen each bob stays within its rod's reach of the window
    centre.  For the position frames of a solve with non-negative rod
    lengths, the shapes drawn are two lines (centre to bob 1, bob 1 to bob 2)
    and two circles, and both pixel coordinates of bob 1 lie within 100·l1 of
    400, those of bob 2 within 100·(l1 + l2) of 400. *)
Theorem X23_bobs_within_reach {solver : OdeSolver IDP.Y}
    (s : IDP.Session) (j : nat) (a b c d : R) :
  0 <= IDP.l1 (IDP.params s) -> 0 <= IDP.l2 (IDP.params s) ->
  nth_error (IDP.x1 (IDP.update_simulation s)) j = Some a ->
  nth_error (IDP.y1 (IDP.update_simulation s)) j = Some b ->
  nth_error (IDP.x2 (IDP.update_simulation s)) j = Some c ->
  nth_error (IDP.y2 (IDP.update_simulation s)) j = Some d ->
  exists bob1 bob2 : Z * Z,
    IDP.pendulum_shapes (a, b, c, d)
    = [Pygame.Line (400, 400)%Z bob1 2; Pygame.Line bob1 bob2 2;
       Pygame.Circle bob1 10; Pygame.Circle bob2 10] /\
    (400 - 100 * IDP.l1 (IDP.params s) <= IZR (fst bob1)
     <= 400 + 100 * IDP.l1 (IDP.params s)) /\
    (400 - 100 * IDP.l1 (IDP.params s) <= IZR (snd bob1)
     <= 400 + 100 * IDP.l1 (IDP.params s)) /\
    (400 - 100 * (IDP.l1 (IDP.params s) + IDP.l2 (IDP.params s)) <= IZR (fst bob2)
     <= 400 + 100 * (IDP.l1 (IDP.params s) + IDP.l2 (IDP.params s))) /\
    (400 - 100 * (IDP.l1 (IDP.params s) + IDP.l2 (IDP.params s)) <= IZR (snd bob2)
     <= 400 + 100 * (IDP.l1 (IDP.params s) + IDP.l2 (IDP.params s))).
Proof.
  intros H1 H2 Ha Hb Hc Hd.
  destruct (interactive_frame_inv s j a b c d Ha Hb Hc Hd)
    as (th1 & th2 & -> & -> & -> & ->).
  set (l1 := IDP.l1 (IDP.params s)) in *.
  set (l2 := IDP.l2 (IDP.params s)) in *.
  pose proof (scaled_sin_bound l1 th1 H1) as S1.
  pose proof (scaled_cos_bound l1 th1 H1) as C1.
  pose proof (scaled_sin_bound l2 th2 H2) as S2.
  pose proof (scaled_cos_bound l2 th2 H2) as C2.
  unfold IDP.pendulum_shapes.
  change (IDP.WIDTH / 2)%Z with 400%Z. change (IDP.HEIGHT / 2)%Z with 400%Z.
  do 2 eexists. split; [reflexivity|]. cbn [fst snd].
  rewrite !plus_IZR.
  pose proof (int_within (100 * (l1 * sin th1)) (100 * l1)) as B1.
  pose proof (int_within (100 * (l1 * cos th1)) (100 * l1)) as B2.
  pose proof (int_within (100 * (l1 * sin th1 + l2 * sin th2)) (100 * (l1 + l2))) as B3.
  pose proof (int_within (100 * (l1 * cos th1 + l2 * cos th2)) (100 * (l1 + l2))) as B4.
  repeat split; lra.
Qed.

Lemma X23_bobs_within_reach_witness :
  let s := @IDP.initial Euler.solver4 in
  let l1 := IDP.l1 (IDP.params s) in
  let l2 := IDP.l2 (IDP.params s) in
  let a := l1 * sin (PI / 2) in
  let b := l1 * cos (PI / 2) in
  let c := a + l2 * sin (PI / 2) in
  let d := b + l2 * cos (PI / 2) in
  exists bob1 bob2 : Z * Z,
    IDP.pendulum_shapes (a, b, c, d)
    = [Pygame.Line (400, 400)%Z bob1 2; Pygame.Line bob1 bob2 2;
       Pygame.Circle bob1 10; Pygame.Circle bob2 10] /\
    (400 - 100 * l1 <= IZR (fst bob1) <= 400 + 100 * l1) /\
    (400 - 100 * l1 <= IZR (snd bob1) <= 400 + 100 * l1) /\
    (400 - 100 * (l1 + l2) <= IZR (fst bob2) <= 400 + 100 * (l1 + l2)) /\
    (400 - 100 * (l1 + l2) <= IZR (snd bob2) <= 400 + 100 * (l1 + l2)).
Proof.
  apply (@X23_bobs_within_reach Euler.solver4 (@IDP.initial Euler.solver4) 0%nat);
    try reflexivity; simpl; lra.
Defined.

(** X24.  [update] of SimplePendulum.py and of DampedPendulum.py.  With two
    arrays of one length [n], for every frame below [n] the callback
    succeeds; the line runs from the pivot (0, 0) to the bob at that frame;
    the trace holds exactly the bob's positions at the earlier frames and
    grows by the current position at the next frame.  At a frame of [n] or
    more both callbacks raise IndexError. *)
Theorem X24_single_update_trace (x1 y1 : list R) (n frame : nat) :
  length x1 = n -> length y1 = n -> (frame < n)%nat ->
  (exists a b,
      SimplePendulum.update x1 y1 frame
      = Ok (([0; a], [0; b]), (firstn frame x1, firstn frame y1)) /\
      DampedPendulum.update x1 y1 frame
      = Ok (([0; a], [0; b]), (firstn frame x1, firstn frame y1)) /\
      nth_error x1 frame = Some a /\ nth_error y1 frame = Some b /\
      length (firstn frame x1) = frame /\ length (firstn frame y1) = frame /\
      firstn (S frame) x1 = firstn frame x1 ++ [a] /\
      firstn (S frame) y1 = firstn frame y1 ++ [b]) /\
  (forall late, (n <= late)%nat ->
      SimplePendulum.update x1 y1 late = IndexError /\
      DampedPendulum.update x1 y1 late = IndexError).
Proof.
  intros L1 L2 Hf. split.
  - destruct (getitem_lt x1 frame) as (a & Ga & Na); [lia|].
    destruct (getitem_lt y1 frame) as (b & Gb & Nb); [lia|].
    exists a, b. unfold SimplePendulum.update, DampedPendulum.update.
    rewrite Ga, Gb. simpl.
    repeat split; try assumption.
    + apply firstn_length_le. lia.
    + apply firstn_length_le. lia.
    + now apply firstn_succ.
    + now apply firstn_succ.
  - intros late Hl.
    unfold SimplePendulum.update, DampedPendulum.update, getitem.
    assert (E : nth_error x1 late = None) by (apply nth_error_None; lia).
    now rewrite E.
Qed.

Lemma X24_single_update_trace_witness :
  (exists a b,
      SimplePendulum.update [1; 2; 3] [4; 5; 6] 2
      = Ok (([0; a], [0; b]), (firstn 2 [1; 2; 3], firstn 2 [4; 5; 6])) /\
      DampedPendulum.update [1; 2; 3] [4; 5; 6] 2
      = Ok (([0; a], [0; b]), (firstn 2 [1; 2; 3], firstn 2 [4; 5; 6])) /\
      nth_error [1; 2; 3] 2 = Some a /\ nth_error [4; 5; 6] 2 = Some b /\
      length (firstn 2 [1; 2; 3]) = 2%nat /\ length (firstn 2 [4; 5; 6]) = 2%nat /\
      firstn 3 [1; 2; 3] = firstn 2 [1; 2; 3] ++ [a] /\
      firstn 3 [4; 5; 6] = firstn 2 [4; 5; 6] ++ [b]) /\
  (forall late, (3 <= late)%nat ->
      SimplePendulum.update [1; 2; 3] [4; 5; 6] late = IndexError /\
      DampedPendulum.update [1; 2; 3] [4; 5; 6] late = IndexError).
Proof.
  apply (X24_single_update_trace [1; 2; 3] [4; 5; 6] 3 2);
    try reflexivity; lia.
Defined.

(** X25.  In InteractiveSimplePendulum.py the bob is drawn within 100·l
    pixels of the window centre in each coordinate, for the position frames
    of a solve with a non-negative rod length; the shapes drawn are the rod
    from the centre and the bob. *)
Theorem X25_simple_bob_within_reach {solver : OdeSolver ISP.Y}
    (s : ISP.Session) (j : nat) (a b : R) :
  0 <= ISP.l (ISP.params s) ->
  nth_error (ISP.x1 (ISP.update_simulation s)) j = Some a ->
  nth_error (ISP.y1 (ISP.update_simulation s)) j = Some b ->
  exists bob : Z * Z,
    ISP.pendulum_shapes (a, b)
    = [Pygame.Line (400, 400)%Z bob 2; Pygame.Circle bob 10] /\
    (400 - 100 * ISP.l (ISP.params s) <= IZR (fst bob)
     <= 400 + 100 * ISP.l (ISP.params s)) /\
    (400 - 100 * ISP.l (ISP.params s) <= IZR (snd bob)
     <= 400 + 100 * ISP.l (ISP.params s)).
Proof.
  intros Hl Ha Hb.
  unfold ISP.update_simulation in Ha, Hb. cbn [ISP.x1 ISP.y1] in Ha, Hb.
  apply nth_error_map_inv in Ha. destruct Ha as (th1 & _ & ->).
  apply nth_error_map_inv in Hb. destruct Hb as (th2 & _ & ->).
  set (l := ISP.l (ISP.params s)) in *.
  pose proof (scaled_sin_bound l th1 Hl) as S1.
  pose proof (scaled_cos_bound l th2 Hl) as C1.
  unfold ISP.pendulum_shapes.
  change (ISP.WIDTH / 2)%Z with 400%Z. change (ISP.HEIGHT / 2)%Z with 400%Z.
  eexists. split; [reflexivity|]. cbn [fst snd].
  rewrite !plus_IZR.
  pose proof (int_within (100 * (l * sin th1)) (100 * l)) as B1.
  pose proof (int_within (100 * (l * cos th2)) (100 * l)) as B2.
  repeat split; lra.
Qed.

Lemma X25_simple_bob_within_reach_witness :
  let s := @ISP.initial Euler.solver2 in
  let l := ISP.l (ISP.params s) in
  exists bob : Z * Z,
    ISP.pendulum_shapes (l * sin (PI / 2), l * cos (PI / 2))
    = [Pygame.Line (400, 400)%Z bob 2; Pygame.Circle bob 10] /\
    (400 - 100 * l <= IZR (fst bob) <= 400 + 100 * l) /\
    (400 - 100 * l <= IZR (snd bob) <= 400 + 100 * l).
Proof.
  apply (@X25_simple_bob_within_reach Euler.solver2 (@ISP.initial Euler.solver2) 0%nat);
    try reflexivity; simpl; lra.
Defined.

(** ** Playback after a release, and the values of [dragging] *)

Lemma double_handle_events_app {solver : OdeSolver IDP.Y}
    (evs1 evs2 : list Pygame.Event) (s : IDP.Session) :
  IDP.handle_events (evs1 ++ evs2) s
  = IDP.handle_events evs2 (IDP.handle_events evs1 s).
Proof. unfold IDP.handle_events. apply fold_left_app. Qed.

(** X26.  Playback restarts in the pass of the release.  If [solve_ivp]
    returns one state per evaluation time, then a pass whose batch ends with
    a mouse-button-up draws frame 0 of the trajectory just solved, computed
    with the parameters as the earlier events of the batch left them, and
    leaves the frame index at 1. *)
Theorem X26_release_restarts_playback {solver : OdeSolver IDP.Y}
    (s : IDP.Session) (events : list Pygame.Event) (pos : Z * Z) :
  solve_ivp_samples solver ->
  let before := IDP.handle_events events s in
  let fresh := IDP.update_simulation (IDP.set_dragging None before) in
  exists a b c d,
    IDP.loop_body (events ++ [Pygame.MOUSEBUTTONUP pos]) s
    = Ok (IDP.set_frame 1 fresh, Some (a, b, c, d)) /\
    nth_error (IDP.x1 fresh) 0 = Some a /\ nth_error (IDP.y1 fresh) 0 = Some b /\
    nth_error (IDP.x2 fresh) 0 = Some c /\ nth_error (IDP.y2 fresh) 0 = Some d /\
    IDP.params fresh = IDP.params before /\
    IDP.sol fresh
    = solve_ivp (IDP.DoubleDampedPendulum (IDP.params before))
        IDP.t_span IDP.y0 IDP.t_eval.
Proof.
  intros Hs before fresh.
  assert (Hc : arrays_complete_double fresh) by (apply double_update_complete, Hs).
  assert (Hf : (IDP.frame fresh < length IDP.t_eval)%nat).
  { rewrite double_t_eval_length. change (IDP.frame fresh) with 0%nat. lia. }
  destruct (double_draw_advances fresh Hc Hf) as (a & b & c & d & Hd & Na & Nb & Nc & Nd).
  exists a, b, c, d.
  unfold IDP.loop_body. rewrite double_handle_events_app.
  change (IDP.handle_events [Pygame.MOUSEBUTTONUP pos] (IDP.handle_events events s))
    with fresh.
  rewrite Hd. repeat split; assumption || reflexivity.
Qed.

Lemma X26_release_restarts_playback_witness :
  let s := IDP.set_frame 500 (@IDP.initial Euler.solver4) in
  let events := [Pygame.MOUSEBUTTONDOWN (60, 655)%Z; Pygame.MOUSEMOTION (300, 655)%Z] in
  let before := @IDP.handle_events Euler.solver4 events s in
  let fresh := @IDP.update_simulation Euler.solver4 (IDP.set_dragging None before) in
  exists a b c d,
    @IDP.loop_body Euler.solver4 (events ++ [Pygame.MOUSEBUTTONUP (300, 655)%Z]) s
    = Ok (IDP.set_frame 1 fresh, Some (a, b, c, d)) /\
    nth_error (IDP.x1 fresh) 0 = Some a /\ nth_error (IDP.y1 fresh) 0 = Some b /\
    nth_error (IDP.x2 fresh) 0 = Some c /\ nth_error (IDP.y2 fresh) 0 = Some d /\
    IDP.params fresh = IDP.params before /\
    IDP.sol fresh
    = @solve_ivp _ Euler.solver4 (IDP.DoubleDampedPendulum (IDP.params before))
        IDP.t_span IDP.y0 IDP.t_eval.
Proof.
  apply (@X26_release_restarts_playback Euler.solver4
           (IDP.set_frame 500 (@IDP.initial Euler.solver4))
           [Pygame.MOUSEBUTTONDOWN (60, 655)%Z; Pygame.MOUSEMOTION (300, 655)%Z]
           (300, 655)%Z).
  exact euler_solver4_samples.
Defined.

(** X27.  [dragging] only ever holds [None] or the name of one of the six
    sliders, in every reachable session of InteractiveDoublePendulum.py; in
    particular it is never the empty string, so its truth value in
    [event.type == pygame.MOUSEMOTION and dragging] is that of
    [dragging is not None]. *)
Theorem X27_dragging_values {solver : OdeSolver IDP.Y} (s : IDP.Session) :
  reachable_double s ->
  (IDP.dragging s = None \/
   exists name, IDP.dragging s = Some name /\ In name (map fst double_sliders)) /\
  IDP.dragging s <> Some ""%string.
Proof.
  intros Hr.
  assert (G : IDP.dragging s = None \/
              exists name, IDP.dragging s = Some name /\
                           In name (map fst double_sliders)).
  { induction Hr as [|e s Hs IH|s s' f Hs IH Hd].
    - now left.
    - destruct e as [|pos|pos|pos|]; try assumption.
      + unfold IDP.handle_event.
        repeat match goal with
               | |- context [if ?b then _ else _] => destruct b
               end; try assumption;
          right; eexists; (split; [reflexivity|]); simpl; tauto.
      + now left.
      + destruct (double_motion_frame s pos)
          as (_ & _ & _ & _ & _ & _ & _ & _ & -> & _).
        assumption.
    - apply double_draw_keeps in Hd.
      destruct Hd as (_ & _ & _ & _ & _ & _ & -> & _). assumption. }
  split; [assumption|].
  destruct G as [-> | (name & -> & Hin)]; [discriminate|].
  intros [= ->]. simpl in Hin.
  repeat destruct Hin as [Hin|Hin]; try discriminate. contradiction.
Qed.

Lemma X27_dragging_values_witness :
  let s := @IDP.handle_event Euler.solver4
             (Pygame.MOUSEBUTTONDOWN (460, 705)%Z) (@IDP.initial Euler.solver4) in
  (IDP.dragging s = None \/
   exists name, IDP.dragging s = Some name /\ In name (map fst double_sliders)) /\
  IDP.dragging s <> Some ""%string.
Proof.
  apply (@X27_dragging_values Euler.solver4).
  apply reach_double_event, reach_double_initial.
Defined.
